(** * Spatial organizer of the memory palace backend

    A shallow embedding of [backend/services/clustering.py] (class
    [SpatialOrganizer] and its module-level imports) together with the
    properties of projection, clustering, connection building and cluster
    summarisation.

    Conventions of the model:
    - Python floats are idealised as real numbers ([R]); comparisons of the
      source ([==], [>], [>=]) are the decidable comparisons of [R].  Where
      that idealisation decides a statement, the source is embedded a second
      time on IEEE 754 binary64 numbers (module [Binary64]), and a
      statement about reals that the floats follow only away from underflow
      and overflow carries that restriction as a hypothesis
      ([well_scaled]).
    - A Python exception is a value [Raise e] of the [result] type; the
      statements of the source are sequenced with the bind of that monad.
    - scikit-learn and umap are not part of the repository.  Their behaviour
      is a field of the [Runtime] record (which modules can be imported and
      what the estimators compute); what the theorems need from them is
      stated as a contract on the shapes they return.
    - The attributes [self.pca], [self.scaler], [self.cluster_model] and
      [self.fitted] are written but never read by the methods below; only
      [self.n_components] is kept. *)

From Stdlib Require Import Floats.
From Stdlib Require Import String.
From Stdlib Require Import Reals Lra Lia ZArith Bool Arith List.
From Stdlib Require Import Sorted Permutation.
Import ListNotations.

Set Implicit Arguments.

(* ================================================================== *)
(** ** Python exceptions as an error monad *)

Module Py.

Inductive exn : Type :=
| ImportError
| NameError
| ValueError
| IndexError.

Inductive result (A : Type) : Type :=
| Ok (a : A)
| Raise (e : exn).

Arguments Ok {A} a.
Arguments Raise {A} e.

Definition bind {A B : Type} (m : result A) (k : A -> result B) : result B :=
  match m with
  | Ok a => k a
  | Raise e => Raise e
  end.

(** [for x in l: s = body(x, s)] with an exception leaving the loop. *)
Fixpoint for_each {A S : Type} (l : list A) (body : A -> S -> result S)
         (s : S) : result S :=
  match l with
  | [] => Ok s
  | a :: l' => bind (body a s) (for_each l' body)
  end.

(** A list comprehension whose element expression may raise. *)
Fixpoint map_m {A B : Type} (f : A -> result B) (l : list A)
  : result (list B) :=
  match l with
  | [] => Ok []
  | a :: l' =>
      bind (f a) (fun b => bind (map_m f l') (fun bs => Ok (b :: bs)))
  end.

(** [try: body  except ImportError: handler]. *)
Definition try_except_ImportError {A : Type}
           (body : result A) (handler : result A) : result A :=
  match body with
  | Raise ImportError => handler
  | r => r
  end.

(** An [import] statement: succeeds or raises [ImportError]. *)
Definition import (available : bool) : result unit :=
  if available then Ok tt else Raise ImportError.

(** Truth value of an [Optional[int]]: [None] and [0] are falsy. *)
Definition truthy (n : option Z) : bool :=
  match n with
  | None => false
  | Some k => negb (Z.eqb k 0)
  end.

End Py.

Import Py.

Declare Scope py_scope.
Notation "x <- m ;; k" := (bind m (fun x => k))
  (at level 61, m at next level, right associativity) : py_scope.
Notation "m ;;; k" := (bind m (fun _ => k))
  (at level 61, right associativity) : py_scope.
Open Scope py_scope.

(* ================================================================== *)
(** ** The part of numpy the module uses *)

Module Np.

Local Open Scope R_scope.

(** A one-dimensional array, and a two-dimensional array as the list of
    its rows. *)
Abbreviation vec := (list R) (only parsing).
Abbreviation ndarray := (list (list R)) (only parsing).

Definition shape0 (m : ndarray) : nat := length m.
Definition shape1 (m : ndarray) : nat := length (hd [] m).
Definition size (m : ndarray) : nat := (shape0 m * shape1 m)%nat.

Definition rectangular (m : ndarray) : bool :=
  forallb (fun row => Nat.eqb (length row) (shape1 m)) m.

(** [np.array(rows)]: rows of different lengths are refused. *)
Definition array (rows : list (list R)) : result ndarray :=
  if rectangular rows then Ok rows else Raise ValueError.

Definition zeros (r c : nat) : ndarray := repeat (repeat 0 c) r.

(** [np.hstack([a, b])] for two arrays with the same number of rows. *)
Definition hstack (a b : ndarray) : ndarray :=
  map (fun p => fst p ++ snd p) (combine a b).

Definition sum (v : vec) : R := fold_right Rplus 0 v.

Definition column (j : nat) (m : ndarray) : vec :=
  map (fun row => nth j row 0) m.

(** [np.mean(v)] and [np.mean(m, axis=0)]. *)
Definition mean (v : vec) : R := sum v / INR (length v).
Definition mean_axis0 (m : ndarray) : vec :=
  map (fun j => mean (column j m)) (seq 0 (shape1 m)).

(** [m - v], [v] broadcast over the rows. *)
Definition sub_row (row v : vec) : vec :=
  map (fun p => fst p - snd p) (combine row v).
Definition sub_rows (m : ndarray) (v : vec) : ndarray :=
  map (fun row => sub_row row v) m.

(** [m * c] for a scalar [c]. *)
Definition scale (m : ndarray) (c : R) : ndarray :=
  map (map (fun x => x * c)) m.

(** [np.dot] of two one-dimensional arrays. *)
Definition dot (a b : vec) : result R :=
  if Nat.eqb (length a) (length b)
  then Ok (sum (map (fun p => fst p * snd p) (combine a b)))
  else Raise ValueError.

(** [np.linalg.norm(v)] and [np.linalg.norm(m, axis=1)]. *)
Definition norm (v : vec) : R := sqrt (sum (map (fun x => x * x) v)).
Definition norm_axis1 (m : ndarray) : vec := map norm m.

(** [np.max] of a one-dimensional array (the callers pass a non-empty
    one; numpy raises on an empty one). *)
Definition max (v : vec) : result R :=
  match v with
  | [] => Raise ValueError
  | x :: xs => Ok (fold_left Rmax xs x)
  end.

(** [np.clip(x, lo, hi)]. *)
Definition clip (x lo hi : R) : R := Rmin (Rmax x lo) hi.

(** [np.argmax]: the first index holding the largest value. *)
Fixpoint argmax_from (best : R) (best_i i : nat) (v : vec) : nat :=
  match v with
  | [] => best_i
  | x :: xs =>
      if Rlt_dec best x
      then argmax_from x i (S i) xs
      else argmax_from best best_i (S i) xs
  end.

Definition argmax (v : vec) : result nat :=
  match v with
  | [] => Raise ValueError
  | x :: xs => Ok (argmax_from x 0%nat 1%nat xs)
  end.

End Np.

(* ================================================================== *)
(** ** The runtime: what can be imported, and what it computes *)

Record Runtime : Type := {
  (** [from sklearn.cluster import HDBSCAN] succeeds. *)
  hdbscan_importable : bool;
  (** [from sklearn.manifold import TSNE] succeeds. *)
  tsne_importable : bool;
  (** [import umap] succeeds. *)
  umap_importable : bool;
  (** [StandardScaler().fit_transform(X)]. *)
  scaler_fit_transform : Np.ndarray -> result Np.ndarray;
  (** [PCA(n_components=k).fit_transform(X)]. *)
  pca_fit_transform : nat -> Np.ndarray -> result Np.ndarray;
  (** [TSNE(n_components=3, perplexity=p, random_state=42).fit_transform(X)]. *)
  tsne_fit_transform : nat -> Np.ndarray -> result Np.ndarray;
  (** [umap.UMAP(n_components=3, n_neighbors=k,
      random_state=42).fit_transform(X)]. *)
  umap_fit_transform : nat -> Np.ndarray -> result Np.ndarray;
  (** [KMeans(n_clusters=k, random_state=42).fit_predict(X)]. *)
  kmeans_fit_predict : Z -> Np.ndarray -> result (list Z);
  (** [KMeans(n_clusters=k, random_state=42).fit(X).inertia_]. *)
  kmeans_inertia : nat -> Np.ndarray -> result R;
  (** [HDBSCAN(min_cluster_size=m).fit_predict(X)]. *)
  hdbscan_fit_predict : nat -> Np.ndarray -> result (list Z);
  (** [DBSCAN(eps=e, min_samples=m).fit_predict(X)]. *)
  dbscan_fit_predict : R -> nat -> Np.ndarray -> result (list Z)
}.

(** Module level of clustering.py, lines 8-13:
<<
    try:
        from sklearn.cluster import HDBSCAN
        HAS_HDBSCAN = True
    except ImportError:
        HAS_HDBSCAN = False
        from sklearn.cluster import DBSCAN
>>
    [DBSCAN] is imported in the [except] branch only, so the global name
    [DBSCAN] is bound exactly when [HAS_HDBSCAN] is false. *)
Definition HAS_HDBSCAN (rt : Runtime) : bool := hdbscan_importable rt.

Definition DBSCAN (rt : Runtime)
  : result (R -> nat -> Np.ndarray -> result (list Z)) :=
  if HAS_HDBSCAN rt then Raise NameError else Ok (dbscan_fit_predict rt).

(* ================================================================== *)
(** ** Data produced by the organizer *)

(** The dict [{"x": .., "y": .., "z": ..}]. *)
Record Position : Type := { x : R; y : R; z : R }.

(** The dict [{"source": .., "target": .., "strength": ..}]. *)
Record Connection : Type := { source : nat; target : nat; strength : R }.

(** The dict appended to [cluster_list]. *)
Record ClusterInfo : Type := {
  cluster_id : Z;
  center : Position;
  size : nat;
  document_indices : list nat
}.

(** [{**doc, "position": .., "cluster": ..}]. *)
Record OrganizedDoc (Doc : Type) : Type := {
  doc : Doc;
  position : Position;
  cluster : Z
}.

(** The dict returned by [organize_spatial_layout]. *)
Record Layout (Doc : Type) : Type := {
  documents : list (OrganizedDoc Doc);
  clusters : list ClusterInfo;
  connections : list Connection
}.

(** The entry of the local dict [clusters] of [_calculate_cluster_info]. *)
Record ClusterData : Type := {
  cd_id : Z;
  cd_documents : list nat;
  cd_positions : list Np.vec
}.

(** The object itself: [__init__(self, n_components=3)]. *)
Record SpatialOrganizer : Type := { n_components : nat }.

(** [spatial_organizer = SpatialOrganizer()], the singleton of the module. *)
Definition spatial_organizer : SpatialOrganizer := {| n_components := 3 |}.

(* ================================================================== *)
(** ** Small helpers of the embedding *)

(** Comparisons of floats, as booleans. *)
Definition Reqb (a b : R) : bool := if Req_dec_T a b then true else false.
Definition Rgtb (a b : R) : bool := if Rlt_dec b a then true else false.
Definition Rgeb (a b : R) : bool := if Rge_dec a b then true else false.

(** [a[i]] on a list or on the first axis of an array. *)
Definition getitem {A : Type} (a : list A) (i : nat) : result A :=
  match nth_error a i with
  | Some v => Ok v
  | None => Raise IndexError
  end.

(** [enumerate(l)] and [range(lo, hi)]. *)
Definition enumerate {A : Type} (l : list A) : list (nat * A) :=
  combine (seq 0 (length l)) l.
Definition range (lo hi : nat) : list nat := seq lo (hi - lo).

Definition origin : Position := {| x := 0; y := 0; z := 0 |}.

(** [{"x": float(pos[0]), "y": float(pos[1]), "z": float(pos[2])}]. *)
Definition to_position (pos : Np.vec) : result Position :=
  px <- getitem pos 0 ;;
  py <- getitem pos 1 ;;
  pz <- getitem pos 2 ;;
  Ok {| x := px; y := py; z := pz |}.

(** [[p["x"], p["y"], p["z"]]]. *)
Definition of_position (p : Position) : Np.vec := [x p; y p; z p].

(** The local dict [clusters]: insertion-ordered, keyed by label. *)
Definition has_key (label : Z) (clusters : list ClusterData) : bool :=
  existsb (fun c => Z.eqb (cd_id c) label) clusters.

(** [clusters[label]["documents"].append(i)] and
    [clusters[label]["positions"].append(p)]. *)
Definition append_member (label : Z) (i : nat) (p : Np.vec)
           (clusters : list ClusterData) : list ClusterData :=
  map (fun c =>
         if Z.eqb (cd_id c) label
         then {| cd_id := cd_id c;
                 cd_documents := cd_documents c ++ [i];
                 cd_positions := cd_positions c ++ [p] |}
         else c) clusters.

(* ================================================================== *)
(** ** The methods of [SpatialOrganizer] *)

Definition _pca_positions (self : SpatialOrganizer) (rt : Runtime)
           (embeddings : Np.ndarray) : result Np.ndarray :=
  let n_samples := Np.shape0 embeddings in
  let k := Nat.min (n_components self)
                   (Nat.min n_samples (Np.shape1 embeddings)) in
  if Nat.eqb n_samples 1 then Ok (Np.zeros 1 3)
  else
    embeddings_scaled <- scaler_fit_transform rt embeddings ;;
    positions <- pca_fit_transform rt k embeddings_scaled ;;
    Ok (if Nat.ltb (Np.shape1 positions) 3
        then Np.hstack positions
               (Np.zeros (Np.shape0 positions) (3 - Np.shape1 positions))
        else positions).

Definition _tsne_positions (self : SpatialOrganizer) (rt : Runtime)
           (embeddings : Np.ndarray) : result Np.ndarray :=
  try_except_ImportError
    (import (tsne_importable rt) ;;;
     let n_samples := Np.shape0 embeddings in
     if Nat.eqb n_samples 1 then Ok (Np.zeros 1 3)
     else
       let perplexity := Nat.min 30 (n_samples - 1) in
       tsne_fit_transform rt perplexity embeddings)
    (_pca_positions self rt embeddings).

Definition _umap_positions (self : SpatialOrganizer) (rt : Runtime)
           (embeddings : Np.ndarray) : result Np.ndarray :=
  try_except_ImportError
    (import (umap_importable rt) ;;;
     let n_samples := Np.shape0 embeddings in
     if Nat.eqb n_samples 1 then Ok (Np.zeros 1 3)
     else
       let n_neighbors := Nat.min 15 (n_samples - 1) in
       umap_fit_transform rt n_neighbors embeddings)
    (_pca_positions self rt embeddings).

Definition _normalize_positions (positions : Np.ndarray)
  : result Np.ndarray :=
  if Nat.eqb (Np.size positions) 0 then Ok positions
  else
    let positions := Np.sub_rows positions (Np.mean_axis0 positions) in
    max_dist <- Np.max (Np.norm_axis1 positions) ;;
    Ok (if Rgtb max_dist 0
        then Np.scale positions (10 / max_dist)
        else positions).

(** The dispatch on [method] of [calculate_3d_positions], lines 34-41. *)
Definition project_by_method (self : SpatialOrganizer) (rt : Runtime)
           (method : string) (embeddings_array : Np.ndarray)
  : result Np.ndarray :=
  if String.eqb method "pca" then _pca_positions self rt embeddings_array
  else if String.eqb method "tsne" then _tsne_positions self rt embeddings_array
  else if String.eqb method "umap" then _umap_positions self rt embeddings_array
  else _pca_positions self rt embeddings_array.

Definition calculate_3d_positions (self : SpatialOrganizer) (rt : Runtime)
           (embeddings : list (list R)) (method : string)
  : result (list Position) :=
  match embeddings with
  | [] => Ok []
  | _ =>
      embeddings_array <- Np.array embeddings ;;
      positions <- project_by_method self rt method embeddings_array ;;
      positions <- _normalize_positions positions ;;
      map_m to_position positions
  end.

Definition cluster_documents (rt : Runtime) (embeddings : list (list R))
           (method : string) (n_clusters : option Z) : result (list Z) :=
  match embeddings with
  | [] => Ok []
  | _ =>
      embeddings_array <- Np.array embeddings ;;
      let n_samples := Np.shape0 embeddings_array in
      if Nat.ltb n_samples 2 then Ok (repeat 0%Z n_samples)
      else if String.eqb method "kmeans" && truthy n_clusters then
        let n_clusters :=
          Z.min (match n_clusters with Some k => k | None => 0%Z end)
                (Z.of_nat n_samples) in
        kmeans_fit_predict rt n_clusters embeddings_array
      else if String.eqb method "hdbscan" && HAS_HDBSCAN rt then
        let min_cluster_size := Nat.max 2 (n_samples / 10) in
        hdbscan_fit_predict rt min_cluster_size embeddings_array
      else
        dbscan <- DBSCAN rt ;;
        dbscan (5 / 10)%R 2 embeddings_array
  end.

Definition _cosine_similarity (vec1 vec2 : Np.vec) : result R :=
  dot_product <- Np.dot vec1 vec2 ;;
  let norm1 := Np.norm vec1 in
  let norm2 := Np.norm vec2 in
  if Reqb norm1 0 || Reqb norm2 0 then Ok 0%R
  else
    let similarity := (dot_product / (norm1 * norm2))%R in
    Ok (Np.clip similarity (-1) 1).

Definition _calculate_connections (embeddings : list (list R))
           (threshold : R) : result (list Connection) :=
  let n_docs := length embeddings in
  if Nat.ltb n_docs 2 then Ok []
  else
    embeddings_array <- Np.array embeddings ;;
    for_each (range 0 n_docs)
      (fun i connections =>
         for_each (range (i + 1) n_docs)
           (fun j connections =>
              vi <- getitem embeddings_array i ;;
              vj <- getitem embeddings_array j ;;
              similarity <- _cosine_similarity vi vj ;;
              Ok (if Rgeb similarity threshold
                  then connections ++
                       [{| source := i; target := j;
                           strength := similarity |}]
                  else connections))
           connections)
      [].

Definition _calculate_cluster_info (positions : list Position)
           (labels : list Z) : result (list ClusterInfo) :=
  match positions, labels with
  | [], _ | _, [] => Ok []
  | _, _ =>
      let positions_array := map of_position positions in
      clusters <-
        for_each (enumerate labels)
          (fun il clusters =>
             let i := fst il in
             let label := snd il in
             if Z.eqb label (-1) then Ok clusters
             else
               let clusters :=
                 if has_key label clusters then clusters
                 else clusters ++
                      [{| cd_id := label; cd_documents := [];
                          cd_positions := [] |}] in
               p <- getitem positions_array i ;;
               Ok (append_member label i p clusters))
          [] ;;
      map_m
        (fun cluster_data =>
           let positions := cd_positions cluster_data in
           let center := Np.mean_axis0 positions in
           cx <- getitem center 0 ;;
           cy <- getitem center 1 ;;
           cz <- getitem center 2 ;;
           Ok {| cluster_id := cd_id cluster_data;
                 center := {| x := cx; y := cy; z := cz |};
                 size := length (cd_documents cluster_data);
                 document_indices := cd_documents cluster_data |})
        clusters
  end.

Definition organize_spatial_layout {Doc : Type} (self : SpatialOrganizer)
           (rt : Runtime) (documents : list Doc)
           (embeddings : list (list R)) : result (Layout Doc) :=
  match documents, embeddings with
  | [], _ | _, [] =>
      Ok {| documents := []; clusters := []; connections := [] |}
  | _, _ =>
      positions <- calculate_3d_positions self rt embeddings "pca" ;;
      cluster_labels <- cluster_documents rt embeddings "hdbscan" None ;;
      connections <- _calculate_connections embeddings (8 / 10)%R ;;
      let organized_docs :=
        map (fun id =>
               {| doc := snd id;
                  position := nth (fst id) positions origin;
                  cluster := nth (fst id) cluster_labels (-1)%Z |})
            (enumerate documents) in
      clusters <- _calculate_cluster_info positions cluster_labels ;;
      Ok {| documents := organized_docs;
            clusters := clusters;
            connections := connections |}
  end.

(** The list [second_derivative] of [suggest_optimal_clusters]. *)
Definition second_derivative (inertias : list R) : Np.vec :=
  map (fun i =>
         (nth (i + 1) inertias 0 - 2 * nth i inertias 0
          + nth (i - 1) inertias 0)%R)
      (range 1 (length inertias - 1)).

Definition suggest_optimal_clusters (rt : Runtime)
           (embeddings : list (list R)) : result nat :=
  if Nat.ltb (length embeddings) 3 then Ok 1
  else
    embeddings_array <- Np.array embeddings ;;
    let max_clusters := Nat.min 10 (length embeddings - 1) in
    inertias <-
      map_m (fun k => kmeans_inertia rt k embeddings_array)
            (range 1 (max_clusters + 1)) ;;
    if Nat.ltb (length inertias) 3 then Ok 2
    else
      i <- Np.argmax (second_derivative inertias) ;;
      let elbow_idx := i + 2 in
      Ok elbow_idx.

(* ================================================================== *)
(** ** Vocabulary of the properties *)

(** An array of [r] rows of [c] entries each. *)
Definition has_shape (m : Np.ndarray) (r c : nat) : Prop :=
  length m = r /\ Forall (fun row => length row = c) m.

(** What the theorems assume of scikit-learn and umap: the documented
    shapes of what [fit_transform] and [fit_predict] return. *)
Record sklearn_contract (rt : Runtime) : Prop := {
  scaler_shape : forall X Y,
    scaler_fit_transform rt X = Ok Y -> length Y = length X;
  pca_shape : forall k X Y,
    pca_fit_transform rt k X = Ok Y -> has_shape Y (length X) k;
  tsne_shape : forall p X Y,
    tsne_fit_transform rt p X = Ok Y -> has_shape Y (length X) 3;
  umap_shape : forall k X Y,
    umap_fit_transform rt k X = Ok Y -> has_shape Y (length X) 3;
  kmeans_shape : forall k X L,
    kmeans_fit_predict rt k X = Ok L -> length L = length X;
  hdbscan_shape : forall m X L,
    hdbscan_fit_predict rt m X = Ok L -> length L = length X;
  dbscan_shape : forall e m X L,
    dbscan_fit_predict rt e m X = Ok L -> length L = length X
}.

Section Geometry.

Local Open Scope R_scope.

(** The centroid of a list of positions and the Euclidean distance of a
    position from the origin: the vocabulary of the invariant. *)
Definition centroid (ps : list Position) : Position :=
  {| x := Np.mean (map x ps);
     y := Np.mean (map y ps);
     z := Np.mean (map z ps) |}.

Definition distance_from_origin (p : Position) : R :=
  sqrt (x p * x p + y p * y p + z p * z p).

(** [max_dist] of [_normalize_positions]: the largest distance from the
    centroid. *)
Definition max_centred_distance (positions : Np.ndarray) : result R :=
  Np.max (Np.norm_axis1
            (Np.sub_rows positions (Np.mean_axis0 positions))).

Definition psub (mu p : Position) : Position :=
  {| x := x p - x mu; y := y p - y mu; z := z p - z mu |}.

Definition pscale (c : R) (p : Position) : Position :=
  {| x := x p * c; y := y p * c; z := z p * c |}.

End Geometry.

(* ================================================================== *)
(** ** A toy runtime, to run the methods on concrete inputs *)

(** Stand-ins for the estimators with the documented shapes: the scaler is
    the identity, PCA keeps the first [k] coordinates, KMeans and HDBSCAN put
    every sample in cluster 0, DBSCAN calls every sample noise.  Which
    modules can be imported, what TSNE does and the inertia of a KMeans fit
    are left to the caller. *)
Definition toy_runtime (has_hdbscan has_tsne has_umap : bool)
           (tsne : Np.ndarray -> result Np.ndarray)
           (inertia : nat -> result R) : Runtime :=
  {| hdbscan_importable := has_hdbscan;
     tsne_importable := has_tsne;
     umap_importable := has_umap;
     scaler_fit_transform := fun X => Ok X;
     pca_fit_transform :=
       fun k X => Ok (map (fun row => firstn k (row ++ repeat 0%R k)) X);
     tsne_fit_transform := fun _ X => tsne X;
     umap_fit_transform :=
       fun _ X => Ok (map (fun _ => [0%R; 0%R; 0%R]) X);
     kmeans_fit_predict := fun _ X => Ok (map (fun _ => 0%Z) X);
     kmeans_inertia := fun k _ => inertia k;
     hdbscan_fit_predict := fun _ X => Ok (map (fun _ => 0%Z) X);
     dbscan_fit_predict := fun _ _ X => Ok (map (fun _ => (-1)%Z) X) |}.

(** A TSNE that embeds every sample at (0,0,0). *)
Definition tsne_zero (X : Np.ndarray) : result Np.ndarray :=
  Ok (map (fun _ => [0%R; 0%R; 0%R]) X).

(** A TSNE whose [fit_transform] raises [ValueError]. *)
Definition tsne_raises (X : Np.ndarray) : result Np.ndarray :=
  Raise ValueError.

Definition inertia_zero (k : nat) : result R := Ok 0%R.

(** Two documents on opposite sides of the first axis. *)
Definition two_documents : list (list R) := [[1; 0]; [-1; 0]]%R.

(** What the toy PCA makes of them, padded to three coordinates. *)
Definition two_projected : list Position :=
  [ {| x := 1; y := 0; z := 0 |}; {| x := -1; y := 0; z := 0 |} ]%R.

(* ================================================================== *)
(** ** Vocabulary of the similarity and connection properties *)

(** The sum of the products of the paired entries, and the value computed
    by [_cosine_similarity] on two vectors of one length. *)
Definition inner (a b : Np.vec) : R :=
  Np.sum (map (fun p => (fst p * snd p)%R) (combine a b)).

Definition cosine_value (a b : Np.vec) : R :=
  if Reqb (Np.norm a) 0 || Reqb (Np.norm b) 0 then 0%R
  else Np.clip (inner a b / (Np.norm a * Np.norm b))%R (-1) 1.

(** The cosine of the angle before any clamping (0 by convention when a
    norm is zero). *)
Definition raw_cosine (a b : Np.vec) : R :=
  if Reqb (Np.norm a) 0 || Reqb (Np.norm b) 0 then 0%R
  else (inner a b / (Np.norm a * Np.norm b))%R.

(** A vector with at least one entry different from zero. *)
Definition nonzero (v : Np.vec) : Prop := exists c, In c v /\ c <> 0%R.

(** The index pairs visited by the two loops of [_calculate_connections],
    in the order of the visit. *)
Definition index_pairs (n : nat) : list (nat * nat) :=
  flat_map (fun i => map (pair i) (range (i + 1) n)) (range 0 n).

(** What one iteration of the inner loop appends. *)
Definition edge_of (E : Np.ndarray) (threshold : R) (ij : nat * nat)
  : list Connection :=
  let s := cosine_value (nth (fst ij) E []) (nth (snd ij) E []) in
  if Rgeb s threshold
  then [{| source := fst ij; target := snd ij; strength := s |}]
  else [].

(** The two ends of an edge, as an ordered and as an unordered pair. *)
Definition ends (e : Connection) : nat * nat := (source e, target e).
Definition unordered_ends (e : Connection) : nat * nat :=
  (Nat.min (source e) (target e), Nat.max (source e) (target e)).

(** Two documents with the same embedding. *)
Definition twin_documents : list (list R) := [[1; 0]; [1; 0]]%R.

(** Five documents on a line, and a table of inertias for k = 1..4. *)
Definition five_documents : list (list R) := [[0]; [1]; [2]; [3]; [4]]%R.

Definition inertia_table (k : nat) : result R :=
  Ok (nth k [0; 100; 40; 10; 5]%R 0%R).

(* ================================================================== *)
(** ** Vocabulary of the cluster summaries *)

(** The indices carrying [label], in increasing order. *)
Definition indices_of (label : Z) (labels : list Z) : list nat :=
  filter (fun i => Z.eqb (nth i labels (-1)%Z) label)
         (seq 0 (length labels)).

(** The positions of the documents with the given indices. *)
Definition member_positions (positions : list Position)
           (indices : list nat) : list Position :=
  map (fun i => nth i positions origin) indices.

(** The body of the first loop of [_calculate_cluster_info]. *)
Definition group_step (positions_array : Np.ndarray) (il : nat * Z)
           (clusters : list ClusterData) : result (list ClusterData) :=
  let i := fst il in
  let label := snd il in
  if Z.eqb label (-1) then Ok clusters
  else
    let clusters :=
      if has_key label clusters then clusters
      else clusters ++
           [{| cd_id := label; cd_documents := [];
               cd_positions := [] |}] in
    p <- getitem positions_array i ;;
    Ok (append_member label i p clusters).

(** The body of its second loop. *)
Definition summarize (cluster_data : ClusterData) : result ClusterInfo :=
  let positions := cd_positions cluster_data in
  let center := Np.mean_axis0 positions in
  cx <- getitem center 0 ;;
  cy <- getitem center 1 ;;
  cz <- getitem center 2 ;;
  Ok {| cluster_id := cd_id cluster_data;
        center := {| x := cx; y := cy; z := cz |};
        size := length (cd_documents cluster_data);
        document_indices := cd_documents cluster_data |}.

(** What the dict [clusters] holds once the labels [seen] have been read. *)
Definition cluster_data_ok (positions : list Position) (seen : list Z)
           (c : ClusterData) : Prop :=
  cd_id c <> (-1)%Z
  /\ cd_documents c = indices_of (cd_id c) seen
  /\ cd_documents c <> []
  /\ cd_positions c
     = map of_position (member_positions positions (cd_documents c)).

Definition grouping_invariant (positions : list Position) (seen : list Z)
           (clusters : list ClusterData) : Prop :=
  NoDup (map cd_id clusters)
  /\ Forall (cluster_data_ok positions seen) clusters
  /\ (forall i label,
         nth_error seen i = Some label -> label <> (-1)%Z ->
         has_key label clusters = true).

(** A summary that groups the indices of one label. *)
Definition summary_of (positions : list Position) (labels : list Z)
           (s : ClusterInfo) : Prop :=
  cluster_id s <> (-1)%Z
  /\ document_indices s = indices_of (cluster_id s) labels
  /\ document_indices s <> []
  /\ size s = length (document_indices s)
  /\ center s = centroid (member_positions positions (document_indices s)).

(** The three embeddings of the near-duplicate scenario. *)
Definition scenario_documents : list (list R) :=
  [[1; 0; 0]; [0; 1; 0]; [1; 0; 1 / 100]]%R.

(* ================================================================== *)
(** ** More of [SpatialOrganizer], and its callers in [main.py] *)


(** What [_normalize_positions] does to rows already centred: the scaling
    by [10 / max_dist] when that distance is positive. *)
Definition rescale (centred : list Position) : list Position :=
  match Np.max (map distance_from_origin centred) with
  | Ok d =>
      if Rgtb d 0 then map (pscale (10 / d)%R) centred else centred
  | Raise _ => centred
  end.

(** Python's builtin [sum], adding from the left. *)
Definition py_sum (l : list R) : R := fold_left Rplus l 0%R.

(** [main.py], [get_documents_simple], lines 248-249: the label of one
    embedding in the hash-based clustering,
    [int(abs(hash_val * 100)) % n_clusters]. *)
Definition hash_cluster_id (emb : list R) (n_clusters : Z) : Z :=
  let hash_val :=
    if Nat.leb 3 (length emb) then py_sum (firstn 3 emb) else py_sum emb in
  Z.modulo (Int_part (Rabs (hash_val * 100))) n_clusters.

(** [main.py], [get_documents_simple], lines 237-274: the list
    [cluster_labels] computed from the embeddings read from the store.
    [except Exception] catches every exception of the model. *)
Definition simple_cluster_labels (rt : Runtime)
           (embeddings : list (list R)) : list Z :=
  match embeddings with
  | [] => []
  | _ =>
      if Nat.ltb 200 (length embeddings) then
        let n_clusters := 10%Z in
        map (fun emb => hash_cluster_id emb n_clusters) embeddings
      else
        let n_clusters :=
          if Nat.leb (length embeddings) 20
          then Z.min 3 (Z.of_nat (length embeddings / 5) + 1)
          else if Nat.leb (length embeddings) 100 then 5%Z
          else 8%Z in
        match cluster_documents rt embeddings "kmeans" (Some n_clusters) with
        | Ok cluster_labels => cluster_labels
        | Raise _ =>
            let n_clusters := 5 in
            map (fun i => Z.of_nat (i mod n_clusters))
                (range 0 (length embeddings))
        end
  end.

(** A search hit, as far as [calculate_uniqueness_score] reads it:
    [d['score']]. *)
Record SimilarDoc : Type := { score : R }.

(** [main.py], [calculate_uniqueness_score]. *)
Definition calculate_uniqueness_score (similar_docs : list SimilarDoc) : R :=
  match similar_docs with
  | [] => 1%R
  | _ =>
      let avg_similarity :=
        (py_sum (map score similar_docs)
         / INR (length similar_docs))%R in
      let uniqueness := (1 - avg_similarity)%R in
      Rmax 0 (Rmin 1 uniqueness)
  end.

(** A dict with integer keys and integer values, in insertion order:
    [d.get(k, default)] and [d[k] = v]. *)
Definition dict_get (d : list (nat * nat)) (k default : nat) : nat :=
  match find (fun kv => Nat.eqb (fst kv) k) d with
  | Some kv => snd kv
  | None => default
  end.

Definition dict_set (d : list (nat * nat)) (k v : nat) : list (nat * nat) :=
  if existsb (fun kv => Nat.eqb (fst kv) k) d
  then map (fun kv => if Nat.eqb (fst kv) k then (k, v) else kv) d
  else d ++ [(k, v)].

(** [main.py], [get_statistics], lines 681-686: the dict
    [connection_counts], counting for every document index the connections
    it is an end of. *)
Definition connection_counts (connections : list Connection)
  : list (nat * nat) :=
  fold_left
    (fun counts conn =>
       let source := source conn in
       let target := target conn in
       let counts := dict_set counts source (dict_get counts source 0 + 1) in
       dict_set counts target (dict_get counts target 0 + 1))
    connections [].

(** The number of connections ending at document [k]. *)
Definition degree (connections : list Connection) (k : nat) : nat :=
  length (filter (fun e => Nat.eqb (source e) k) connections)
  + length (filter (fun e => Nat.eqb (target e) k) connections).

(* ================================================================== *)
(** ** Chunking, from [services/embedding_service.py] *)

(** [range(start, stop, step)]: a zero step raises [ValueError]. *)
Definition py_range (start stop step : Z) : result (list Z) :=
  if Z.eqb step 0 then Raise ValueError
  else
    let count :=
      if Z.ltb 0 step
      then ((stop - start + step - 1) / step)%Z
      else ((start - stop - step - 1) / (- step))%Z in
    Ok (map (fun k => (start + Z.of_nat k * step)%Z)
            (seq 0 (Z.to_nat count))).

(** How a slice bound is read: a negative bound counts from the end, and
    every bound is clamped into [0, len]. *)
Definition slice_index (len i : Z) : Z :=
  if Z.ltb i 0 then Z.max (len + i) 0 else Z.min i len.

(** [l[lo:hi]]. *)
Definition py_slice {A : Type} (l : list A) (lo hi : Z) : list A :=
  let len := Z.of_nat (length l) in
  let a := slice_index len lo in
  let b := slice_index len hi in
  firstn (Z.to_nat (b - a)) (skipn (Z.to_nat a) l).

(** [self.encoding] of [EmbeddingService]: the tokenizer of tiktoken,
    which is not part of the repository. *)
Record Encoding : Type := {
  token : Type;
  encode : string -> list token;
  decode : list token -> string
}.

(** [EmbeddingService.chunk_text]. *)
Definition chunk_text (encoding : Encoding) (text : string)
           (chunk_size overlap : Z) : result (list string) :=
  let tokens := encode encoding text in
  starts <- py_range 0 (Z.of_nat (length tokens)) (chunk_size - overlap) ;;
  Ok (map (fun i =>
             let chunk_tokens := py_slice tokens i (i + chunk_size) in
             decode encoding chunk_tokens)
          starts).

(** A tokenizer with one token per character, to run [chunk_text]. *)
Definition char_encoding : Encoding :=
  {| token := Ascii.ascii;
     encode := list_ascii_of_string;
     decode := string_of_list_ascii |}.

(* ================================================================== *)
(** ** Similar texts, from [services/embedding_service.py] *)

(** An entry of [text_embeddings]: the keys "text" and "metadata" may be
    missing, the key "embedding" is read with [item["embedding"]]. *)
Record TextItem (Meta : Type) : Type := {
  item_text : option string;
  item_metadata : option Meta;
  item_embedding : list R
}.

(** An entry of the result. *)
Record SimilarText (Meta : Type) : Type := {
  similar_text : string;
  similar_metadata : Meta;
  similarity : R
}.

(** [EmbeddingService.calculate_similarity]; [np.array] of a flat list of
    floats never raises. *)
Definition calculate_similarity (embedding1 embedding2 : list R)
  : result R :=
  let vec1 := embedding1 in
  let vec2 := embedding2 in
  dot_product <- Np.dot vec1 vec2 ;;
  let norm1 := Np.norm vec1 in
  let norm2 := Np.norm vec2 in
  if Reqb norm1 0 || Reqb norm2 0 then Ok 0%R
  else
    let similarity := (dot_product / (norm1 * norm2))%R in
    Ok (Np.clip similarity (-1) 1).

(** [similarities.sort(key=lambda x: x["similarity"], reverse=True)]: a
    stable sort, larger similarities first, entries with equal
    similarities in their original order. *)
Fixpoint insert_by_similarity {Meta : Type} (a : SimilarText Meta)
         (l : list (SimilarText Meta)) : list (SimilarText Meta) :=
  match l with
  | [] => [a]
  | b :: l' =>
      if Rlt_dec (similarity a) (similarity b)
      then b :: insert_by_similarity a l'
      else a :: l
  end.

Definition sort_by_similarity {Meta : Type} (l : list (SimilarText Meta))
  : list (SimilarText Meta) :=
  fold_right insert_by_similarity [] l.

(** [EmbeddingService.find_similar_texts]; [empty] is the dict [{}]. *)
Definition find_similar_texts {Meta : Type} (empty : Meta)
           (query_embedding : list R)
           (text_embeddings : list (TextItem Meta))
           (threshold : R) (top_k : Z)
  : result (list (SimilarText Meta)) :=
  similarities <-
    for_each text_embeddings
      (fun item similarities =>
         similarity <-
           calculate_similarity query_embedding (item_embedding item) ;;
         Ok (if Rgeb similarity threshold
             then similarities ++
                  [{| similar_text :=
                        match item_text item with
                        | Some t => t
                        | None => ""%string
                        end;
                      similar_metadata :=
                        match item_metadata item with
                        | Some m => m
                        | None => empty
                        end;
                      similarity := similarity |}]
             else similarities))
      [] ;;
  let similarities := sort_by_similarity similarities in
  Ok (py_slice similarities 0 top_k).

(** The entries that reach the threshold, in the order of the input. *)
Definition qualifying {Meta : Type} (empty : Meta)
           (query_embedding : list R)
           (text_embeddings : list (TextItem Meta)) (threshold : R)
  : list (SimilarText Meta) :=
  flat_map
    (fun item =>
       let s := cosine_value query_embedding (item_embedding item) in
       if Rgeb s threshold
       then [{| similar_text :=
                  match item_text item with
                  | Some t => t
                  | None => ""%string
                  end;
                similar_metadata :=
                  match item_metadata item with
                  | Some m => m
                  | None => empty
                  end;
                similarity := s |}]
       else [])
    text_embeddings.

(** Larger similarities first. *)
Definition more_similar {Meta : Type} (a b : SimilarText Meta) : Prop :=
  (similarity a >= similarity b)%R.

(* ================================================================== *)
(** ** The cosine similarity on binary64 numbers *)

(** [_cosine_similarity] once more, on the IEEE 754 binary64 numbers the
    source computes with.  Reals and floats part ways where the squares of
    the entries underflow or overflow. *)
Module Binary64.

(** The sum of products behind [np.dot] on two 1-D arrays, accumulated from
    the left.  (The order in which the library adds the products is its
    own; it plays no part for vectors of one entry.) *)
Definition inner (a b : list float) : float :=
  fold_left (fun acc p => PrimFloat.add acc (PrimFloat.mul (fst p) (snd p)))
            (combine a b) 0%float.

(** [np.dot(a, b)]. *)
Definition dot (a b : list float) : result float :=
  if Nat.eqb (length a) (length b)
  then Ok (inner a b)
  else Raise ValueError.

(** [np.linalg.norm(v)] on a 1-D array: the square root of [dot(v, v)]. *)
Definition norm (v : list float) : float := PrimFloat.sqrt (inner v v).

(** [np.clip(x, lo, hi)], that is [minimum(maximum(x, lo), hi)]: a NaN [x]
    stays a NaN. *)
Definition clip (x lo hi : float) : float :=
  if PrimFloat.is_nan x then x
  else
    let m := if PrimFloat.ltb x lo then lo else x in
    if PrimFloat.ltb hi m then hi else m.

Definition _cosine_similarity (vec1 vec2 : list float) : result float :=
  dot_product <- dot vec1 vec2 ;;
  let norm1 := norm vec1 in
  let norm2 := norm vec2 in
  if PrimFloat.eqb norm1 0 || PrimFloat.eqb norm2 0 then Ok 0%float
  else
    let similarity :=
      PrimFloat.div dot_product (PrimFloat.mul norm1 norm2) in
    Ok (clip similarity (-1) 1).

(** A float that is a NaN or lies in [lo, hi]. *)
Definition nan_or_within (lo hi r : float) : Prop :=
  PrimFloat.is_nan r = true
  \/ (PrimFloat.leb lo r && PrimFloat.leb r hi = true).

End Binary64.

(** A vector of reals whose norm lies between 2^-500 and 2^500: computed in
    binary64 (exponents from -1022 to 1023), the squares of its entries do
    not overflow, its squared norm does not underflow, and neither does a
    product of two such norms. *)
Definition well_scaled (v : Np.vec) : Prop :=
  (/ 2 ^ 500 <= Np.norm v <= 2 ^ 500)%R.

(* ================================================================== *)
(** ** Basic facts about the error monad and the helpers *)

Lemma bind_Ok_inv (A B : Type) (m : result A) (k : A -> result B) (b : B) :
  bind m k = Ok b -> exists a, m = Ok a /\ k a = Ok b.
Proof.
  destruct m as [a | e]; simpl; intros H.
  - exists a; split; [reflexivity | exact H].
  - discriminate H.
Qed.

Lemma array_Ok_inv (rows : list (list R)) (m : Np.ndarray) :
  Np.array rows = Ok m -> m = rows /\ Np.rectangular rows = true.
Proof.
  unfold Np.array. destruct (Np.rectangular rows); intros H.
  - injection H as <-. split; reflexivity.
  - discriminate H.
Qed.

Lemma array_singleton (v : list R) : Np.array [v] = Ok [v].
Proof.
  unfold Np.array, Np.rectangular, Np.shape1; simpl.
  rewrite Nat.eqb_refl. reflexivity.
Qed.

Lemma Rgtb_true (a b : R) : Rgtb a b = true <-> (b < a)%R.
Proof.
  unfold Rgtb. destruct (Rlt_dec b a); split; intros; try assumption;
    try reflexivity; try discriminate; contradiction.
Qed.

Lemma Rgtb_false (a b : R) : Rgtb a b = false <-> (a <= b)%R.
Proof.
  unfold Rgtb. destruct (Rlt_dec b a); split; intros; try reflexivity;
    try discriminate; lra.
Qed.

Lemma Rgeb_true (a b : R) : Rgeb a b = true <-> (a >= b)%R.
Proof.
  unfold Rgeb. destruct (Rge_dec a b); split; intros; try assumption;
    try reflexivity; try discriminate; contradiction.
Qed.

Lemma Reqb_true (a b : R) : Reqb a b = true <-> a = b.
Proof.
  unfold Reqb. destruct (Req_dec_T a b); split; intros; try assumption;
    try reflexivity; try discriminate; contradiction.
Qed.

Lemma Reqb_false (a b : R) : Reqb a b = false <-> a <> b.
Proof.
  unfold Reqb. destruct (Req_dec_T a b); split; intros; try assumption;
    try reflexivity; try discriminate; contradiction.
Qed.

(* ================================================================== *)
(** ** A single document is placed at the origin *)

Lemma project_single (self : SpatialOrganizer) (rt : Runtime)
      (method : string) (v : Np.vec) :
  project_by_method self rt method [v] = Ok (Np.zeros 1 3).
Proof.
  assert (Hpca : _pca_positions self rt [v] = Ok (Np.zeros 1 3))
    by reflexivity.
  unfold project_by_method.
  destruct (String.eqb method "pca"); [exact Hpca |].
  destruct (String.eqb method "tsne").
  { unfold _tsne_positions. rewrite Hpca.
    destruct (tsne_importable rt); reflexivity. }
  destruct (String.eqb method "umap"); [| exact Hpca].
  unfold _umap_positions. rewrite Hpca.
  destruct (umap_importable rt); reflexivity.
Qed.

Lemma normalize_zeros_1_3 :
  _normalize_positions (Np.zeros 1 3) = Ok (Np.zeros 1 3).
Proof.
  assert (Hc : Np.sub_rows (Np.zeros 1 3) (Np.mean_axis0 (Np.zeros 1 3))
               = Np.zeros 1 3).
  { unfold Np.sub_rows, Np.sub_row, Np.mean_axis0, Np.mean, Np.column,
      Np.zeros, Np.sum, Np.shape1; simpl.
    repeat f_equal; lra. }
  unfold _normalize_positions.
  change (Nat.eqb (Np.size (Np.zeros 1 3)) 0) with false.
  cbv iota. rewrite Hc.
  assert (Hn : Np.norm_axis1 (Np.zeros 1 3) = [0%R]).
  { unfold Np.norm_axis1, Np.norm, Np.zeros, Np.sum; simpl.
    replace (0 * 0 + (0 * 0 + (0 * 0 + 0)))%R with 0%R by lra.
    rewrite sqrt_0. reflexivity. }
  rewrite Hn. simpl.
  replace (Rgtb 0 0) with false; [reflexivity |].
  symmetry. apply Rgtb_false. lra.
Qed.

Lemma calculate_single (self : SpatialOrganizer) (rt : Runtime)
      (v : list R) (method : string) :
  calculate_3d_positions self rt [v] method = Ok [origin].
Proof.
  unfold calculate_3d_positions.
  rewrite array_singleton. cbn [bind].
  rewrite project_single. cbn [bind].
  rewrite normalize_zeros_1_3. reflexivity.
Qed.

(** C9. Projecting no embedding gives no position, and projecting exactly
    one embedding gives the single position (0,0,0), whatever the method
    string, the organizer and the runtime are. *)
Theorem project_empty_and_single :
  forall (self : SpatialOrganizer) (rt : Runtime) (method : string),
    calculate_3d_positions self rt [] method = Ok []
    /\ forall v : list R,
         calculate_3d_positions self rt [v] method = Ok [origin].
Proof.
  intros self rt method. split.
  - reflexivity.
  - intros v. apply calculate_single.
Qed.

(* ================================================================== *)
(** ** Shapes of arrays *)


Lemma has_shape_shape1 (m : Np.ndarray) (r c : nat) :
  has_shape m r c -> (0 < r)%nat -> Np.shape1 m = c.
Proof.
  intros [Hlen Hall] Hr. unfold Np.shape1.
  destruct m as [| row m']; simpl in *; [lia |].
  inversion Hall; assumption.
Qed.

Lemma has_shape_zeros (r c : nat) : has_shape (Np.zeros r c) r c.
Proof.
  unfold has_shape, Np.zeros. split.
  - apply repeat_length.
  - apply Forall_forall. intros row Hin.
    apply repeat_spec in Hin. subst row. apply repeat_length.
Qed.

Lemma has_shape_hstack (a b : Np.ndarray) (r c1 c2 : nat) :
  has_shape a r c1 -> has_shape b r c2 ->
  has_shape (Np.hstack a b) r (c1 + c2).
Proof.
  intros [Hla Ha] [Hlb Hb]. unfold has_shape, Np.hstack. split.
  - rewrite length_map, length_combine. lia.
  - apply Forall_forall. intros row Hin.
    apply in_map_iff in Hin. destruct Hin as [[u v] [<- Hin]].
    simpl. rewrite length_app.
    pose proof (in_combine_l _ _ _ _ Hin) as Hu.
    pose proof (in_combine_r _ _ _ _ Hin) as Hv.
    rewrite Forall_forall in Ha, Hb.
    rewrite (Ha _ Hu), (Hb _ Hv). reflexivity.
Qed.

Lemma pca_positions_shape (self : SpatialOrganizer) (rt : Runtime)
      (X P : Np.ndarray) :
  sklearn_contract rt -> (n_components self <= 3)%nat -> X <> [] ->
  _pca_positions self rt X = Ok P -> has_shape P (length X) 3.
Proof.
  intros C Hk Hne. unfold _pca_positions, Np.shape0.
  destruct (Nat.eqb (length X) 1) eqn:H1.
  - apply Nat.eqb_eq in H1. intros H. injection H as <-.
    rewrite H1. apply has_shape_zeros.
  - intros H.
    apply bind_Ok_inv in H. destruct H as [S [HS H]].
    apply bind_Ok_inv in H. destruct H as [Y [HY H]].
    injection H as <-.
    apply (pca_shape C) in HY. apply (scaler_shape C) in HS.
    rewrite HS in HY.
    assert (Hpos : (0 < length X)%nat)
      by (destruct X; [contradiction | simpl; lia]).
    set (k := Nat.min (n_components self)
                (Nat.min (length X) (Np.shape1 X))) in *.
    assert (Hk3 : (k <= 3)%nat) by (unfold k; lia).
    rewrite (has_shape_shape1 HY Hpos).
    destruct (Nat.ltb k 3) eqn:Hlt.
    + apply Nat.ltb_lt in Hlt.
      assert (Hpad : has_shape (Np.zeros (Np.shape0 Y) (3 - k))
                       (length X) (3 - k)).
      { destruct HY as [HlY _]. unfold Np.shape0. rewrite HlY.
        apply has_shape_zeros. }
      pose proof (has_shape_hstack HY Hpad) as Hst.
      replace (k + (3 - k))%nat with 3%nat in Hst by lia. exact Hst.
    + apply Nat.ltb_ge in Hlt.
      replace 3%nat with k by lia. exact HY.
Qed.

Lemma try_import_shape (rt : Runtime) (avail : bool)
      (fit : nat -> Np.ndarray -> result Np.ndarray) (cap : nat)
      (fallback : result Np.ndarray) (X P : Np.ndarray) :
  (forall p Y, fit p X = Ok Y -> has_shape Y (length X) 3) ->
  (fallback = Ok P -> has_shape P (length X) 3) ->
  try_except_ImportError
    (import avail ;;;
     let n_samples := Np.shape0 X in
     if Nat.eqb n_samples 1 then Ok (Np.zeros 1 3)
     else fit (Nat.min cap (n_samples - 1)) X)
    fallback = Ok P ->
  has_shape P (length X) 3.
Proof.
  intros Hfit Hfb. unfold try_except_ImportError, import, Np.shape0.
  destruct avail; simpl.
  - destruct (Nat.eqb (length X) 1) eqn:H1.
    + apply Nat.eqb_eq in H1. intros H. injection H as <-.
      rewrite H1. apply has_shape_zeros.
    + destruct (fit (Nat.min cap (length X - 1)) X) as [Y | e] eqn:HY.
      * intros H. injection H as <-. eapply Hfit; eassumption.
      * destruct e; try discriminate. exact Hfb.
  - exact Hfb.
Qed.

Lemma project_by_method_shape (self : SpatialOrganizer) (rt : Runtime)
      (method : string) (X P : Np.ndarray) :
  sklearn_contract rt -> (n_components self <= 3)%nat -> X <> [] ->
  project_by_method self rt method X = Ok P -> has_shape P (length X) 3.
Proof.
  intros C Hk Hne. unfold project_by_method.
  pose proof (@pca_positions_shape self rt X P C Hk Hne) as Hpca.
  destruct (String.eqb method "pca"); [exact Hpca |].
  destruct (String.eqb method "tsne").
  { unfold _tsne_positions.
    apply (@try_import_shape rt (tsne_importable rt)
             (tsne_fit_transform rt) 30); [| exact Hpca].
    intros p Y. apply (tsne_shape C). }
  destruct (String.eqb method "umap"); [| exact Hpca].
  unfold _umap_positions.
  apply (@try_import_shape rt (umap_importable rt)
           (umap_fit_transform rt) 15); [| exact Hpca].
  intros p Y. apply (umap_shape C).
Qed.

(* ================================================================== *)
(** ** Centring and scaling, on rows of three coordinates *)

Section Normalization.

Local Open Scope R_scope.


Lemma rows_of_shape3 (m : Np.ndarray) (n : nat) :
  has_shape m n 3 ->
  exists ps, m = map of_position ps /\ length ps = n.
Proof.
  intros [Hlen Hall]. revert n Hlen.
  induction Hall as [| row m' Hrow Hall IH]; intros n Hlen.
  - exists []. split; [reflexivity | exact Hlen].
  - destruct (IH (length m') eq_refl) as [ps [Hm Hps]]. subst m'.
    destruct row as [| a [| b [| c [| d row']]]]; try discriminate Hrow.
    exists ({| x := a; y := b; z := c |} :: ps). split.
    + reflexivity.
    + rewrite <- Hlen. cbn [length]. rewrite length_map. reflexivity.
Qed.

Lemma column_of_positions (ps : list Position) :
  Np.column 0 (map of_position ps) = map x ps
  /\ Np.column 1 (map of_position ps) = map y ps
  /\ Np.column 2 (map of_position ps) = map z ps.
Proof.
  unfold Np.column. rewrite !map_map. repeat split; reflexivity.
Qed.

Lemma mean_axis0_of_positions (ps : list Position) :
  ps <> [] ->
  Np.mean_axis0 (map of_position ps) = of_position (centroid ps).
Proof.
  intros Hne. destruct ps as [| p ps']; [contradiction |].
  unfold Np.mean_axis0.
  change (Np.shape1 (map of_position (p :: ps'))) with 3%nat.
  destruct (column_of_positions (p :: ps')) as [H0 [H1 H2]].
  cbn [seq map] in *. cbn [map]. rewrite H0, H1, H2. reflexivity.
Qed.

Lemma sub_rows_of_positions (ps : list Position) (mu : Position) :
  Np.sub_rows (map of_position ps) (of_position mu)
  = map of_position (map (psub mu) ps).
Proof.
  unfold Np.sub_rows. rewrite !map_map. reflexivity.
Qed.

Lemma scale_of_positions (ps : list Position) (c : R) :
  Np.scale (map of_position ps) c = map of_position (map (pscale c) ps).
Proof.
  unfold Np.scale. rewrite !map_map. reflexivity.
Qed.

Lemma norm_of_position (p : Position) :
  Np.norm (of_position p) = distance_from_origin p.
Proof.
  unfold Np.norm, distance_from_origin, of_position, Np.sum; simpl.
  f_equal. ring.
Qed.

Lemma norm_axis1_of_positions (ps : list Position) :
  Np.norm_axis1 (map of_position ps) = map distance_from_origin ps.
Proof.
  unfold Np.norm_axis1. rewrite map_map.
  apply map_ext. exact norm_of_position.
Qed.

Lemma to_position_of_position (ps : list Position) :
  map_m to_position (map of_position ps) = Ok ps.
Proof.
  induction ps as [| p ps' IH]; [reflexivity |].
  cbn [map map_m]. rewrite IH. destruct p; reflexivity.
Qed.













End Normalization.

(** [_normalize_positions] on an array of N >= 1 rows of three coordinates:
    the rows are centred, then scaled by [10 / max_dist] when that distance
    is positive. *)
Lemma normalize_of_positions (ps0 : list Position) :
  ps0 <> [] ->
  exists d : R,
    max_centred_distance (map of_position ps0) = Ok d
    /\ _normalize_positions (map of_position ps0)
       = Ok (map of_position
               (if Rgtb d 0
                then map (pscale (10 / d)) (map (psub (centroid ps0)) ps0)
                else map (psub (centroid ps0)) ps0)).
Proof.
  intros Hne. unfold _normalize_positions, max_centred_distance.
  assert (Hsize : Nat.eqb (Np.size (map of_position ps0)) 0 = false).
  { destruct ps0 as [| p ps']; [contradiction | reflexivity]. }
  rewrite Hsize, (mean_axis0_of_positions Hne), sub_rows_of_positions,
    norm_axis1_of_positions.
  destruct (Np.max (map distance_from_origin
                      (map (psub (centroid ps0)) ps0))) as [d | e] eqn:Hmax.
  - exists d. split; [reflexivity |]. cbn [bind].
    destruct (Rgtb d 0); [rewrite scale_of_positions |]; reflexivity.
  - destruct ps0; [contradiction | discriminate Hmax].
Qed.






(* ================================================================== *)
(** ** The toy runtime meets the contract; two concrete runs *)

Lemma toy_runtime_contract (h t u : bool)
      (tsne : Np.ndarray -> result Np.ndarray) (inertia : nat -> result R) :
  (forall X Y, tsne X = Ok Y -> has_shape Y (length X) 3) ->
  sklearn_contract (toy_runtime h t u tsne inertia).
Proof.
  intros Htsne. constructor; cbn [toy_runtime scaler_fit_transform
    pca_fit_transform tsne_fit_transform umap_fit_transform
    kmeans_fit_predict hdbscan_fit_predict dbscan_fit_predict].
  - intros X Y H. injection H as <-. reflexivity.
  - intros k X Y H. injection H as <-. split.
    + apply length_map.
    + apply Forall_forall. intros row Hin.
      apply in_map_iff in Hin. destruct Hin as [r [<- _]].
      rewrite length_firstn, length_app, repeat_length. lia.
  - intros _ X Y. apply Htsne.
  - intros _ X Y H. injection H as <-. split.
    + apply length_map.
    + apply Forall_forall. intros row Hin.
      apply in_map_iff in Hin. destruct Hin as [r [<- _]]. reflexivity.
  - intros _ X L H. injection H as <-. apply length_map.
  - intros _ X L H. injection H as <-. apply length_map.
  - intros _ _ X L H. injection H as <-. apply length_map.
Qed.

Lemma tsne_zero_shape (X Y : Np.ndarray) :
  tsne_zero X = Ok Y -> has_shape Y (length X) 3.
Proof.
  unfold tsne_zero. intros H. injection H as <-. split.
  - apply length_map.
  - apply Forall_forall. intros row Hin.
    apply in_map_iff in Hin. destruct Hin as [r [<- _]]. reflexivity.
Qed.

Lemma tsne_raises_shape (X Y : Np.ndarray) :
  tsne_raises X = Ok Y -> has_shape Y (length X) 3.
Proof. unfold tsne_raises. discriminate. Qed.

(** What [calculate_3d_positions] returns once the projection is known. *)
Lemma calculate_of_projection (self : SpatialOrganizer) (rt : Runtime)
      (E : list (list R)) (method : string) (ps0 : list Position) (d : R) :
  E <> [] -> ps0 <> [] ->
  Np.rectangular E = true ->
  project_by_method self rt method E = Ok (map of_position ps0) ->
  Np.max (map distance_from_origin (map (psub (centroid ps0)) ps0)) = Ok d ->
  calculate_3d_positions self rt E method
  = Ok (if Rgtb d 0
        then map (pscale (10 / d)) (map (psub (centroid ps0)) ps0)
        else map (psub (centroid ps0)) ps0).
Proof.
  intros HE Hne Hrect HP Hmax. unfold calculate_3d_positions.
  destruct E as [| e E']; [contradiction |].
  unfold Np.array. rewrite Hrect. cbn [bind]. rewrite HP. cbn [bind].
  destruct (normalize_of_positions Hne) as [d' [Hd' Hnorm]].
  unfold max_centred_distance in Hd'.
  rewrite (mean_axis0_of_positions Hne), sub_rows_of_positions,
    norm_axis1_of_positions, Hmax in Hd'.
  injection Hd' as <-.
  rewrite Hnorm. cbn [bind]. apply to_position_of_position.
Qed.

Lemma two_projected_centred :
  map (psub (centroid two_projected)) two_projected = two_projected.
Proof.
  assert (Hc : centroid two_projected = origin).
  { unfold centroid, origin, Np.mean, Np.sum; simpl. f_equal; lra. }
  rewrite Hc. unfold two_projected, psub, origin; simpl.
  repeat f_equal; lra.
Qed.

Lemma two_projected_max :
  Np.max (map distance_from_origin
            (map (psub (centroid two_projected)) two_projected))
  = Ok 1%R.
Proof.
  assert (Hd1 : distance_from_origin {| x := 1; y := 0; z := 0 |} = 1%R).
  { unfold distance_from_origin; simpl.
    replace (1 * 1 + 0 * 0 + 0 * 0)%R with 1%R by lra. apply sqrt_1. }
  assert (Hd2 : distance_from_origin {| x := -1; y := 0; z := 0 |} = 1%R).
  { unfold distance_from_origin; simpl.
    replace (-1 * -1 + 0 * 0 + 0 * 0)%R with 1%R by lra. apply sqrt_1. }
  rewrite two_projected_centred. unfold two_projected. cbn [map].
  rewrite Hd1, Hd2. unfold Np.max. cbn [fold_left]. f_equal.
  unfold Rmax. destruct (Rle_dec 1 1); reflexivity.
Qed.



Lemma two_documents_pca (h t u : bool)
      (tsne : Np.ndarray -> result Np.ndarray) (inertia : nat -> result R) :
  calculate_3d_positions spatial_organizer (toy_runtime h t u tsne inertia)
    two_documents "pca"
  = Ok [ {| x := 10; y := 0; z := 0 |}; {| x := -10; y := 0; z := 0 |} ]%R.
Proof.
  rewrite (@calculate_of_projection spatial_organizer _ two_documents "pca"
             two_projected 1%R);
    try reflexivity; try discriminate; try exact two_projected_max.
  rewrite two_projected_centred.
  replace (Rgtb 1 0) with true by (symmetry; apply Rgtb_true; lra).
  unfold two_projected, pscale; simpl. repeat f_equal; lra.
Qed.


(* ================================================================== *)
(** ** Fallback of the nonlinear projections *)

Lemma calculate_congr (self : SpatialOrganizer) (rt : Runtime)
      (E : list (list R)) (m1 m2 : string) :
  (Np.array E = Ok E ->
   project_by_method self rt m1 E = project_by_method self rt m2 E) ->
  calculate_3d_positions self rt E m1 = calculate_3d_positions self rt E m2.
Proof.
  intros H. unfold calculate_3d_positions.
  destruct E as [| e E']; [reflexivity |].
  destruct (Np.array (e :: E')) as [A | err] eqn:HA; [| reflexivity].
  pose proof (array_Ok_inv _ HA) as [-> _].
  cbn [bind]. rewrite (H eq_refl). reflexivity.
Qed.

Lemma calculate_raises (self : SpatialOrganizer) (rt : Runtime)
      (E : list (list R)) (method : string) (e : exn) :
  E <> [] -> Np.array E = Ok E ->
  project_by_method self rt method E = Raise e ->
  calculate_3d_positions self rt E method = Raise e.
Proof.
  intros Hne HA HP. unfold calculate_3d_positions.
  destruct E as [| v E']; [contradiction |].
  rewrite HA. cbn [bind]. rewrite HP. reflexivity.
Qed.

Lemma tsne_positions_cases (self : SpatialOrganizer) (rt : Runtime)
      (X : Np.ndarray) :
  (tsne_importable rt = false ->
   _tsne_positions self rt X = _pca_positions self rt X)
  /\ (forall e, tsne_importable rt = true -> (2 <= length X)%nat ->
        tsne_fit_transform rt (Nat.min 30 (length X - 1)) X = Raise e ->
        _tsne_positions self rt X
        = match e with
          | ImportError => _pca_positions self rt X
          | _ => Raise e
          end).
Proof.
  unfold _tsne_positions, Np.shape0. split.
  - intros ->. reflexivity.
  - intros e -> Hlen Hfit. cbn [import bind].
    destruct (Nat.eqb (length X) 1) eqn:H1.
    + apply Nat.eqb_eq in H1. lia.
    + cbv zeta. rewrite Hfit. destruct e; reflexivity.
Qed.

Lemma umap_positions_cases (self : SpatialOrganizer) (rt : Runtime)
      (X : Np.ndarray) :
  (umap_importable rt = false ->
   _umap_positions self rt X = _pca_positions self rt X)
  /\ (forall e, umap_importable rt = true -> (2 <= length X)%nat ->
        umap_fit_transform rt (Nat.min 15 (length X - 1)) X = Raise e ->
        _umap_positions self rt X
        = match e with
          | ImportError => _pca_positions self rt X
          | _ => Raise e
          end).
Proof.
  unfold _umap_positions, Np.shape0. split.
  - intros ->. reflexivity.
  - intros e -> Hlen Hfit. cbn [import bind].
    destruct (Nat.eqb (length X) 1) eqn:H1.
    + apply Nat.eqb_eq in H1. lia.
    + cbv zeta. rewrite Hfit. destruct e; reflexivity.
Qed.

(** C5, as the code has it.  When TSNE (or UMAP) is requested and cannot be
    imported, or an [ImportError] is raised while it runs, the call returns
    exactly what the PCA path returns.  Any other exception raised by the
    algorithm on two or more well-formed embeddings reaches the caller. *)
Theorem fallback_on_import_error_only :
  forall (self : SpatialOrganizer) (rt : Runtime) (embeddings : list (list R)),
    (tsne_importable rt = false ->
     calculate_3d_positions self rt embeddings "tsne"
     = calculate_3d_positions self rt embeddings "pca")
    /\ (umap_importable rt = false ->
        calculate_3d_positions self rt embeddings "umap"
        = calculate_3d_positions self rt embeddings "pca")
    /\ (forall e : exn,
          tsne_importable rt = true ->
          Np.array embeddings = Ok embeddings ->
          (2 <= length embeddings)%nat ->
          tsne_fit_transform rt (Nat.min 30 (length embeddings - 1)) embeddings
          = Raise e ->
          calculate_3d_positions self rt embeddings "tsne"
          = match e with
            | ImportError => calculate_3d_positions self rt embeddings "pca"
            | _ => Raise e
            end)
    /\ (forall e : exn,
          umap_importable rt = true ->
          Np.array embeddings = Ok embeddings ->
          (2 <= length embeddings)%nat ->
          umap_fit_transform rt (Nat.min 15 (length embeddings - 1)) embeddings
          = Raise e ->
          calculate_3d_positions self rt embeddings "umap"
          = match e with
            | ImportError => calculate_3d_positions self rt embeddings "pca"
            | _ => Raise e
            end).
Proof.
  intros self rt E.
  assert (Hne : (2 <= length E)%nat -> E <> []).
  { intros H ->. simpl in H. lia. }
  repeat split.
  - intros Hno. apply calculate_congr. intros _.
    apply (proj1 (tsne_positions_cases self rt E) Hno).
  - intros Hno. apply calculate_congr. intros _.
    apply (proj1 (umap_positions_cases self rt E) Hno).
  - intros e Hyes HA Hlen Hfit.
    pose proof (proj2 (tsne_positions_cases self rt E) e Hyes Hlen Hfit) as H.
    destruct e;
      try (apply calculate_raises;
           [apply Hne; exact Hlen | exact HA | exact H]).
    apply calculate_congr. intros _. exact H.
  - intros e Hyes HA Hlen Hfit.
    pose proof (proj2 (umap_positions_cases self rt E) e Hyes Hlen Hfit) as H.
    destruct e;
      try (apply calculate_raises;
           [apply Hne; exact Hlen | exact HA | exact H]).
    apply calculate_congr. intros _. exact H.
Qed.

Lemma fallback_on_import_error_only_witness :
  calculate_3d_positions spatial_organizer
    (toy_runtime true false false tsne_zero inertia_zero) two_documents "tsne"
  = calculate_3d_positions spatial_organizer
      (toy_runtime true false false tsne_zero inertia_zero) two_documents "pca"
  /\ calculate_3d_positions spatial_organizer
       (toy_runtime true true false tsne_raises inertia_zero)
       two_documents "tsne"
     = Raise ValueError.
Proof.
  split.
  - apply (fallback_on_import_error_only spatial_organizer
             (toy_runtime true false false tsne_zero inertia_zero)
             two_documents).
    reflexivity.
  - apply (proj1 (proj2 (proj2
             (fallback_on_import_error_only spatial_organizer
                (toy_runtime true true false tsne_raises inertia_zero)
                two_documents))) ValueError); reflexivity.
Defined.

(** C5, as the claim has it, fails: a TSNE that is importable and whose
    [fit_transform] raises [ValueError] makes the call raise, although the
    PCA path on the same input returns positions. *)
Lemma tsne_failure_reaches_caller :
  tsne_fit_transform (toy_runtime true true false tsne_raises inertia_zero)
    (Nat.min 30 (length two_documents - 1)) two_documents
  = Raise ValueError
  /\ calculate_3d_positions spatial_organizer
       (toy_runtime true true false tsne_raises inertia_zero)
       two_documents "tsne"
     = Raise ValueError
  /\ calculate_3d_positions spatial_organizer
       (toy_runtime true true false tsne_raises inertia_zero)
       two_documents "pca"
     = Ok [ {| x := 10; y := 0; z := 0 |}; {| x := -10; y := 0; z := 0 |} ]%R.
Proof.
  split; [reflexivity |]. split.
  - reflexivity.
  - apply two_documents_pca.
Qed.

(* ================================================================== *)
(** ** Cluster labels *)

Lemma array_nonempty_shape0 (E A : list (list R)) :
  Np.array E = Ok A -> Np.shape0 A = length E.
Proof.
  intros H. apply array_Ok_inv in H. destruct H as [-> _]. reflexivity.
Qed.

(** The branch taken by [cluster_documents] on two or more well-formed
    embeddings. *)
Lemma cluster_documents_branches (rt : Runtime) (E : list (list R))
      (method : string) (n_clusters : option Z) :
  Np.array E = Ok E -> (2 <= length E)%nat ->
  cluster_documents rt E method n_clusters
  = if String.eqb method "kmeans" && truthy n_clusters then
      kmeans_fit_predict rt
        (Z.min (match n_clusters with Some k => k | None => 0%Z end)
               (Z.of_nat (length E))) E
    else if String.eqb method "hdbscan" && HAS_HDBSCAN rt then
      hdbscan_fit_predict rt (Nat.max 2 (length E / 10)) E
    else if HAS_HDBSCAN rt then Raise NameError
    else dbscan_fit_predict rt (5 / 10)%R 2 E.
Proof.
  intros HA Hlen. unfold cluster_documents.
  destruct E as [| v E']; [simpl in Hlen; lia |].
  rewrite HA. cbn [bind]. cbv zeta. unfold Np.shape0.
  match goal with
  | |- context [Nat.ltb ?n 2] =>
      replace (Nat.ltb n 2) with false
        by (symmetry; apply Nat.ltb_ge; exact Hlen)
  end.
  destruct (String.eqb method "kmeans" && truthy n_clusters);
    [reflexivity |].
  destruct (String.eqb method "hdbscan" && HAS_HDBSCAN rt);
    [reflexivity |].
  unfold DBSCAN. destruct (HAS_HDBSCAN rt); reflexivity.
Qed.

Lemma cluster_documents_small (rt : Runtime) (E : list (list R))
      (method : string) (n_clusters : option Z) :
  (length E < 2)%nat ->
  cluster_documents rt E method n_clusters = Ok (repeat 0%Z (length E)).
Proof.
  intros Hlen.
  destruct E as [| v [| w E']]; [reflexivity | | simpl in Hlen; lia].
  unfold cluster_documents. rewrite array_singleton. reflexivity.
Qed.

Lemma cluster_documents_length (rt : Runtime) (E : list (list R))
      (method : string) (n_clusters : option Z) (labels : list Z) :
  sklearn_contract rt ->
  cluster_documents rt E method n_clusters = Ok labels ->
  length labels = length E.
Proof.
  intros C H.
  destruct (Nat.lt_ge_cases (length E) 2) as [Hlt | Hge].
  - rewrite cluster_documents_small in H by exact Hlt.
    injection H as <-. apply repeat_length.
  - assert (HA : Np.array E = Ok E).
    { unfold cluster_documents in H.
      destruct E as [| v E']; [simpl in Hge; lia |].
      apply bind_Ok_inv in H. destruct H as [A [HA _]].
      pose proof (array_Ok_inv _ HA) as [-> _]. exact HA. }
    rewrite (cluster_documents_branches rt method n_clusters HA Hge) in H.
    destruct (String.eqb method "kmeans" && truthy n_clusters).
    { apply (kmeans_shape C) in H. exact H. }
    destruct (String.eqb method "hdbscan" && HAS_HDBSCAN rt).
    { apply (hdbscan_shape C) in H. exact H. }
    destruct (HAS_HDBSCAN rt); [discriminate H |].
    apply (dbscan_shape C) in H. exact H.
Qed.

(** X22. Whatever [cluster_documents] returns has one label per embedding;
    fewer than two embeddings are all labelled 0 (and the call returns);
    with method "kmeans" and a requested count above the number N >= 2 of
    embeddings, KMeans is run with N clusters.  On N >= 2 well-formed
    embeddings the call returns labels whenever the estimators do and the
    branch taken has its estimator bound (KMeans with a count, HDBSCAN as
    "hdbscan", or a runtime without HDBSCAN).  The estimators are assumed to
    return one label per sample. *)
Theorem cluster_labels_aligned :
  forall (rt : Runtime) (embeddings : list (list R)) (method : string)
         (n_clusters : option Z),
    sklearn_contract rt ->
    (forall labels : list Z,
        cluster_documents rt embeddings method n_clusters = Ok labels ->
        length labels = length embeddings)
    /\ ((length embeddings < 2)%nat ->
        cluster_documents rt embeddings method n_clusters
        = Ok (repeat 0%Z (length embeddings)))
    /\ (forall k : Z,
          n_clusters = Some k ->
          (Z.of_nat (length embeddings) < k)%Z ->
          (2 <= length embeddings)%nat ->
          Np.array embeddings = Ok embeddings ->
          cluster_documents rt embeddings "kmeans" n_clusters
          = kmeans_fit_predict rt (Z.of_nat (length embeddings)) embeddings)
    /\ ((2 <= length embeddings)%nat ->
        Np.array embeddings = Ok embeddings ->
        (forall k, exists L, kmeans_fit_predict rt k embeddings = Ok L) ->
        (forall m, exists L, hdbscan_fit_predict rt m embeddings = Ok L) ->
        (forall e m, exists L, dbscan_fit_predict rt e m embeddings = Ok L) ->
        (String.eqb method "kmeans" && truthy n_clusters = true
         \/ method = "hdbscan"%string
         \/ HAS_HDBSCAN rt = false) ->
        exists labels : list Z,
          cluster_documents rt embeddings method n_clusters = Ok labels
          /\ length labels = length embeddings).
Proof.
  intros rt E method n_clusters C. split; [| split; [| split]].
  - intros labels. apply cluster_documents_length. exact C.
  - apply cluster_documents_small.
  - intros k -> Hk Hlen HA.
    rewrite (cluster_documents_branches rt "kmeans" (Some k) HA Hlen).
    assert (Ht : truthy (Some k) = true).
    { unfold truthy. destruct (Z.eqb_spec k 0); [lia | reflexivity]. }
    rewrite Ht. cbn [String.eqb Ascii.eqb Bool.eqb andb].
    rewrite Z.min_r by lia. reflexivity.
  - intros Hlen HA Hk Hh Hd Hbranch.
    assert (Hret : exists labels,
               cluster_documents rt E method n_clusters = Ok labels).
    { rewrite (cluster_documents_branches rt method n_clusters HA Hlen).
      destruct (String.eqb method "kmeans" && truthy n_clusters) eqn:Hkm;
        [apply Hk |].
      destruct Hbranch as [Hb | [-> | Hno]].
      - discriminate Hb.
      - cbn [String.eqb Ascii.eqb Bool.eqb andb].
        destruct (HAS_HDBSCAN rt); [apply Hh | apply Hd].
      - rewrite Hno, andb_false_r. apply Hd. }
    destruct Hret as [labels Hret]. exists labels.
    split; [exact Hret |].
    apply (cluster_documents_length _ _ _ C Hret).
Qed.

Lemma cluster_labels_aligned_witness :
  length [0%Z; 0%Z] = length two_documents
  /\ cluster_documents (toy_runtime true false false tsne_zero inertia_zero)
       [[1; 0]]%R "kmeans" (Some 5%Z)
     = Ok [0%Z]
  /\ cluster_documents (toy_runtime true false false tsne_zero inertia_zero)
       two_documents "kmeans" (Some 5%Z)
     = kmeans_fit_predict
         (toy_runtime true false false tsne_zero inertia_zero)
         2%Z two_documents
  /\ exists labels : list Z,
       cluster_documents (toy_runtime true false false tsne_zero inertia_zero)
         two_documents "hdbscan" None
       = Ok labels
       /\ length labels = length two_documents.
Proof.
  pose proof (@toy_runtime_contract true false false tsne_zero inertia_zero
                tsne_zero_shape) as C.
  destruct (@cluster_labels_aligned
              (toy_runtime true false false tsne_zero inertia_zero)
              two_documents "kmeans" (Some 5%Z) C) as [Hlen [_ [Hclamp _]]].
  destruct (@cluster_labels_aligned
              (toy_runtime true false false tsne_zero inertia_zero)
              [[1; 0]]%R "kmeans" (Some 5%Z) C) as [_ [Hsmall _]].
  destruct (@cluster_labels_aligned
              (toy_runtime true false false tsne_zero inertia_zero)
              two_documents "hdbscan" None C) as [_ [_ [_ Hret]]].
  split; [| split; [| split]].
  - apply Hlen. reflexivity.
  - apply Hsmall. simpl. lia.
  - apply (Hclamp 5%Z).
    + reflexivity.
    + simpl. lia.
    + simpl. lia.
    + reflexivity.
  - apply Hret.
    + simpl. lia.
    + reflexivity.
    + intros k. eexists. reflexivity.
    + intros m. eexists. reflexivity.
    + intros e m. eexists. reflexivity.
    + right. left. reflexivity.
Defined.

(** C7. Where [cluster_documents] returns no label sequence: on two or
    more well-formed embeddings, with a method other than "hdbscan" and
    without both the method "kmeans" and a count, the branch commented
    "Fallback to DBSCAN" is taken.  In a runtime where HDBSCAN can be
    imported the name [DBSCAN] was never bound and the call raises
    [NameError]; only in a runtime without HDBSCAN does it run DBSCAN. *)
Theorem cluster_documents_unbound_dbscan :
  forall (rt : Runtime) (embeddings : list (list R)) (method : string)
         (n_clusters : option Z),
    (2 <= length embeddings)%nat ->
    Np.array embeddings = Ok embeddings ->
    String.eqb method "hdbscan" = false ->
    String.eqb method "kmeans" && truthy n_clusters = false ->
    cluster_documents rt embeddings method n_clusters
    = if HAS_HDBSCAN rt then Raise NameError
      else dbscan_fit_predict rt (5 / 10)%R 2 embeddings.
Proof.
  intros rt E method n_clusters Hlen HA Hh Hk.
  rewrite (cluster_documents_branches rt method n_clusters HA Hlen).
  rewrite Hk, Hh. reflexivity.
Qed.

Lemma cluster_documents_unbound_dbscan_witness :
  cluster_documents (toy_runtime true false false tsne_zero inertia_zero)
    two_documents "dbscan" None
  = Raise NameError.
Proof.
  apply (@cluster_documents_unbound_dbscan
           (toy_runtime true false false tsne_zero inertia_zero)
           two_documents "dbscan" None).
  - simpl. lia.
  - reflexivity.
  - reflexivity.
  - reflexivity.
Defined.

(** C10. With method "kmeans" and no cluster count, two documents and a
    runtime in which HDBSCAN can be imported, the call raises [NameError]:
    the DBSCAN branch is taken, but the name [DBSCAN] was never imported.
    In a runtime without HDBSCAN the same call runs DBSCAN with eps = 0.5
    and min_samples = 2 (here calling both samples noise). *)
Theorem kmeans_without_count_takes_dbscan_branch :
  cluster_documents (toy_runtime true false false tsne_zero inertia_zero)
    two_documents "kmeans" None
  = Raise NameError
  /\ cluster_documents (toy_runtime true false false tsne_zero inertia_zero)
       two_documents "kmeans" (Some 0%Z)
     = Raise NameError
  /\ cluster_documents (toy_runtime false false false tsne_zero inertia_zero)
       two_documents "kmeans" None
     = dbscan_fit_predict
         (toy_runtime false false false tsne_zero inertia_zero)
         (5 / 10)%R 2 two_documents
  /\ cluster_documents (toy_runtime false false false tsne_zero inertia_zero)
       two_documents "kmeans" None
     = Ok [(-1)%Z; (-1)%Z].
Proof.
  repeat split; reflexivity.
Qed.

(** The same, for every runtime and input: the branch taken when the count
    is absent depends on the runtime only. *)
Lemma kmeans_without_count (rt : Runtime) (E : list (list R))
      (n_clusters : option Z) :
  truthy n_clusters = false ->
  Np.array E = Ok E -> (2 <= length E)%nat ->
  cluster_documents rt E "kmeans" n_clusters
  = if HAS_HDBSCAN rt then Raise NameError
    else dbscan_fit_predict rt (5 / 10)%R 2 E.
Proof.
  intros Ht HA Hlen.
  rewrite (cluster_documents_branches rt "kmeans" n_clusters HA Hlen).
  rewrite Ht. reflexivity.
Qed.

(* ================================================================== *)
(** ** Cosine similarity *)

Section Cosine.

Local Open Scope R_scope.

Lemma dot_same_length (a b : Np.vec) :
  length a = length b -> Np.dot a b = Ok (inner a b).
Proof.
  intros H. unfold Np.dot. rewrite H, Nat.eqb_refl. reflexivity.
Qed.

Lemma cosine_same_length (a b : Np.vec) :
  length a = length b -> _cosine_similarity a b = Ok (cosine_value a b).
Proof.
  intros H. unfold _cosine_similarity, cosine_value.
  rewrite (dot_same_length _ _ H). cbn [bind]. cbv zeta.
  destruct (Reqb (Np.norm a) 0 || Reqb (Np.norm b) 0); reflexivity.
Qed.

Lemma cosine_Ok_inv (a b : Np.vec) (s : R) :
  _cosine_similarity a b = Ok s ->
  length a = length b /\ s = cosine_value a b.
Proof.
  intros H.
  assert (Hlen : length a = length b).
  { unfold _cosine_similarity, Np.dot in H.
    destruct (Nat.eqb (length a) (length b)) eqn:Heq.
    - apply Nat.eqb_eq in Heq. exact Heq.
    - discriminate H. }
  rewrite (cosine_same_length _ _ Hlen) in H. injection H as <-.
  split; [exact Hlen | reflexivity].
Qed.

Lemma clip_bounds (v lo hi : R) :
  lo <= hi -> lo <= Np.clip v lo hi <= hi.
Proof.
  intros H. unfold Np.clip, Rmin, Rmax.
  destruct (Rle_dec v lo); destruct (Rle_dec _ hi); lra.
Qed.

Lemma clip_inside (v lo hi : R) :
  lo <= v <= hi -> Np.clip v lo hi = v.
Proof.
  intros H. unfold Np.clip, Rmin, Rmax.
  destruct (Rle_dec v lo); destruct (Rle_dec _ hi); lra.
Qed.

Lemma cosine_value_bounds (a b : Np.vec) : -1 <= cosine_value a b <= 1.
Proof.
  unfold cosine_value.
  destruct (Reqb (Np.norm a) 0 || Reqb (Np.norm b) 0); [lra |].
  apply clip_bounds. lra.
Qed.

Lemma inner_self (v : Np.vec) :
  inner v v = Np.sum (map (fun c => c * c) v).
Proof.
  unfold inner. induction v as [| c v' IH]; [reflexivity |].
  cbn [combine map Np.sum fold_right fst snd].
  fold (Np.sum (map (fun p => fst p * snd p) (combine v' v'))).
  fold (Np.sum (map (fun c => c * c) v')).
  rewrite IH. reflexivity.
Qed.

Lemma sum_squares_nonneg (v : Np.vec) :
  0 <= Np.sum (map (fun c => c * c) v).
Proof.
  induction v as [| c v' IH]; [simpl; lra |].
  cbn [map Np.sum fold_right]. fold (Np.sum (map (fun c => c * c) v')).
  pose proof (Rle_0_sqr c) as Hc. unfold Rsqr in Hc. lra.
Qed.

Lemma sum_squares_pos (v : Np.vec) :
  nonzero v -> 0 < Np.sum (map (fun c => c * c) v).
Proof.
  intros [c [Hin Hc]]. induction v as [| d v' IH]; [contradiction |].
  cbn [map Np.sum fold_right]. fold (Np.sum (map (fun c => c * c) v')).
  pose proof (sum_squares_nonneg v') as Hv.
  pose proof (Rle_0_sqr d) as Hd. unfold Rsqr in Hd.
  destruct Hin as [-> | Hin].
  - assert (0 < c * c) by nra. lra.
  - specialize (IH Hin). lra.
Qed.

Lemma norm_nonzero (v : Np.vec) : nonzero v -> Np.norm v <> 0.
Proof.
  intros H. unfold Np.norm.
  pose proof (sqrt_lt_R0 _ (sum_squares_pos H)). lra.
Qed.

Lemma cosine_value_self (v : Np.vec) : nonzero v -> cosine_value v v = 1.
Proof.
  intros H. unfold cosine_value.
  pose proof (norm_nonzero H) as Hn.
  replace (Reqb (Np.norm v) 0) with false
    by (symmetry; apply Reqb_false; exact Hn).
  cbn [orb]. rewrite inner_self.
  assert (Hsq : Np.norm v * Np.norm v = Np.sum (map (fun c => c * c) v)).
  { unfold Np.norm. apply sqrt_sqrt. apply sum_squares_nonneg. }
  rewrite <- Hsq.
  replace (Np.norm v * Np.norm v / (Np.norm v * Np.norm v)) with 1
    by (field; exact Hn).
  apply clip_inside. lra.
Qed.

End Cosine.

(* ================================================================== *)
(** ** Cosine similarity on binary64 numbers *)

Lemma SFcompare_antisym (a b : spec_float) :
  SFcompare b a = option_map CompOpp (SFcompare a b).
Proof.
  destruct a as [sa | sa | | sa ma ea], b as [sb | sb | | sb mb eb];
    try reflexivity;
    try (destruct sa; reflexivity);
    try (destruct sb; reflexivity);
    try (destruct sa, sb; reflexivity).
  cbn [SFcompare option_map].
  destruct sa, sb; try reflexivity.
  - rewrite (Z.compare_antisym ea eb).
    destruct (ea ?= eb)%Z; cbn [CompOpp]; try reflexivity.
    change (PosDef.Pos.compare_cont Eq mb ma) with (Pos.compare mb ma).
    change (PosDef.Pos.compare_cont Eq ma mb) with (Pos.compare ma mb).
    rewrite (Pos.compare_antisym ma mb). reflexivity.
  - rewrite (Z.compare_antisym ea eb).
    destruct (ea ?= eb)%Z; cbn [CompOpp]; try reflexivity.
    change (PosDef.Pos.compare_cont Eq mb ma) with (Pos.compare mb ma).
    change (PosDef.Pos.compare_cont Eq ma mb) with (Pos.compare ma mb).
    rewrite (Pos.compare_antisym ma mb). reflexivity.
Qed.

Lemma SFcompare_defined (a b : spec_float) :
  SFeqb a a = true -> SFeqb b b = true ->
  exists c, SFcompare a b = Some c.
Proof.
  unfold SFeqb. intros Ha Hb.
  destruct a as [sa | sa | | sa ma ea]; try discriminate Ha;
    destruct b as [sb | sb | | sb mb eb]; try discriminate Hb;
    eexists; reflexivity.
Qed.

(** Two floats that are not NaN are comparable. *)
Lemma ltb_false_leb (u v : float) :
  PrimFloat.is_nan u = false -> PrimFloat.is_nan v = false ->
  PrimFloat.ltb u v = false -> PrimFloat.leb v u = true.
Proof.
  unfold PrimFloat.is_nan.
  rewrite !FloatAxioms.eqb_spec, FloatAxioms.ltb_spec, FloatAxioms.leb_spec.
  intros Hu Hv Hlt.
  apply negb_false_iff in Hu. apply negb_false_iff in Hv.
  destruct (SFcompare_defined _ _ Hu Hv) as [c Hc].
  unfold SFltb in Hlt. unfold SFleb.
  rewrite SFcompare_antisym, Hc. rewrite Hc in Hlt.
  destruct c; [reflexivity | discriminate Hlt | reflexivity].
Qed.

Lemma binary64_clip_range (v : float) :
  Binary64.nan_or_within (-1) 1 (Binary64.clip v (-1) 1).
Proof.
  unfold Binary64.nan_or_within, Binary64.clip.
  destruct (PrimFloat.is_nan v) eqn:Hnan; [left; exact Hnan |].
  right. destruct (PrimFloat.ltb v (-1)) eqn:Hlow.
  - reflexivity.
  - cbv zeta. destruct (PrimFloat.ltb 1 v) eqn:Hhigh.
    + reflexivity.
    + apply andb_true_iff. split.
      * apply ltb_false_leb; [exact Hnan | reflexivity | exact Hlow].
      * apply ltb_false_leb; [reflexivity | exact Hnan | exact Hhigh].
Qed.

Lemma binary64_cosine_value (f g : list float) :
  length f = length g ->
  Binary64.dot f g = Ok (Binary64.inner f g)
  /\ Binary64._cosine_similarity f g
     = Ok (if PrimFloat.eqb (Binary64.norm f) 0
              || PrimFloat.eqb (Binary64.norm g) 0
           then 0%float
           else Binary64.clip
                  (PrimFloat.div (Binary64.inner f g)
                     (PrimFloat.mul (Binary64.norm f) (Binary64.norm g)))
                  (-1) 1).
Proof.
  intros Hlen.
  assert (Hdot : Binary64.dot f g = Ok (Binary64.inner f g)).
  { unfold Binary64.dot. rewrite Hlen, Nat.eqb_refl. reflexivity. }
  split; [exact Hdot |].
  unfold Binary64._cosine_similarity. rewrite Hdot. cbn [bind]. cbv zeta.
  destruct (PrimFloat.eqb (Binary64.norm f) 0
            || PrimFloat.eqb (Binary64.norm g) 0); reflexivity.
Qed.

(* ================================================================== *)
(** ** Vectors whose norm is far from the ends of the binary64 range *)

Lemma well_scaled_norm (v : Np.vec) : well_scaled v -> Np.norm v <> 0%R.
Proof.
  intros [Hlow _].
  assert (Hpos : (0 < / 2 ^ 500)%R).
  { apply Rinv_0_lt_compat. apply pow_lt. lra. }
  lra.
Qed.

Lemma well_scaled_between (v : Np.vec) :
  (1 <= Np.norm v <= 16)%R -> well_scaled v.
Proof.
  intros [Hlow Hhigh].
  assert (Hone : (1 <= 2 ^ 500)%R) by (apply pow_R1_Rle; lra).
  assert (Hbig : (2 ^ 4 <= 2 ^ 500)%R) by (apply Rle_pow; [lra | lia]).
  assert (Hinv : (/ 2 ^ 500 <= 1)%R).
  { rewrite <- Rinv_1. apply Rinv_le_contravar; lra. }
  split; [lra |].
  replace (2 ^ 4)%R with 16%R in Hbig by (simpl; lra). lra.
Qed.

Lemma cosine_value_same (v : Np.vec) :
  Np.norm v <> 0%R -> cosine_value v v = 1%R.
Proof.
  intros Hn. unfold cosine_value.
  replace (Reqb (Np.norm v) 0) with false
    by (symmetry; apply Reqb_false; exact Hn).
  cbn [orb]. rewrite inner_self.
  assert (Hsq : (Np.norm v * Np.norm v
                 = Np.sum (map (fun c => c * c) v))%R).
  { unfold Np.norm. apply sqrt_sqrt. apply sum_squares_nonneg. }
  rewrite <- Hsq.
  replace (Np.norm v * Np.norm v / (Np.norm v * Np.norm v))%R with 1%R
    by (field; exact Hn).
  apply clip_inside. lra.
Qed.

Lemma norm_3_4 : Np.norm [3; 4]%R = 5%R.
Proof.
  unfold Np.norm, Np.sum; simpl.
  replace (3 * 3 + (4 * 4 + 0))%R with (5 * 5)%R by lra.
  apply sqrt_square. lra.
Qed.

Lemma norm_4_3 : Np.norm [4; 3]%R = 5%R.
Proof.
  unfold Np.norm, Np.sum; simpl.
  replace (4 * 4 + (3 * 3 + 0))%R with (5 * 5)%R by lra.
  apply sqrt_square. lra.
Qed.

Lemma well_scaled_3_4 : well_scaled [3; 4]%R.
Proof. apply well_scaled_between. rewrite norm_3_4. lra. Qed.

Lemma well_scaled_4_3 : well_scaled [4; 3]%R.
Proof. apply well_scaled_between. rewrite norm_4_3. lra. Qed.

(** C2. On two vectors of one length [_cosine_similarity] returns without
    raising.  Computed on binary64 numbers, it returns 0.0 when a computed
    norm is zero and otherwise the dot product divided by the product of
    the norms, clamped: a NaN or a number in [-1, 1].  In exact arithmetic
    it returns 0 when a norm is zero; on two vectors whose norms lie
    between 2^-500 and 2^500 it returns the cosine clamped into [-1, 1];
    and on such a vector and itself it returns 1. *)
Theorem cosine_similarity_contract :
  forall (f g : list float) (a b : Np.vec),
    length f = length g ->
    length a = length b ->
    (exists d r : float,
        Binary64.dot f g = Ok d
        /\ Binary64._cosine_similarity f g = Ok r
        /\ (PrimFloat.eqb (Binary64.norm f) 0
            || PrimFloat.eqb (Binary64.norm g) 0 = true ->
            r = 0%float)
        /\ (PrimFloat.eqb (Binary64.norm f) 0
            || PrimFloat.eqb (Binary64.norm g) 0 = false ->
            r = Binary64.clip
                  (PrimFloat.div d
                     (PrimFloat.mul (Binary64.norm f) (Binary64.norm g)))
                  (-1) 1)
        /\ Binary64.nan_or_within (-1) 1 r)
    /\ (Np.norm a = 0%R \/ Np.norm b = 0%R ->
        _cosine_similarity a b = Ok 0%R)
    /\ (well_scaled a -> well_scaled b ->
        exists d : R,
          Np.dot a b = Ok d
          /\ _cosine_similarity a b
             = Ok (Np.clip (d / (Np.norm a * Np.norm b))%R (-1) 1)
          /\ (-1 <= Np.clip (d / (Np.norm a * Np.norm b))%R (-1) 1 <= 1)%R)
    /\ (well_scaled a -> _cosine_similarity a a = Ok 1%R).
Proof.
  intros f g a b Hfg Hlen. split; [| split; [| split]].
  - destruct (binary64_cosine_value f g Hfg) as [Hdot Hcos].
    exists (Binary64.inner f g). eexists.
    split; [exact Hdot |]. split; [exact Hcos |].
    destruct (PrimFloat.eqb (Binary64.norm f) 0
              || PrimFloat.eqb (Binary64.norm g) 0).
    + split; [reflexivity |]. split; [discriminate |].
      right. reflexivity.
    + split; [discriminate |]. split; [reflexivity |].
      apply binary64_clip_range.
  - intros Hz. rewrite (cosine_same_length _ _ Hlen). unfold cosine_value.
    replace (Reqb (Np.norm a) 0 || Reqb (Np.norm b) 0) with true;
      [reflexivity |].
    symmetry. apply orb_true_iff.
    destruct Hz as [Hz | Hz]; [left | right]; apply Reqb_true; exact Hz.
  - intros Ha Hb. apply well_scaled_norm in Ha. apply well_scaled_norm in Hb.
    exists (inner a b). split.
    + apply dot_same_length. exact Hlen.
    + split.
      * rewrite (cosine_same_length _ _ Hlen). unfold cosine_value.
        replace (Reqb (Np.norm a) 0) with false
          by (symmetry; apply Reqb_false; exact Ha).
        replace (Reqb (Np.norm b) 0) with false
          by (symmetry; apply Reqb_false; exact Hb).
        reflexivity.
      * apply clip_bounds. lra.
  - intros Ha. rewrite (cosine_same_length a a eq_refl).
    rewrite (@cosine_value_same a (well_scaled_norm Ha)). reflexivity.
Qed.

Lemma cosine_similarity_contract_witness :
  (exists r : float,
      Binary64._cosine_similarity [3; 4]%float [4; 3]%float = Ok r
      /\ Binary64.nan_or_within (-1) 1 r)
  /\ _cosine_similarity [3; 4]%R [0; 0]%R = Ok 0%R
  /\ (exists d : R,
        Np.dot [3; 4]%R [4; 3]%R = Ok d
        /\ _cosine_similarity [3; 4]%R [4; 3]%R
           = Ok (Np.clip (d / (Np.norm [3; 4] * Np.norm [4; 3]))%R (-1) 1)
        /\ (-1 <= Np.clip (d / (Np.norm [3; 4] * Np.norm [4; 3]))%R (-1) 1
            <= 1)%R)
  /\ _cosine_similarity [3; 4]%R [3; 4]%R = Ok 1%R.
Proof.
  assert (H00 : Np.norm [0; 0]%R = 0%R).
  { unfold Np.norm, Np.sum; simpl.
    replace (0 * 0 + (0 * 0 + 0))%R with 0%R by lra. apply sqrt_0. }
  split; [| split; [| split]].
  - destruct (proj1 (cosine_similarity_contract
                       [3; 4]%float [4; 3]%float [3; 4]%R [4; 3]%R
                       eq_refl eq_refl))
      as [d [r [_ [Hr [_ [_ Hrange]]]]]].
    exists r. split; [exact Hr | exact Hrange].
  - apply (proj1 (proj2 (cosine_similarity_contract
                           [3; 4]%float [4; 3]%float [3; 4]%R [0; 0]%R
                           eq_refl eq_refl))).
    right. exact H00.
  - apply (proj1 (proj2 (proj2 (cosine_similarity_contract
                                  [3; 4]%float [4; 3]%float
                                  [3; 4]%R [4; 3]%R eq_refl eq_refl)))).
    + exact well_scaled_3_4.
    + exact well_scaled_4_3.
  - apply (proj2 (proj2 (proj2 (cosine_similarity_contract
                                  [3; 4]%float [4; 3]%float
                                  [3; 4]%R [3; 4]%R eq_refl eq_refl)))).
    exact well_scaled_3_4.
Defined.

(** A vector with the one entry 2^-600 is not zero, yet its square
    underflows: the computed norm is 0.0 and the similarity of the vector
    with itself is 0.0, not 1.0.  With the entry 2^600 the square
    overflows and the similarity is a NaN. *)
Lemma self_similarity_lost_to_underflow :
  PrimFloat.eqb 0x1p-600 0 = false
  /\ Binary64.norm [0x1p-600%float] = 0%float
  /\ Binary64._cosine_similarity [0x1p-600%float] [0x1p-600%float]
     = Ok 0%float
  /\ Binary64._cosine_similarity [0x1p600%float] [0x1p600%float]
     = Ok PrimFloat.nan.
Proof. repeat split; reflexivity. Qed.

(** In the middle of the range the floats agree with the reals: a vector
    and itself give 1.0.  Scaling a vector by 2^-600 is where they stop
    agreeing: the similarity of (1, 0) with itself drops from 1.0 to 0.0. *)
Lemma binary64_similarity_examples :
  Binary64._cosine_similarity [3; 4]%float [3; 4]%float = Ok 1%float
  /\ Binary64._cosine_similarity [1; 0]%float [1; 0]%float = Ok 1%float
  /\ Binary64._cosine_similarity
       (map (fun u => PrimFloat.mul u 0x1p-600) [1; 0]%float) [1; 0]%float
     = Ok 0%float.
Proof. repeat split; reflexivity. Qed.

(* ================================================================== *)
(** ** The connection graph *)

Lemma for_each_appends (A B : Type) (l : list A)
      (body : A -> list B -> result (list B)) (f : A -> list B) :
  (forall a, In a l -> forall s, body a s = Ok (s ++ f a)) ->
  forall s, for_each l body s = Ok (s ++ flat_map f l).
Proof.
  induction l as [| a l' IH]; intros H s.
  - simpl. rewrite app_nil_r. reflexivity.
  - cbn [for_each flat_map]. rewrite (H a (or_introl eq_refl)). cbn [bind].
    rewrite IH.
    + rewrite app_assoc. reflexivity.
    + intros a' Hin. apply H. right. exact Hin.
Qed.

Lemma flat_map_flat_map (A B C : Type) (g : B -> list C) (h : A -> list B)
      (l : list A) :
  flat_map g (flat_map h l) = flat_map (fun a => flat_map g (h a)) l.
Proof.
  induction l as [| a l' IH]; [reflexivity |].
  cbn [flat_map]. rewrite flat_map_app, IH. reflexivity.
Qed.

Lemma flat_map_map (A B C : Type) (g : B -> list C) (h : A -> B)
      (l : list A) :
  flat_map g (map h l) = flat_map (fun a => g (h a)) l.
Proof.
  induction l as [| a l' IH]; [reflexivity |].
  cbn [map flat_map]. rewrite IH. reflexivity.
Qed.

Lemma in_range (lo hi k : nat) : In k (range lo hi) <-> (lo <= k < hi)%nat.
Proof. unfold range. rewrite in_seq. lia. Qed.

Lemma in_index_pairs (n i j : nat) :
  In (i, j) (index_pairs n) <-> (i < j < n)%nat.
Proof.
  unfold index_pairs. rewrite in_flat_map. split.
  - intros [i' [Hi Hin]]. apply in_map_iff in Hin.
    destruct Hin as [j' [Heq Hj]]. injection Heq as -> ->.
    apply in_range in Hi. apply in_range in Hj. lia.
  - intros H. exists i. split.
    + apply in_range. lia.
    + apply in_map. apply in_range. lia.
Qed.

Lemma NoDup_map_pair (i : nat) (l : list nat) :
  NoDup l -> NoDup (map (pair i) l).
Proof.
  induction 1 as [| j l' Hnot Hl' IH]; [constructor |].
  cbn [map]. constructor; [| exact IH].
  intros Hin. apply in_map_iff in Hin. destruct Hin as [j' [Heq Hj']].
  injection Heq as ->. contradiction.
Qed.

Lemma NoDup_flat_map_pair (g : nat -> list nat) (l : list nat) :
  NoDup l -> (forall i, NoDup (g i)) ->
  NoDup (flat_map (fun i => map (pair i) (g i)) l).
Proof.
  intros Hl Hg. induction Hl as [| i l' Hnot Hl' IH]; [constructor |].
  cbn [flat_map]. apply NoDup_app.
  - apply NoDup_map_pair. apply Hg.
  - exact IH.
  - intros [i1 j1] Hin1 Hin2.
    apply in_map_iff in Hin1. destruct Hin1 as [j [Heq _]].
    injection Heq as <- <-.
    apply in_flat_map in Hin2. destruct Hin2 as [i2 [Hi2 Hin2]].
    apply in_map_iff in Hin2. destruct Hin2 as [j2 [Heq _]].
    injection Heq as -> _. contradiction.
Qed.

Lemma NoDup_index_pairs (n : nat) : NoDup (index_pairs n).
Proof.
  unfold index_pairs, range. apply NoDup_flat_map_pair.
  - apply seq_NoDup.
  - intros i. apply seq_NoDup.
Qed.

Lemma rectangular_rows (E : Np.ndarray) (i j : nat) :
  Np.rectangular E = true -> (i < length E)%nat -> (j < length E)%nat ->
  length (nth i E []) = length (nth j E []).
Proof.
  unfold Np.rectangular. rewrite forallb_forall. intros H Hi Hj.
  pose proof (H _ (nth_In E [] Hi)) as H1.
  pose proof (H _ (nth_In E [] Hj)) as H2.
  apply Nat.eqb_eq in H1. apply Nat.eqb_eq in H2. congruence.
Qed.

Lemma getitem_in_range (A : Type) (l : list A) (i : nat) (d : A) :
  (i < length l)%nat -> getitem l i = Ok (nth i l d).
Proof.
  intros H. unfold getitem. rewrite (nth_error_nth' l d H). reflexivity.
Qed.

(** The edges returned: one pass over [index_pairs], keeping the pairs whose
    similarity reaches the threshold. *)
Lemma connections_spec (E : list (list R)) (threshold : R) :
  Np.array E = Ok E ->
  _calculate_connections E threshold
  = Ok (flat_map (edge_of E threshold) (index_pairs (length E))).
Proof.
  intros HA. unfold _calculate_connections.
  destruct (Nat.ltb (length E) 2) eqn:Hlt.
  { apply Nat.ltb_lt in Hlt.
    destruct E as [| v [| w E']]; [reflexivity | reflexivity |].
    simpl in Hlt. lia. }
  rewrite HA. cbn [bind].
  pose proof (array_Ok_inv _ HA) as [_ Hrect].
  unfold index_pairs. rewrite flat_map_flat_map.
  rewrite (@for_each_appends _ _ (range 0 (length E)) _
             (fun i => flat_map (edge_of E threshold)
                         (map (pair i) (range (i + 1) (length E))))).
  { reflexivity. }
  intros i Hi conns. apply in_range in Hi.
  rewrite flat_map_map. apply for_each_appends.
  intros j Hj s. apply in_range in Hj.
  rewrite (@getitem_in_range _ E i []) by lia.
  rewrite (@getitem_in_range _ E j []) by lia.
  cbn [bind].
  rewrite cosine_same_length
    by (apply rectangular_rows; [exact Hrect | lia | lia]).
  cbn [bind]. unfold edge_of. cbn [fst snd].
  destruct (Rgeb _ threshold); [reflexivity |].
  rewrite app_nil_r. reflexivity.
Qed.

Lemma connections_array (E : list (list R)) (threshold : R)
      (edges : list Connection) :
  _calculate_connections E threshold = Ok edges ->
  Np.array E = Ok E.
Proof.
  unfold _calculate_connections.
  destruct (Nat.ltb (length E) 2) eqn:Hlt.
  - intros _. apply Nat.ltb_lt in Hlt.
    destruct E as [| v [| w E']].
    + reflexivity.
    + apply array_singleton.
    + simpl in Hlt. lia.
  - intros H. apply bind_Ok_inv in H. destruct H as [A [HA _]].
    pose proof (array_Ok_inv _ HA) as [-> _]. exact HA.
Qed.

Lemma in_edges (E : Np.ndarray) (threshold : R) (l : list (nat * nat))
      (e : Connection) :
  In e (flat_map (edge_of E threshold) l) <->
  In (ends e) l
  /\ strength e = cosine_value (nth (source e) E []) (nth (target e) E [])
  /\ (strength e >= threshold)%R.
Proof.
  rewrite in_flat_map. unfold edge_of, ends. split.
  - intros [[i j] [Hin He]]. cbn [fst snd] in He.
    destruct (Rgeb _ threshold) eqn:Hge; [| contradiction].
    destruct He as [<- | []]. cbn [source target strength].
    apply Rgeb_true in Hge. repeat split; assumption.
  - intros [Hin [Hs Hge]]. exists (source e, target e).
    split; [exact Hin |]. cbn [fst snd]. rewrite <- Hs.
    replace (Rgeb (strength e) threshold) with true
      by (symmetry; apply Rgeb_true; exact Hge).
    left. destruct e; reflexivity.
Qed.

Lemma ends_of_edges (E : Np.ndarray) (threshold : R) (l : list (nat * nat)) :
  map ends (flat_map (edge_of E threshold) l)
  = filter (fun ij => Rgeb (cosine_value (nth (fst ij) E [])
                                         (nth (snd ij) E [])) threshold) l.
Proof.
  induction l as [| [i j] l' IH]; [reflexivity |].
  cbn [flat_map filter]. rewrite map_app, IH. unfold edge_of at 1.
  cbn [fst snd]. destruct (Rgeb _ threshold); reflexivity.
Qed.

Lemma edge_characterisation (E : list (list R)) (threshold : R)
      (e : Connection) :
  Np.array E = Ok E ->
  In e (flat_map (edge_of E threshold) (index_pairs (length E))) <->
  (source e < target e < length E)%nat
  /\ exists vi vj : Np.vec,
       nth_error E (source e) = Some vi
       /\ nth_error E (target e) = Some vj
       /\ _cosine_similarity vi vj = Ok (strength e)
       /\ (strength e >= threshold)%R.
Proof.
  intros HA. pose proof (array_Ok_inv _ HA) as [_ Hrect].
  rewrite in_edges. unfold ends. rewrite in_index_pairs. split.
  - intros [Hij [Hs Hge]]. split; [exact Hij |].
    exists (nth (source e) E []), (nth (target e) E []).
    repeat split.
    + apply nth_error_nth'. lia.
    + apply nth_error_nth'. lia.
    + rewrite Hs. apply cosine_same_length.
      apply rectangular_rows; [exact Hrect | lia | lia].
    + exact Hge.
  - intros [Hij [vi [vj [Hi [Hj [Hcos Hge]]]]]].
    split; [exact Hij |]. split; [| exact Hge].
    rewrite (nth_error_nth E (source e) [] Hi).
    rewrite (nth_error_nth E (target e) [] Hj).
    apply (cosine_Ok_inv _ _ Hcos).
Qed.

Lemma edges_ordered (E : Np.ndarray) (threshold : R) (n : nat) :
  Forall (fun e => (source e < target e)%nat)
         (flat_map (edge_of E threshold) (index_pairs n)).
Proof.
  apply Forall_forall. intros e Hin. apply in_edges in Hin.
  destruct Hin as [Hin _]. unfold ends in Hin.
  apply in_index_pairs in Hin. lia.
Qed.

Lemma edges_NoDup_ends (E : Np.ndarray) (threshold : R) (n : nat) :
  NoDup (map ends (flat_map (edge_of E threshold) (index_pairs n))).
Proof.
  rewrite ends_of_edges. apply NoDup_filter. apply NoDup_index_pairs.
Qed.

Lemma unordered_ends_of_ordered (edges : list Connection) :
  Forall (fun e => (source e < target e)%nat) edges ->
  map unordered_ends edges = map ends edges.
Proof.
  intros H. apply map_ext_in. intros e Hin.
  rewrite Forall_forall in H. specialize (H e Hin).
  unfold unordered_ends, ends.
  rewrite Nat.min_l, Nat.max_r by lia. reflexivity.
Qed.

(** C3. [_calculate_connections] returns no edge for fewer than two
    embeddings.  On a well-formed matrix it returns edges such that an edge
    is in the result exactly when its ends are indices i < j < N of two rows
    whose cosine similarity is its strength and reaches the threshold; no
    two edges of the result have the same ends, in either order, and every
    edge has its source below its target. *)
Theorem build_connections_exact :
  forall (embeddings : list (list R)) (threshold : R),
    ((length embeddings < 2)%nat ->
     _calculate_connections embeddings threshold = Ok [])
    /\ (Np.array embeddings = Ok embeddings ->
        exists edges : list Connection,
          _calculate_connections embeddings threshold = Ok edges
          /\ (forall e : Connection,
                In e edges <->
                (source e < target e < length embeddings)%nat
                /\ exists vi vj : Np.vec,
                     nth_error embeddings (source e) = Some vi
                     /\ nth_error embeddings (target e) = Some vj
                     /\ _cosine_similarity vi vj = Ok (strength e)
                     /\ (strength e >= threshold)%R)
          /\ NoDup (map ends edges)
          /\ NoDup (map unordered_ends edges)
          /\ Forall (fun e => source e <> target e) edges).
Proof.
  intros E threshold. split.
  - intros Hlt. unfold _calculate_connections.
    replace (Nat.ltb (length E) 2) with true
      by (symmetry; apply Nat.ltb_lt; exact Hlt).
    reflexivity.
  - intros HA.
    exists (flat_map (edge_of E threshold) (index_pairs (length E))).
    split; [apply connections_spec; exact HA |].
    split; [intros e; apply edge_characterisation; exact HA |].
    pose proof (edges_ordered E threshold (length E)) as Hord.
    split; [apply edges_NoDup_ends |].
    split.
    + rewrite (unordered_ends_of_ordered Hord). apply edges_NoDup_ends.
    + apply Forall_forall. intros e Hin.
      rewrite Forall_forall in Hord. specialize (Hord e Hin). lia.
Qed.

Lemma build_connections_exact_witness :
  _calculate_connections [[1; 0]]%R (-1)%R = Ok []
  /\ exists edges : list Connection,
       _calculate_connections two_documents (-1)%R = Ok edges
       /\ (forall e : Connection,
             In e edges <->
             (source e < target e < length two_documents)%nat
             /\ exists vi vj : Np.vec,
                  nth_error two_documents (source e) = Some vi
                  /\ nth_error two_documents (target e) = Some vj
                  /\ _cosine_similarity vi vj = Ok (strength e)
                  /\ (strength e >= -1)%R)
       /\ NoDup (map ends edges)
       /\ NoDup (map unordered_ends edges)
       /\ Forall (fun e => source e <> target e) edges.
Proof.
  split.
  - apply (proj1 (build_connections_exact [[1; 0]]%R (-1)%R)).
    simpl. lia.
  - apply (proj2 (build_connections_exact two_documents (-1)%R)).
    reflexivity.
Defined.

Section Strength.

Local Open Scope R_scope.

Lemma cosine_value_clip (a b : Np.vec) :
  cosine_value a b = Np.clip (raw_cosine a b) (-1) 1.
Proof.
  unfold cosine_value, raw_cosine.
  destruct (Reqb (Np.norm a) 0 || Reqb (Np.norm b) 0); [| reflexivity].
  symmetry. apply clip_inside. lra.
Qed.

Lemma clip_unit_of_signed (v : R) :
  0 <= Np.clip v (-1) 1 -> Np.clip v 0 1 = Np.clip v (-1) 1.
Proof.
  unfold Np.clip, Rmin, Rmax.
  destruct (Rle_dec v (-1)); destruct (Rle_dec v 0);
    repeat match goal with
           | |- context [Rle_dec ?p ?q] => destruct (Rle_dec p q)
           end; lra.
Qed.

End Strength.

(** C6. With a threshold in [0, 1], every edge returned by
    [_calculate_connections] joins two rows of the input and carries as its
    strength their cosine (dot product over the product of the norms, 0 when
    a norm is zero) clamped into [0, 1]; the strength is neither negative
    nor above 1. *)
Theorem connection_strength_in_unit_interval :
  forall (embeddings : list (list R)) (threshold : R)
         (edges : list Connection),
    (0 <= threshold <= 1)%R ->
    _calculate_connections embeddings threshold = Ok edges ->
    Forall (fun e =>
              exists vi vj : Np.vec,
                nth_error embeddings (source e) = Some vi
                /\ nth_error embeddings (target e) = Some vj
                /\ _cosine_similarity vi vj = Ok (strength e)
                /\ strength e = Np.clip (raw_cosine vi vj) 0 1
                /\ (0 <= strength e <= 1)%R)
           edges.
Proof.
  intros E threshold edges Ht H.
  pose proof (connections_array _ _ H) as HA.
  rewrite (connections_spec threshold HA) in H. injection H as <-.
  apply Forall_forall. intros e Hin.
  apply (edge_characterisation threshold e HA) in Hin.
  destruct Hin as [_ [vi [vj [Hi [Hj [Hcos Hge]]]]]].
  exists vi, vj. repeat split; try assumption.
  - destruct (cosine_Ok_inv _ _ Hcos) as [_ Hs].
    rewrite Hs, cosine_value_clip. symmetry. apply clip_unit_of_signed.
    rewrite <- cosine_value_clip, <- Hs. lra.
  - lra.
  - destruct (cosine_Ok_inv _ _ Hcos) as [_ Hs].
    pose proof (cosine_value_bounds vi vj). lra.
Qed.

Lemma twin_documents_connection :
  _calculate_connections twin_documents (8 / 10)%R
  = Ok [{| source := 0; target := 1; strength := 1%R |}].
Proof.
  rewrite connections_spec by reflexivity.
  change (index_pairs (length twin_documents)) with [(0, 1)]%nat.
  cbn [flat_map]. unfold edge_of. cbn [fst snd twin_documents nth].
  assert (Hnz : nonzero [1; 0]%R).
  { exists 1%R. split; [left; reflexivity | lra]. }
  rewrite (cosine_value_self Hnz).
  replace (Rgeb 1 (8 / 10)) with true
    by (symmetry; apply Rgeb_true; lra).
  reflexivity.
Qed.

Lemma connection_strength_in_unit_interval_witness :
  Forall (fun e =>
            exists vi vj : Np.vec,
              nth_error twin_documents (source e) = Some vi
              /\ nth_error twin_documents (target e) = Some vj
              /\ _cosine_similarity vi vj = Ok (strength e)
              /\ strength e = Np.clip (raw_cosine vi vj) 0 1
              /\ (0 <= strength e <= 1)%R)
         [{| source := 0; target := 1; strength := 1%R |}].
Proof.
  apply (@connection_strength_in_unit_interval twin_documents (8 / 10)%R).
  - lra.
  - apply twin_documents_connection.
Defined.

(* ================================================================== *)
(** ** The elbow heuristic *)

Section Elbow.

Local Open Scope R_scope.

Lemma map_m_length (A B : Type) (f : A -> result B) (l : list A)
      (bs : list B) :
  map_m f l = Ok bs -> length bs = length l.
Proof.
  revert bs. induction l as [| a l' IH]; intros bs H.
  - injection H as <-. reflexivity.
  - cbn [map_m] in H.
    apply bind_Ok_inv in H. destruct H as [b [_ H]].
    apply bind_Ok_inv in H. destruct H as [bs' [Hbs' H]].
    injection H as <-. cbn [length]. rewrite (IH _ Hbs'). reflexivity.
Qed.

(** The invariant of the scan of [np.argmax]: [pre] has been read, [best]
    is its largest entry and [best_i] the first index holding it. *)
Lemma argmax_from_spec (xs pre : list R) (best : R) (best_i : nat) :
  (best_i < length pre)%nat ->
  nth best_i pre 0 = best ->
  (forall j, (j < length pre)%nat -> nth j pre 0 <= best) ->
  (forall j, (j < best_i)%nat -> nth j pre 0 < best) ->
  let r := Np.argmax_from best best_i (length pre) xs in
  (r < length (pre ++ xs))%nat
  /\ (forall j, (j < length (pre ++ xs))%nat ->
                nth j (pre ++ xs) 0 <= nth r (pre ++ xs) 0)
  /\ (forall j, (j < r)%nat -> nth j (pre ++ xs) 0 < nth r (pre ++ xs) 0).
Proof.
  revert pre best best_i.
  induction xs as [| c xs' IH]; intros pre best best_i Hi Hbest Hle Hlt.
  - cbn [Np.argmax_from]. rewrite app_nil_r. rewrite Hbest.
    repeat split; assumption.
  - cbn [Np.argmax_from].
    assert (Happ : pre ++ c :: xs' = (pre ++ [c]) ++ xs')
      by (rewrite <- app_assoc; reflexivity).
    assert (Hlen : length (pre ++ [c]) = S (length pre))
      by (rewrite length_app; simpl; lia).
    assert (Hold : forall j, (j < length pre)%nat ->
                             nth j (pre ++ [c]) 0 = nth j pre 0)
      by (intros j Hj; apply app_nth1; exact Hj).
    assert (Hnew : nth (length pre) (pre ++ [c]) 0 = c).
    { rewrite app_nth2 by lia. rewrite Nat.sub_diag. reflexivity. }
    rewrite Happ, <- Hlen.
    destruct (Rlt_dec best c) as [Hbc | Hbc].
    + apply IH.
      * lia.
      * exact Hnew.
      * intros j Hj. rewrite Hlen in Hj.
        destruct (Nat.eq_dec j (length pre)) as [-> | Hne].
        -- rewrite Hnew. lra.
        -- rewrite Hold by lia. specialize (Hle j ltac:(lia)). lra.
      * intros j Hj. rewrite Hold by lia.
        specialize (Hle j Hj). lra.
    + apply IH.
      * lia.
      * rewrite Hold by lia. exact Hbest.
      * intros j Hj. rewrite Hlen in Hj.
        destruct (Nat.eq_dec j (length pre)) as [-> | Hne].
        -- rewrite Hnew. lra.
        -- rewrite Hold by lia. apply Hle. lia.
      * intros j Hj. rewrite Hold by lia. apply Hlt. exact Hj.
Qed.

Lemma argmax_spec (v : Np.vec) :
  v <> [] ->
  exists i : nat,
    Np.argmax v = Ok i
    /\ (i < length v)%nat
    /\ (forall j, (j < length v)%nat -> nth j v 0 <= nth i v 0)
    /\ (forall j, (j < i)%nat -> nth j v 0 < nth i v 0).
Proof.
  intros Hne. destruct v as [| c xs]; [contradiction |].
  exists (Np.argmax_from c 0 1 xs). split; [reflexivity |].
  apply (@argmax_from_spec xs [c] c 0%nat).
  - simpl. lia.
  - reflexivity.
  - intros j Hj. simpl in Hj. replace j with 0%nat by lia. simpl. lra.
  - intros j Hj. lia.
Qed.

Lemma second_derivative_length (inertias : list R) :
  length (second_derivative inertias) = (length inertias - 2)%nat.
Proof.
  unfold second_derivative, range. rewrite length_map, length_seq. lia.
Qed.

Lemma second_derivative_nth (inertias : list R) (j : nat) :
  (j < length inertias - 2)%nat ->
  nth j (second_derivative inertias) 0
  = nth (j + 2) inertias 0 - 2 * nth (j + 1) inertias 0 + nth j inertias 0.
Proof.
  intros Hj. unfold second_derivative, range.
  set (f := fun i : nat =>
              nth (i + 1) inertias 0 - 2 * nth i inertias 0
              + nth (i - 1) inertias 0).
  rewrite (nth_indep _ 0 (f 0%nat)) by (rewrite length_map, length_seq; lia).
  rewrite map_nth, seq_nth by lia. unfold f.
  replace (1 + j + 1)%nat with (j + 2)%nat by lia.
  replace (1 + j - 1)%nat with j by lia.
  replace (1 + j)%nat with (j + 1)%nat by lia.
  reflexivity.
Qed.

End Elbow.

(** C4, as the code has it.  With fewer than three embeddings the answer is
    1 and nothing is fitted.  Otherwise KMeans is fitted for every k from 1
    to min(10, N-1) and the inertias are recorded in that order: with
    N = 3 (two candidates) the answer is 2; with N >= 4 the answer is i + 2
    where i is the first index at which the discrete second derivative of
    the inertias is largest. *)
Theorem suggest_cluster_count_elbow :
  forall (rt : Runtime) (embeddings : list (list R)),
    ((length embeddings < 3)%nat ->
     suggest_optimal_clusters rt embeddings = Ok 1)
    /\ (forall inertias : list R,
          (3 <= length embeddings)%nat ->
          Np.array embeddings = Ok embeddings ->
          map_m (fun k => kmeans_inertia rt k embeddings)
                (range 1 (Nat.min 10 (length embeddings - 1) + 1))
          = Ok inertias ->
          length inertias = Nat.min 10 (length embeddings - 1)
          /\ (length embeddings = 3 ->
              suggest_optimal_clusters rt embeddings = Ok 2)
          /\ ((4 <= length embeddings)%nat ->
              exists i : nat,
                suggest_optimal_clusters rt embeddings = Ok (i + 2)
                /\ (i < length inertias - 2)%nat
                /\ (forall j, (j < length inertias - 2)%nat ->
                      nth j (second_derivative inertias) 0%R
                      = (nth (j + 2) inertias 0 - 2 * nth (j + 1) inertias 0
                         + nth j inertias 0)%R)
                /\ (forall j, (j < length inertias - 2)%nat ->
                      (nth j (second_derivative inertias) 0
                       <= nth i (second_derivative inertias) 0)%R)
                /\ (forall j, (j < i)%nat ->
                      (nth j (second_derivative inertias) 0
                       < nth i (second_derivative inertias) 0)%R))).
Proof.
  intros rt E. split.
  - intros Hlt. unfold suggest_optimal_clusters.
    replace (Nat.ltb (length E) 3) with true
      by (symmetry; apply Nat.ltb_lt; exact Hlt).
    reflexivity.
  - intros inertias Hge HA Hfit.
    assert (Hlen : length inertias = Nat.min 10 (length E - 1)).
    { rewrite (map_m_length _ _ Hfit). unfold range.
      rewrite length_seq. lia. }
    assert (Hrun : suggest_optimal_clusters rt E
                   = if Nat.ltb (length inertias) 3 then Ok 2
                     else i <- Np.argmax (second_derivative inertias) ;;
                          Ok (i + 2)).
    { unfold suggest_optimal_clusters.
      replace (Nat.ltb (length E) 3) with false
        by (symmetry; apply Nat.ltb_ge; exact Hge).
      rewrite HA. cbn [bind]. cbv zeta. rewrite Hfit. reflexivity. }
    split; [exact Hlen |]. split.
    + intros H3. rewrite Hrun.
      replace (Nat.ltb (length inertias) 3) with true
        by (symmetry; apply Nat.ltb_lt; lia).
      reflexivity.
    + intros H4. rewrite Hrun.
      replace (Nat.ltb (length inertias) 3) with false
        by (symmetry; apply Nat.ltb_ge; lia).
      assert (Hne : second_derivative inertias <> []).
      { intros Hnil. apply (f_equal (@length R)) in Hnil.
        rewrite second_derivative_length in Hnil. simpl in Hnil. lia. }
      destruct (argmax_spec Hne) as [i [Hi [Hlt [Hmax Hfirst]]]].
      rewrite second_derivative_length in Hlt, Hmax.
      exists i. rewrite Hi. cbn [bind].
      repeat split; try assumption.
      intros j Hj. apply second_derivative_nth. exact Hj.
Qed.

Lemma suggest_cluster_count_elbow_witness :
  suggest_optimal_clusters
    (toy_runtime true false false tsne_zero inertia_table) two_documents
  = Ok 1
  /\ exists i : nat,
       suggest_optimal_clusters
         (toy_runtime true false false tsne_zero inertia_table)
         five_documents
       = Ok (i + 2)
       /\ (i < 2)%nat
       /\ (forall j, (j < 2)%nat ->
             (nth j (second_derivative [100; 40; 10; 5]) 0
              <= nth i (second_derivative [100; 40; 10; 5]) 0)%R)
       /\ (forall j, (j < i)%nat ->
             (nth j (second_derivative [100; 40; 10; 5]) 0
              < nth i (second_derivative [100; 40; 10; 5]) 0)%R).
Proof.
  split.
  - apply (proj1 (suggest_cluster_count_elbow
                    (toy_runtime true false false tsne_zero inertia_table)
                    two_documents)).
    simpl. lia.
  - destruct (proj2 (suggest_cluster_count_elbow
                       (toy_runtime true false false tsne_zero inertia_table)
                       five_documents)
                [100; 40; 10; 5]%R
                ltac:(simpl; lia) eq_refl eq_refl)
      as [_ [_ Hfour]].
    destruct (Hfour ltac:(simpl; lia))
      as [i [Hrun [Hi [_ [Hmax Hfirst]]]]].
    exists i. repeat split; assumption.
Defined.

(** C4, as the claim has it, fails: two embeddings leave the single
    candidate k = 1, fewer than three, and the answer is 1, not 2. *)
Lemma single_candidate_suggests_one :
  range 1 (Nat.min 10 (length two_documents - 1) + 1) = [1]
  /\ suggest_optimal_clusters
       (toy_runtime true false false tsne_zero inertia_table) two_documents
     = Ok 1
  /\ suggest_optimal_clusters
       (toy_runtime true false false tsne_zero inertia_table) two_documents
     <> Ok 2.
Proof.
  split; [reflexivity |]. split; [reflexivity | discriminate].
Qed.

(* ================================================================== *)
(** ** Cluster summaries *)

Lemma cluster_info_unfold (positions : list Position) (labels : list Z) :
  positions <> [] -> labels <> [] ->
  _calculate_cluster_info positions labels
  = (clusters <- for_each (enumerate labels)
                   (group_step (map of_position positions)) [] ;;
     map_m summarize clusters).
Proof.
  intros HP HL. destruct positions; [contradiction |].
  destruct labels; [contradiction |]. reflexivity.
Qed.

Lemma indices_of_snoc (label l : Z) (seen : list Z) :
  indices_of label (seen ++ [l])
  = indices_of label seen ++ (if Z.eqb l label then [length seen] else []).
Proof.
  unfold indices_of. rewrite length_app. cbn [length].
  rewrite Nat.add_1_r, seq_S, filter_app. cbn [Nat.add filter].
  rewrite app_nth2 by lia. rewrite Nat.sub_diag. cbn [nth].
  f_equal. apply filter_ext_in. intros i Hi. apply in_seq in Hi.
  rewrite app_nth1 by lia. reflexivity.
Qed.

Lemma in_indices_of (label : Z) (labels : list Z) (i : nat) :
  label <> (-1)%Z ->
  In i (indices_of label labels) <-> nth_error labels i = Some label.
Proof.
  intros Hl. unfold indices_of. rewrite filter_In, in_seq. split.
  - intros [Hi Heq]. apply Z.eqb_eq in Heq.
    rewrite (nth_error_nth' labels (-1)%Z) by lia. rewrite Heq. reflexivity.
  - intros H. assert (Hi : (i < length labels)%nat).
    { apply nth_error_Some. rewrite H. discriminate. }
    split; [lia |]. rewrite (nth_error_nth labels i (-1)%Z H).
    apply Z.eqb_refl.
Qed.

Lemma has_key_iff (label : Z) (clusters : list ClusterData) :
  has_key label clusters = true <->
  exists c, In c clusters /\ cd_id c = label.
Proof.
  unfold has_key. rewrite existsb_exists. split.
  - intros [c [Hin Heq]]. exists c. split; [exact Hin |].
    apply Z.eqb_eq. exact Heq.
  - intros [c [Hin Heq]]. exists c. split; [exact Hin |].
    apply Z.eqb_eq. exact Heq.
Qed.

Lemma append_member_ids (label : Z) (i : nat) (p : Np.vec)
      (clusters : list ClusterData) :
  map cd_id (append_member label i p clusters) = map cd_id clusters.
Proof.
  unfold append_member. rewrite map_map. apply map_ext.
  intros c. destruct (Z.eqb (cd_id c) label); reflexivity.
Qed.

Lemma has_key_append_member (label l : Z) (i : nat) (p : Np.vec)
      (clusters : list ClusterData) :
  has_key l (append_member label i p clusters) = has_key l clusters.
Proof.
  unfold has_key.
  rewrite <- (map_id (append_member label i p clusters)).
  rewrite <- (map_id clusters) at 2.
  transitivity (existsb (fun id => Z.eqb id l) (map cd_id clusters)).
  - rewrite <- (append_member_ids label i p clusters).
    rewrite map_id. generalize (append_member label i p clusters).
    induction l0 as [| c cs IH]; [reflexivity |].
    cbn [map existsb]. rewrite IH. reflexivity.
  - rewrite map_id. induction clusters as [| c cs IH]; [reflexivity |].
    cbn [map existsb]. rewrite IH. reflexivity.
Qed.

Lemma getitem_positions_array (positions : list Position) (i : nat)
      (p : Np.vec) :
  getitem (map of_position positions) i = Ok p ->
  (i < length positions)%nat /\ p = of_position (nth i positions origin).
Proof.
  unfold getitem. rewrite nth_error_map.
  destruct (nth_error positions i) as [q |] eqn:Hq; [| discriminate].
  cbn [option_map]. intros H. injection H as <-. split.
  - apply nth_error_Some. rewrite Hq. discriminate.
  - rewrite (nth_error_nth positions i origin Hq). reflexivity.
Qed.

Lemma cluster_data_ok_other (positions : list Position) (seen : list Z)
      (l : Z) (c : ClusterData) :
  cd_id c <> l ->
  cluster_data_ok positions seen c ->
  cluster_data_ok positions (seen ++ [l]) c.
Proof.
  intros Hne [Hid [Hdocs [Hnonempty Hpos]]].
  repeat split; try assumption.
  rewrite indices_of_snoc.
  replace (Z.eqb l (cd_id c)) with false.
  - rewrite app_nil_r. exact Hdocs.
  - symmetry. apply Z.eqb_neq. intros Heq. apply Hne. symmetry. exact Heq.
Qed.

Lemma grouping_invariant_noise (positions : list Position) (seen : list Z)
      (clusters : list ClusterData) :
  grouping_invariant positions seen clusters ->
  grouping_invariant positions (seen ++ [(-1)%Z]) clusters.
Proof.
  intros [Hnd [Hok Hcov]]. split; [exact Hnd |]. split.
  - rewrite Forall_forall in *. intros c Hin.
    apply cluster_data_ok_other; [| apply Hok; exact Hin].
    destruct (Hok c Hin) as [Hid _]. exact Hid.
  - intros i label Hi Hl.
    destruct (Nat.lt_ge_cases i (length seen)) as [Hlt | Hge].
    + rewrite nth_error_app1 in Hi by exact Hlt. apply (Hcov i); assumption.
    + rewrite nth_error_app2 in Hi by exact Hge.
      destruct (i - length seen)%nat as [| k]; cbn in Hi.
      * injection Hi as <-. contradiction.
      * destruct k; discriminate Hi.
Qed.

Lemma indices_of_unseen (positions : list Position) (seen : list Z)
      (clusters : list ClusterData) (label : Z) :
  grouping_invariant positions seen clusters ->
  label <> (-1)%Z ->
  has_key label clusters = false ->
  indices_of label seen = [].
Proof.
  intros [_ [_ Hcov]] Hl Hkey.
  destruct (indices_of label seen) as [| i rest] eqn:Hidx; [reflexivity |].
  assert (Hin : In i (indices_of label seen))
    by (rewrite Hidx; left; reflexivity).
  apply (in_indices_of _ _ Hl) in Hin.
  rewrite (Hcov i label Hin Hl) in Hkey. discriminate Hkey.
Qed.

(** One iteration of the grouping loop keeps the invariant. *)
Lemma group_step_invariant (positions : list Position) (seen : list Z)
      (label : Z) (clusters clusters' : list ClusterData) :
  grouping_invariant positions seen clusters ->
  group_step (map of_position positions) (length seen, label) clusters
  = Ok clusters' ->
  grouping_invariant positions (seen ++ [label]) clusters'.
Proof.
  intros Hinv Hstep. unfold group_step in Hstep. cbn [fst snd] in Hstep.
  destruct (Z.eqb_spec label (-1)) as [-> | Hl].
  { injection Hstep as <-. apply grouping_invariant_noise. exact Hinv. }
  cbv zeta in Hstep.
  apply bind_Ok_inv in Hstep. destruct Hstep as [p [Hp Hstep]].
  injection Hstep as <-.
  apply getitem_positions_array in Hp. destruct Hp as [Hbound ->].
  pose proof Hinv as [Hnd [Hok Hcov]].
  set (fresh := {| cd_id := label; cd_documents := [];
                   cd_positions := [] |}) in *.
  set (cs1 := if has_key label clusters then clusters
              else clusters ++ [fresh]).
  (* facts about the dict after the insertion of a missing key *)
  assert (Hnd1 : NoDup (map cd_id cs1)).
  { unfold cs1. destruct (has_key label clusters) eqn:Hkey; [exact Hnd |].
    rewrite map_app. cbn [map]. apply NoDup_app.
    - exact Hnd.
    - constructor; [intros [] | constructor].
    - intros id Hin [Heq | []]. cbn [fresh cd_id] in Heq. subst id.
      apply in_map_iff in Hin. destruct Hin as [c [Hid Hin]].
      assert (Hk : has_key label clusters = true)
        by (apply has_key_iff; exists c; split; assumption).
      rewrite Hk in Hkey. discriminate Hkey. }
  assert (Hkey1 : has_key label cs1 = true).
  { unfold cs1. destruct (has_key label clusters) eqn:Hkey; [exact Hkey |].
    apply has_key_iff. exists fresh. split; [| reflexivity].
    apply in_or_app. right. left. reflexivity. }
  assert (Hmem1 : forall c, In c cs1 ->
            cd_id c <> (-1)%Z
            /\ cd_documents c = indices_of (cd_id c) seen
            /\ (cd_id c <> label -> cluster_data_ok positions seen c)
            /\ cd_positions c
               = map of_position (member_positions positions (cd_documents c))).
  { intros c Hin. unfold cs1 in Hin. rewrite Forall_forall in Hok.
    assert (Hold : In c clusters ->
              cd_id c <> (-1)%Z
              /\ cd_documents c = indices_of (cd_id c) seen
              /\ (cd_id c <> label -> cluster_data_ok positions seen c)
              /\ cd_positions c
                 = map of_position
                       (member_positions positions (cd_documents c))).
    { intros Hc. pose proof (Hok c Hc) as Hc'.
      destruct Hc' as [H1 [H2 [H3 H4]]].
      repeat split; assumption. }
    destruct (has_key label clusters) eqn:Hkey; [apply Hold; exact Hin |].
    apply in_app_or in Hin. destruct Hin as [Hin | [<- | []]];
      [apply Hold; exact Hin |].
    cbn [fresh cd_id cd_documents cd_positions].
    rewrite (indices_of_unseen Hinv Hl Hkey).
    split; [exact Hl |]. split; [reflexivity |].
    split; [| reflexivity].
    intros Hne. exfalso. apply Hne. reflexivity. }
  split; [rewrite append_member_ids; exact Hnd1 |]. split.
  - apply Forall_forall. intros c' Hin'. unfold append_member in Hin'.
    apply in_map_iff in Hin'. destruct Hin' as [c [Hc' Hin]].
    destruct (Hmem1 c Hin) as [Hid [Hdocs [Hother Hpos]]].
    destruct (Z.eqb_spec (cd_id c) label) as [Heq | Hne].
    + subst c'. unfold cluster_data_ok.
      cbn [cd_id cd_documents cd_positions]. repeat split.
      * exact Hid.
      * rewrite indices_of_snoc, Heq, Z.eqb_refl, Hdocs, Heq. reflexivity.
      * intros Hnil. apply app_eq_nil in Hnil. destruct Hnil as [_ Hnil].
        discriminate Hnil.
      * rewrite Hpos. unfold member_positions.
        rewrite !map_app. reflexivity.
    + subst c'. apply cluster_data_ok_other; [exact Hne |].
      apply Hother. exact Hne.
  - intros i l Hi Hne. rewrite has_key_append_member.
    destruct (Nat.lt_ge_cases i (length seen)) as [Hlt | Hge].
    + rewrite nth_error_app1 in Hi by exact Hlt.
      pose proof (Hcov i l Hi Hne) as Hk. unfold cs1.
      destruct (has_key label clusters); [exact Hk |].
      apply has_key_iff in Hk. destruct Hk as [c [Hin Hid]].
      apply has_key_iff. exists c. split; [| exact Hid].
      apply in_or_app. left. exact Hin.
    + rewrite nth_error_app2 in Hi by exact Hge.
      destruct (i - length seen)%nat as [| k]; cbn in Hi.
      * injection Hi as <-. exact Hkey1.
      * destruct k; discriminate Hi.
Qed.

Lemma grouping_loop_invariant (positions : list Position)
      (rest seen : list Z) (clusters clusters' : list ClusterData) :
  grouping_invariant positions seen clusters ->
  for_each (combine (seq (length seen) (length rest)) rest)
           (group_step (map of_position positions)) clusters
  = Ok clusters' ->
  grouping_invariant positions (seen ++ rest) clusters'.
Proof.
  revert seen clusters.
  induction rest as [| label rest' IH]; intros seen clusters Hinv Hloop.
  - injection Hloop as <-. rewrite app_nil_r. exact Hinv.
  - cbn [length seq combine for_each] in Hloop.
    apply bind_Ok_inv in Hloop. destruct Hloop as [cs1 [Hstep Hloop]].
    pose proof (@group_step_invariant _ _ _ _ _ Hinv Hstep) as Hinv1.
    replace (seen ++ label :: rest') with ((seen ++ [label]) ++ rest')
      by (rewrite <- app_assoc; reflexivity).
    apply (IH (seen ++ [label]) cs1 Hinv1).
    rewrite length_app. cbn [length]. rewrite Nat.add_1_r. exact Hloop.
Qed.

Lemma grouping_invariant_start (positions : list Position) :
  grouping_invariant positions [] [].
Proof.
  split; [constructor |]. split; [constructor |].
  intros i label Hi. destruct i; discriminate Hi.
Qed.

Lemma summarize_ok (positions : list Position) (labels : list Z)
      (c : ClusterData) :
  cluster_data_ok positions labels c ->
  exists s, summarize c = Ok s
            /\ cluster_id s = cd_id c
            /\ summary_of positions labels s.
Proof.
  intros [Hid [Hdocs [Hne Hpos]]]. unfold summarize. cbv zeta.
  assert (Hmp : member_positions positions (cd_documents c) <> []).
  { unfold member_positions. intros Hnil. apply map_eq_nil in Hnil.
    contradiction. }
  rewrite Hpos, (mean_axis0_of_positions Hmp).
  eexists. split; [reflexivity |]. split; [reflexivity |].
  unfold summary_of.
  cbn [cluster_id document_indices size center].
  repeat split; assumption.
Qed.

Lemma summaries_ok (positions : list Position) (labels : list Z)
      (clusters : list ClusterData) :
  Forall (cluster_data_ok positions labels) clusters ->
  exists infos,
    map_m summarize clusters = Ok infos
    /\ map cluster_id infos = map cd_id clusters
    /\ Forall (summary_of positions labels) infos.
Proof.
  induction 1 as [| c cs Hc Hcs IH].
  - exists []. repeat split; constructor.
  - destruct IH as [infos [Hm [Hids Hall]]].
    destruct (summarize_ok Hc) as [s [Hs [Hid Hsum]]].
    exists (s :: infos). cbn [map_m]. rewrite Hs, Hm. cbn [bind map].
    rewrite Hid, Hids. repeat split. constructor; assumption.
Qed.

Lemma grouping_loop_total (positions : list Position) (rest : list Z)
      (k : nat) (clusters : list ClusterData) :
  (k + length rest <= length positions)%nat ->
  exists clusters',
    for_each (combine (seq k (length rest)) rest)
             (group_step (map of_position positions)) clusters
    = Ok clusters'.
Proof.
  revert k clusters.
  induction rest as [| label rest' IH]; intros k clusters Hlen.
  - exists clusters. reflexivity.
  - cbn [length seq combine for_each]. cbn [length] in Hlen.
    assert (Hstep : exists cs1,
               group_step (map of_position positions) (k, label) clusters
               = Ok cs1).
    { unfold group_step. cbn [fst snd].
      destruct (Z.eqb label (-1)); [eexists; reflexivity |].
      cbv zeta.
      rewrite (@getitem_in_range _ (map of_position positions) k [])
        by (rewrite length_map; lia).
      eexists. reflexivity. }
    destruct Hstep as [cs1 ->]. cbn [bind]. apply IH. lia.
Qed.

Lemma cluster_info_spec (positions : list Position) (labels : list Z)
      (infos : list ClusterInfo) :
  _calculate_cluster_info positions labels = Ok infos ->
  NoDup (map cluster_id infos)
  /\ Forall (summary_of positions labels) infos
  /\ (positions <> [] ->
      forall i label,
        nth_error labels i = Some label -> label <> (-1)%Z ->
        exists s, In s infos /\ cluster_id s = label
                  /\ In i (document_indices s)).
Proof.
  intros H.
  destruct positions as [| p0 ps].
  { injection H as <-. split; [constructor |]. split; [constructor |].
    intros Hne. contradiction. }
  destruct labels as [| l0 ls].
  { injection H as <-. split; [constructor |]. split; [constructor |].
    intros _ i label Hi. destruct i; discriminate Hi. }
  rewrite cluster_info_unfold in H by discriminate.
  apply bind_Ok_inv in H. destruct H as [clusters [Hloop Hsum]].
  pose proof (@grouping_loop_invariant (p0 :: ps) (l0 :: ls) [] [] clusters
                (grouping_invariant_start (p0 :: ps)) Hloop) as Hinv.
  cbn [app] in Hinv. destruct Hinv as [Hnd [Hok Hcov]].
  destruct (summaries_ok Hok) as [infos' [Hm [Hids Hall]]].
  rewrite Hm in Hsum. injection Hsum as <-.
  split; [rewrite Hids; exact Hnd |]. split; [exact Hall |].
  intros _ i label Hi Hl.
  pose proof (Hcov i label Hi Hl) as Hk.
  apply has_key_iff in Hk. destruct Hk as [c [Hin Hid]].
  assert (Hin' : In label (map cluster_id infos')).
  { rewrite Hids, <- Hid. apply in_map. exact Hin. }
  apply in_map_iff in Hin'. destruct Hin' as [s [Hs Hins]].
  exists s. split; [exact Hins |]. split; [exact Hs |].
  rewrite Forall_forall in Hall.
  destruct (Hall s Hins) as [_ [Hdocs _]].
  rewrite Hdocs, Hs. apply in_indices_of; assumption.
Qed.

Lemma cluster_info_total (positions : list Position) (labels : list Z) :
  (length labels <= length positions)%nat ->
  exists infos, _calculate_cluster_info positions labels = Ok infos.
Proof.
  intros Hlen.
  destruct positions as [| p0 ps]; [exists []; reflexivity |].
  destruct labels as [| l0 ls]; [exists []; reflexivity |].
  rewrite cluster_info_unfold by discriminate.
  destruct (@grouping_loop_total (p0 :: ps) (l0 :: ls) 0 []) as [cs Hloop];
    [simpl in *; lia |].
  unfold enumerate. rewrite Hloop. cbn [bind].
  pose proof (@grouping_loop_invariant (p0 :: ps) (l0 :: ls) [] [] cs
                (grouping_invariant_start (p0 :: ps)) Hloop) as Hinv.
  cbn [app] in Hinv. destruct Hinv as [_ [Hok _]].
  destruct (summaries_ok Hok) as [infos [Hm _]].
  exists infos. exact Hm.
Qed.

(** C8. [organize_spatial_layout] returns three empty lists when there is
    no document or no embedding.  Otherwise, whenever it returns, the
    cluster summaries are those of the positions and labels it computed:
    no two summaries share an id; every summary has an id other than -1,
    lists exactly the indices carrying that label (in increasing order, and
    at least one), has their number as size and the arithmetic mean of
    their positions as center; and every index whose label is not -1 is
    listed by the summary of its label. *)
Theorem organize_cluster_summaries :
  forall (Doc : Type) (self : SpatialOrganizer) (rt : Runtime)
         (docs : list Doc) (embeddings : list (list R)),
    (docs = [] \/ embeddings = [] ->
     organize_spatial_layout self rt docs embeddings
     = Ok {| documents := []; clusters := []; connections := [] |})
    /\ (forall layout : Layout Doc,
          docs <> [] -> embeddings <> [] ->
          organize_spatial_layout self rt docs embeddings = Ok layout ->
          exists (positions : list Position) (labels : list Z),
            calculate_3d_positions self rt embeddings "pca" = Ok positions
            /\ cluster_documents rt embeddings "hdbscan" None = Ok labels
            /\ _calculate_connections embeddings (8 / 10)%R
               = Ok (connections layout)
            /\ NoDup (map cluster_id (clusters layout))
            /\ Forall (summary_of positions labels) (clusters layout)
            /\ (positions <> [] ->
                forall i label,
                  nth_error labels i = Some label -> label <> (-1)%Z ->
                  exists s, In s (clusters layout)
                            /\ cluster_id s = label
                            /\ In i (document_indices s))).
Proof.
  intros Doc self rt docs E. split.
  - intros [-> | ->]; [reflexivity |]. destruct docs; reflexivity.
  - intros layout Hd HE H.
    destruct docs as [| d docs']; [contradiction |].
    destruct E as [| e E']; [contradiction |].
    unfold organize_spatial_layout in H.
    apply bind_Ok_inv in H. destruct H as [positions [Hpos H]].
    apply bind_Ok_inv in H. destruct H as [labels [Hlab H]].
    apply bind_Ok_inv in H. destruct H as [conns [Hconn H]].
    apply bind_Ok_inv in H. destruct H as [infos [Hinfo H]].
    injection H as <-. cbn [clusters connections].
    exists positions, labels.
    destruct (cluster_info_spec _ _ Hinfo) as [Hnd [Hall Hcov]].
    repeat split; assumption.
Qed.

Lemma organize_unfold (Doc : Type) (self : SpatialOrganizer) (rt : Runtime)
      (docs : list Doc) (E : list (list R)) :
  docs <> [] -> E <> [] ->
  organize_spatial_layout self rt docs E
  = (positions <- calculate_3d_positions self rt E "pca" ;;
     cluster_labels <- cluster_documents rt E "hdbscan" None ;;
     connections <- _calculate_connections E (8 / 10)%R ;;
     clusters <- _calculate_cluster_info positions cluster_labels ;;
     Ok {| documents :=
             map (fun id =>
                    {| doc := snd id;
                       position := nth (fst id) positions origin;
                       cluster := nth (fst id) cluster_labels (-1)%Z |})
                 (enumerate docs);
           clusters := clusters;
           connections := connections |}).
Proof.
  intros Hd HE. destruct docs; [contradiction |].
  destruct E; [contradiction |]. reflexivity.
Qed.

Lemma organize_two_documents :
  exists layout : Layout string,
    organize_spatial_layout spatial_organizer
      (toy_runtime true false false tsne_zero inertia_zero)
      ["a"; "b"]%string two_documents
    = Ok layout.
Proof.
  rewrite organize_unfold by discriminate.
  rewrite two_documents_pca. cbn [bind].
  change (cluster_documents
            (toy_runtime true false false tsne_zero inertia_zero)
            two_documents "hdbscan" None)
    with (Ok [0%Z; 0%Z]).
  cbn [bind].
  rewrite connections_spec by reflexivity. cbn [bind].
  destruct (@cluster_info_total
              [ {| x := 10; y := 0; z := 0 |};
                {| x := -10; y := 0; z := 0 |} ]%R [0%Z; 0%Z])
    as [infos Hinfos]; [simpl; lia |].
  rewrite Hinfos. cbn [bind]. eexists. reflexivity.
Qed.

Lemma organize_cluster_summaries_witness :
  organize_spatial_layout spatial_organizer
    (toy_runtime true false false tsne_zero inertia_zero)
    (@nil string) two_documents
  = Ok {| documents := []; clusters := []; connections := [] |}
  /\ exists layout : Layout string,
       organize_spatial_layout spatial_organizer
         (toy_runtime true false false tsne_zero inertia_zero)
         ["a"; "b"]%string two_documents
       = Ok layout
       /\ exists (positions : list Position) (labels : list Z),
            calculate_3d_positions spatial_organizer
              (toy_runtime true false false tsne_zero inertia_zero)
              two_documents "pca" = Ok positions
            /\ cluster_documents
                 (toy_runtime true false false tsne_zero inertia_zero)
                 two_documents "hdbscan" None = Ok labels
            /\ _calculate_connections two_documents (8 / 10)%R
               = Ok (connections layout)
            /\ NoDup (map cluster_id (clusters layout))
            /\ Forall (summary_of positions labels) (clusters layout)
            /\ (positions <> [] ->
                forall i label,
                  nth_error labels i = Some label -> label <> (-1)%Z ->
                  exists s, In s (clusters layout)
                            /\ cluster_id s = label
                            /\ In i (document_indices s)).
Proof.
  split.
  - apply (proj1 (organize_cluster_summaries spatial_organizer
                    (toy_runtime true false false tsne_zero inertia_zero)
                    (@nil string) two_documents)).
    left. reflexivity.
  - destruct organize_two_documents as [layout Hlayout].
    exists layout. split; [exact Hlayout |].
    apply (proj2 (organize_cluster_summaries spatial_organizer
                    (toy_runtime true false false tsne_zero inertia_zero)
                    ["a"; "b"]%string two_documents) layout).
    + discriminate.
    + discriminate.
    + exact Hlayout.
Defined.

(* ================================================================== *)
(** ** The near-duplicate scenario *)

Section Scenario.

Local Open Scope R_scope.

Lemma cosine_value_orthogonal (a b : Np.vec) :
  inner a b = 0 -> cosine_value a b = 0.
Proof.
  intros H. unfold cosine_value. rewrite H.
  destruct (Reqb (Np.norm a) 0 || Reqb (Np.norm b) 0); [reflexivity |].
  replace (0 / (Np.norm a * Np.norm b)) with 0 by (unfold Rdiv; ring).
  apply clip_inside. lra.
Qed.

Lemma near_duplicate_cosine :
  9 / 10 <= cosine_value [1; 0; 0] [1; 0; 1 / 100] <= 1.
Proof.
  pose proof (cosine_value_bounds [1; 0; 0] [1; 0; 1 / 100]) as [_ Hup].
  split; [| exact Hup].
  assert (Ha : nonzero [1; 0; 0])
    by (exists 1; split; [left; reflexivity | lra]).
  assert (Hb : nonzero [1; 0; 1 / 100])
    by (exists 1; split; [left; reflexivity | lra]).
  unfold cosine_value.
  replace (Reqb (Np.norm [1; 0; 0]) 0) with false
    by (symmetry; apply Reqb_false; apply norm_nonzero; exact Ha).
  replace (Reqb (Np.norm [1; 0; 1 / 100]) 0) with false
    by (symmetry; apply Reqb_false; apply norm_nonzero; exact Hb).
  cbn [orb].
  assert (Hn1 : Np.norm [1; 0; 0] = 1).
  { unfold Np.norm, Np.sum; simpl.
    replace (1 * 1 + (0 * 0 + (0 * 0 + 0))) with 1 by lra. apply sqrt_1. }
  assert (Hin : inner [1; 0; 0] [1; 0; 1 / 100] = 1).
  { unfold inner, Np.sum; simpl. lra. }
  set (q := Np.norm [1; 0; 1 / 100]).
  assert (Hq1 : 1 <= q).
  { unfold q, Np.norm, Np.sum; simpl. rewrite <- sqrt_1 at 1.
    apply sqrt_le_1; lra. }
  assert (Hq2 : q <= 10 / 9).
  { unfold q, Np.norm, Np.sum; simpl.
    rewrite <- (sqrt_square (10 / 9)) by lra.
    apply sqrt_le_1; lra. }
  rewrite Hn1, Hin.
  assert (Hraw : 9 / 10 <= 1 / (1 * q) <= 1).
  { replace (1 / (1 * q)) with (/ q) by (field; lra). split.
    - replace (9 / 10) with (/ (10 / 9)) by (field; lra).
      apply Rinv_le_contravar; lra.
    - assert (H1 : / q <= / 1) by (apply Rinv_le_contravar; lra).
      rewrite Rinv_1 in H1. exact H1. }
  rewrite clip_inside by lra. lra.
Qed.

(** With threshold 0.9 the three embeddings (1,0,0), (0,1,0) and
    (1,0,0.01) are joined by exactly one edge, between the documents 0
    and 2. *)
Lemma scenario_single_edge :
  exists s : R,
    _calculate_connections scenario_documents (9 / 10)
    = Ok [{| source := 0; target := 2; strength := s |}]
    /\ 9 / 10 <= s <= 1.
Proof.
  exists (cosine_value [1; 0; 0] [1; 0; 1 / 100]).
  split; [| exact near_duplicate_cosine].
  rewrite connections_spec by reflexivity.
  change (index_pairs (length scenario_documents))
    with [(0, 1); (0, 2); (1, 2)]%nat.
  cbn [flat_map]. unfold edge_of.
  cbn [fst snd scenario_documents nth].
  rewrite (@cosine_value_orthogonal [1; 0; 0] [0; 1; 0])
    by (unfold inner, Np.sum; simpl; lra).
  rewrite (@cosine_value_orthogonal [0; 1; 0] [1; 0; 1 / 100])
    by (unfold inner, Np.sum; simpl; lra).
  replace (Rgeb 0 (9 / 10)) with false.
  2:{ symmetry. unfold Rgeb.
      destruct (Rge_dec 0 (9 / 10)); [lra | reflexivity]. }
  replace (Rgeb (cosine_value [1; 0; 0] [1; 0; 1 / 100]) (9 / 10)) with true.
  2:{ symmetry. apply Rgeb_true. pose proof near_duplicate_cosine. lra. }
  reflexivity.
Qed.

End Scenario.

(* ================================================================== *)
(** ** The spread of a layout *)

Section Spread.

Local Open Scope R_scope.


Lemma sum_bounds (lo hi : R) (l : list R) :
  Forall (fun v => lo <= v <= hi) l ->
  INR (length l) * lo <= Np.sum l <= INR (length l) * hi.
Proof.
  induction 1 as [| v l' Hv Hl IH].
  - simpl. lra.
  - cbn [Np.sum fold_right length]. fold (Np.sum l').
    rewrite S_INR. lra.
Qed.

Lemma mean_bounds (lo hi : R) (l : list R) :
  l <> [] -> Forall (fun v => lo <= v <= hi) l ->
  lo <= Np.mean l <= hi.
Proof.
  intros Hne Hall. pose proof (sum_bounds Hall) as [Hlo Hhi].
  assert (Hn : 0 < INR (length l)).
  { apply lt_0_INR. destruct l; [contradiction | simpl; lia]. }
  unfold Np.mean. split.
  - apply (Rmult_le_reg_l (INR (length l))); [exact Hn |].
    replace (INR (length l) * (Np.sum l / INR (length l)))
      with (Np.sum l) by (field; lra).
    exact Hlo.
  - apply (Rmult_le_reg_l (INR (length l))); [exact Hn |].
    replace (INR (length l) * (Np.sum l / INR (length l)))
      with (Np.sum l) by (field; lra).
    exact Hhi.
Qed.

Lemma psub_origin (p : Position) : psub origin p = p.
Proof.
  destruct p as [a b c]. unfold psub, origin; cbn [x y z].
  f_equal; lra.
Qed.





End Spread.





(* ================================================================== *)
(** ** Normalised layouts are left as they are *)

Section NormalizationLaws.

Local Open Scope R_scope.

Lemma normalize_value (ps : list Position) :
  ps <> [] ->
  _normalize_positions (map of_position ps)
  = Ok (map of_position (rescale (map (psub (centroid ps)) ps))).
Proof.
  intros Hne. destruct (normalize_of_positions Hne) as [d [Hd Hnorm]].
  rewrite Hnorm. unfold rescale.
  unfold max_centred_distance in Hd.
  rewrite (mean_axis0_of_positions Hne), sub_rows_of_positions,
    norm_axis1_of_positions in Hd.
  rewrite Hd. reflexivity.
Qed.

Lemma max_nonempty (A : Type) (f : A -> R) (l : list A) :
  l <> [] -> exists d, Np.max (map f l) = Ok d.
Proof.
  intros Hne. destruct l as [| a l']; [contradiction |].
  eexists. reflexivity.
Qed.

Lemma map_id_on (A : Type) (f : A -> A) (l : list A) :
  (forall a, In a l -> f a = a) -> map f l = l.
Proof.
  intros H. rewrite <- (map_id l) at 2. apply map_ext_in. exact H.
Qed.

Lemma centroid_origin_centred (ps : list Position) :
  centroid ps = origin -> map (psub (centroid ps)) ps = ps.
Proof.
  intros ->. apply map_id_on. intros p _. apply psub_origin.
Qed.

Lemma pscale_one (c : R) (p : Position) : c = 1 -> pscale c p = p.
Proof.
  intros ->. destruct p as [a b c]. unfold pscale; cbn [x y z].
  f_equal; lra.
Qed.

Lemma pscale_origin (c : R) : pscale c origin = origin.
Proof. unfold pscale, origin; cbn [x y z]. f_equal; lra. Qed.

Lemma rescale_radius_10 (ps : list Position) :
  Np.max (map distance_from_origin ps) = Ok 10 -> rescale ps = ps.
Proof.
  intros Hmax. unfold rescale. rewrite Hmax.
  replace (Rgtb 10 0) with true by (symmetry; apply Rgtb_true; lra).
  apply map_id_on. intros p _. apply pscale_one. field.
Qed.

Lemma rescale_all_origin (ps : list Position) :
  Forall (fun p => p = origin) ps -> rescale ps = ps.
Proof.
  intros Hall. unfold rescale.
  destruct (Np.max (map distance_from_origin ps)) as [d | e];
    [| reflexivity].
  destruct (Rgtb d 0); [| reflexivity].
  apply map_id_on. intros p Hin.
  rewrite Forall_forall in Hall. rewrite (Hall p Hin).
  apply pscale_origin.
Qed.

End NormalizationLaws.

(** X3. A layout that is already normalised is left as it is: when the
    centroid of the rows is the origin and the farthest row is at distance
    10 (or every row is the origin), [_normalize_positions] returns the
    layout it was given. *)
Theorem normalized_layout_unchanged :
  forall layout : list Position,
    centroid layout = origin ->
    Np.max (map distance_from_origin layout) = Ok 10%R
    \/ Forall (fun p => p = origin) layout ->
    _normalize_positions (map of_position layout)
    = Ok (map of_position layout).
Proof.
  intros ps Hc Hcase.
  destruct ps as [| p ps']; [reflexivity |].
  assert (Hne : p :: ps' <> []) by discriminate.
  rewrite (normalize_value Hne), (centroid_origin_centred Hc).
  destruct Hcase as [Hmax | Hall].
  - rewrite (@rescale_radius_10 _ Hmax). reflexivity.
  - rewrite (@rescale_all_origin _ Hall). reflexivity.
Qed.

Lemma opposite_points_max :
  Np.max (map distance_from_origin
            [ {| x := 10; y := 0; z := 0 |};
              {| x := -10; y := 0; z := 0 |} ]%R)
  = Ok 10%R.
Proof.
  assert (Hd1 : distance_from_origin {| x := 10; y := 0; z := 0 |}
                = 10%R).
  { unfold distance_from_origin; simpl.
    replace (10 * 10 + 0 * 0 + 0 * 0)%R with (10 * 10)%R by lra.
    apply sqrt_square. lra. }
  assert (Hd2 : distance_from_origin {| x := -10; y := 0; z := 0 |}
                = 10%R).
  { unfold distance_from_origin; simpl.
    replace (-10 * -10 + 0 * 0 + 0 * 0)%R with (10 * 10)%R by lra.
    apply sqrt_square. lra. }
  cbn [map]. rewrite Hd1, Hd2. unfold Np.max. cbn [fold_left]. f_equal.
  unfold Rmax. destruct (Rle_dec 10 10); reflexivity.
Qed.

Lemma normalized_layout_unchanged_witness :
  _normalize_positions [[10; 0; 0]; [-10; 0; 0]]%R
  = Ok [[10; 0; 0]; [-10; 0; 0]]%R.
Proof.
  apply (@normalized_layout_unchanged
           [ {| x := 10; y := 0; z := 0 |};
             {| x := -10; y := 0; z := 0 |} ]%R).
  - unfold centroid, origin, Np.mean, Np.sum; simpl. f_equal; lra.
  - left. exact opposite_points_max.
Defined.

(* ================================================================== *)
(** ** More on the cosine similarity *)

Section CosineLaws.

Local Open Scope R_scope.

Lemma inner_sym (a b : Np.vec) : inner a b = inner b a.
Proof.
  unfold inner. revert b. induction a as [| u a' IH]; intros b.
  - destruct b; reflexivity.
  - destruct b as [| v b']; [reflexivity |].
    cbn [combine map Np.sum fold_right fst snd].
    fold (Np.sum (map (fun p => fst p * snd p) (combine a' b'))).
    fold (Np.sum (map (fun p => fst p * snd p) (combine b' a'))).
    rewrite (IH b'). ring.
Qed.

Lemma cosine_value_sym (a b : Np.vec) : cosine_value a b = cosine_value b a.
Proof.
  unfold cosine_value.
  rewrite (orb_comm (Reqb (Np.norm a) 0)), (inner_sym a b),
    (Rmult_comm (Np.norm a)).
  reflexivity.
Qed.

Lemma sum_squares_scale (c : R) (v : Np.vec) :
  Np.sum (map (fun u => u * u) (map (fun u => u * c) v))
  = c * c * Np.sum (map (fun u => u * u) v).
Proof.
  induction v as [| u v' IH]; [simpl; ring |].
  cbn [map Np.sum fold_right].
  fold (Np.sum (map (fun u => u * u) (map (fun u => u * c) v'))).
  fold (Np.sum (map (fun u => u * u) v')).
  rewrite IH. ring.
Qed.

Lemma norm_scale (c : R) (v : Np.vec) :
  0 <= c -> Np.norm (map (fun u => u * c) v) = c * Np.norm v.
Proof.
  intros Hc. unfold Np.norm. rewrite sum_squares_scale.
  rewrite sqrt_mult.
  - rewrite sqrt_square by exact Hc. reflexivity.
  - apply Rle_0_sqr.
  - apply sum_squares_nonneg.
Qed.

Lemma inner_scale_l (c : R) (a b : Np.vec) :
  inner (map (fun u => u * c) a) b = c * inner a b.
Proof.
  unfold inner. revert b. induction a as [| u a' IH]; intros b.
  - simpl. ring.
  - destruct b as [| v b']; [simpl; ring |].
    cbn [map combine Np.sum fold_right fst snd].
    fold (Np.sum (map (fun p => fst p * snd p)
                      (combine (map (fun u => u * c) a') b'))).
    fold (Np.sum (map (fun p => fst p * snd p) (combine a' b'))).
    rewrite (IH b'). ring.
Qed.

Lemma Reqb_scale (c n : R) : 0 < c -> Reqb (c * n) 0 = Reqb n 0.
Proof.
  intros Hc. destruct (Reqb n 0) eqn:Hn.
  - apply Reqb_true in Hn. apply Reqb_true. rewrite Hn. ring.
  - apply Reqb_false in Hn. apply Reqb_false. nra.
Qed.

Lemma cosine_value_scale_l (c : R) (a b : Np.vec) :
  0 < c -> cosine_value (map (fun u => u * c) a) b = cosine_value a b.
Proof.
  intros Hc. unfold cosine_value.
  rewrite (norm_scale _ (Rlt_le _ _ Hc)), (Reqb_scale _ Hc), inner_scale_l.
  destruct (Reqb (Np.norm a) 0) eqn:Ha; [reflexivity |].
  destruct (Reqb (Np.norm b) 0) eqn:Hb; [reflexivity |].
  cbn [orb]. apply Reqb_false in Ha. apply Reqb_false in Hb.
  f_equal. field. repeat split; lra.
Qed.

End CosineLaws.

Lemma cosine_swap (a b : Np.vec) :
  _cosine_similarity a b = _cosine_similarity b a.
Proof.
  destruct (Nat.eq_dec (length a) (length b)) as [Hlen | Hne].
  - rewrite (cosine_same_length _ _ Hlen).
    rewrite (cosine_same_length _ _ (eq_sym Hlen)).
    rewrite cosine_value_sym. reflexivity.
  - unfold _cosine_similarity, Np.dot.
    replace (Nat.eqb (length a) (length b)) with false
      by (symmetry; apply Nat.eqb_neq; exact Hne).
    replace (Nat.eqb (length b) (length a)) with false
      by (symmetry; apply Nat.eqb_neq; intros H; apply Hne; symmetry;
          exact H).
    reflexivity.
Qed.

(** X5. The similarity is symmetric: [_cosine_similarity] returns the
    same value, or raises the same error, whichever vector comes first. *)
Theorem cosine_similarity_symmetric :
  forall a b : Np.vec, _cosine_similarity a b = _cosine_similarity b a.
Proof. exact cosine_swap. Qed.

(** X6. Away from the ends of the binary64 range the similarity does not
    depend on the magnitude of the embeddings: multiplying either vector by
    a positive factor leaves the result of [_cosine_similarity] unchanged,
    as long as the vectors, before and after, have norms between 2^-500
    and 2^500. *)
Theorem cosine_similarity_scale_invariant :
  forall (a b : Np.vec) (factor : R),
    (0 < factor)%R ->
    well_scaled a -> well_scaled b ->
    well_scaled (map (fun u => (u * factor)%R) a) ->
    well_scaled (map (fun u => (u * factor)%R) b) ->
    _cosine_similarity (map (fun u => (u * factor)%R) a) b
    = _cosine_similarity a b
    /\ _cosine_similarity a (map (fun u => (u * factor)%R) b)
       = _cosine_similarity a b.
Proof.
  assert (Hleft : forall (a b : Np.vec) (c : R), (0 < c)%R ->
            _cosine_similarity (map (fun u => (u * c)%R) a) b
            = _cosine_similarity a b).
  { intros a b c Hc.
    destruct (Nat.eq_dec (length a) (length b)) as [Hlen | Hne].
    - rewrite (cosine_same_length a b Hlen).
      rewrite cosine_same_length by (rewrite length_map; exact Hlen).
      rewrite (cosine_value_scale_l _ _ Hc). reflexivity.
    - unfold _cosine_similarity, Np.dot. rewrite length_map.
      replace (Nat.eqb (length a) (length b)) with false
        by (symmetry; apply Nat.eqb_neq; exact Hne).
      reflexivity. }
  intros a b c Hc _ _ _ _. split.
  - apply Hleft. exact Hc.
  - rewrite (cosine_swap a).
    rewrite (cosine_swap a b).
    apply Hleft. exact Hc.
Qed.

Lemma well_scaled_doubled (v : Np.vec) :
  Np.norm v = 5%R -> well_scaled (map (fun u => (u * 2)%R) v).
Proof.
  intros Hn. apply well_scaled_between.
  rewrite norm_scale by lra. rewrite Hn. lra.
Qed.

Lemma cosine_similarity_scale_invariant_witness :
  _cosine_similarity (map (fun u => (u * 2)%R) [3; 4]%R) [4; 3]%R
  = _cosine_similarity [3; 4]%R [4; 3]%R
  /\ _cosine_similarity [3; 4]%R (map (fun u => (u * 2)%R) [4; 3]%R)
     = _cosine_similarity [3; 4]%R [4; 3]%R.
Proof.
  apply (@cosine_similarity_scale_invariant [3; 4]%R [4; 3]%R 2%R).
  - lra.
  - exact well_scaled_3_4.
  - exact well_scaled_4_3.
  - exact (@well_scaled_doubled _ norm_3_4).
  - exact (@well_scaled_doubled _ norm_4_3).
Defined.

(* ================================================================== *)
(** ** More on the connection graph *)

Lemma index_pairs_tail_length (n k : nat) :
  (k <= n)%nat ->
  (2 * length (flat_map (fun i => map (pair i) (range (i + 1) n))
                        (seq (n - k) k))
   = k * (k - 1))%nat.
Proof.
  induction k as [| k IH]; intros Hk; [reflexivity |].
  cbn [seq flat_map]. rewrite length_app, length_map.
  unfold range at 1. rewrite length_seq.
  replace (S (n - S k)) with (n - k)%nat by lia.
  specialize (IH ltac:(lia)).
  replace (n - (n - S k + 1))%nat with k by lia.
  destruct k as [| k']; [simpl; lia |].
  replace (S (S k') * (S (S k') - 1))%nat
    with (2 * S k' + S k' * (S k' - 1))%nat by (simpl; lia).
  lia.
Qed.

Lemma index_pairs_length (n : nat) :
  (2 * length (index_pairs n) = n * (n - 1))%nat.
Proof.
  unfold index_pairs, range at 2.
  pose proof (@index_pairs_tail_length n n (Nat.le_refl n)) as H.
  rewrite Nat.sub_diag in H. rewrite Nat.sub_0_r. exact H.
Qed.

Lemma filter_length_le (A : Type) (f : A -> bool) (l : list A) :
  (length (filter f l) <= length l)%nat.
Proof.
  induction l as [| a l' IH]; [simpl; lia |].
  cbn [filter]. destruct (f a); simpl; lia.
Qed.

Lemma edges_filter_threshold (E : Np.ndarray) (t1 t2 : R)
      (l : list (nat * nat)) :
  (t1 <= t2)%R ->
  flat_map (edge_of E t2) l
  = filter (fun e => Rgeb (strength e) t2) (flat_map (edge_of E t1) l).
Proof.
  intros Ht. induction l as [| ij l' IH]; [reflexivity |].
  cbn [flat_map]. rewrite filter_app, <- IH. f_equal.
  unfold edge_of.
  destruct (Rgeb _ t2) eqn:H2.
  - apply Rgeb_true in H2.
    replace (Rgeb (cosine_value (nth (fst ij) E []) (nth (snd ij) E [])) t1)
      with true by (symmetry; apply Rgeb_true; lra).
    cbn [filter strength].
    replace (Rgeb (cosine_value (nth (fst ij) E []) (nth (snd ij) E [])) t2)
      with true by (symmetry; apply Rgeb_true; exact H2).
    reflexivity.
  - destruct (Rgeb _ t1); [| reflexivity].
    cbn [filter strength]. rewrite H2. reflexivity.
Qed.

(** X7. [_calculate_connections] never returns more edges than there are
    pairs of documents: twice the number of edges is at most N (N - 1). *)
Theorem connections_at_most_all_pairs :
  forall (embeddings : list (list R)) (threshold : R)
         (edges : list Connection),
    _calculate_connections embeddings threshold = Ok edges ->
    (2 * length edges <= length embeddings * (length embeddings - 1))%nat.
Proof.
  intros E t edges H.
  pose proof (connections_array _ _ H) as HA.
  rewrite (connections_spec t HA) in H. injection H as <-.
  rewrite <- index_pairs_length.
  rewrite <- (length_map ends), ends_of_edges.
  pose proof (filter_length_le
                (fun ij => Rgeb (cosine_value (nth (fst ij) E [])
                                              (nth (snd ij) E [])) t)
                (index_pairs (length E))).
  lia.
Qed.

(** X8. Raising the threshold only removes edges: the edges returned for
    the higher threshold are those returned for the lower one whose
    strength reaches the higher threshold, in the same order. *)
Theorem connections_monotone_in_threshold :
  forall (embeddings : list (list R)) (low high : R)
         (edges_low edges_high : list Connection),
    (low <= high)%R ->
    _calculate_connections embeddings low = Ok edges_low ->
    _calculate_connections embeddings high = Ok edges_high ->
    edges_high = filter (fun e => Rgeb (strength e) high) edges_low.
Proof.
  intros E t1 t2 e1 e2 Ht H1 H2.
  pose proof (connections_array _ _ H1) as HA.
  rewrite (connections_spec t1 HA) in H1. injection H1 as <-.
  rewrite (connections_spec t2 HA) in H2. injection H2 as <-.
  apply edges_filter_threshold. exact Ht.
Qed.

Lemma twin_documents_connection_at (threshold : R) :
  (threshold <= 1)%R ->
  _calculate_connections twin_documents threshold
  = Ok [{| source := 0; target := 1; strength := 1%R |}].
Proof.
  intros Ht. rewrite connections_spec by reflexivity.
  change (index_pairs (length twin_documents)) with [(0, 1)]%nat.
  cbn [flat_map]. unfold edge_of. cbn [fst snd twin_documents nth].
  assert (Hnz : nonzero [1; 0]%R).
  { exists 1%R. split; [left; reflexivity | lra]. }
  rewrite (cosine_value_self Hnz).
  replace (Rgeb 1 threshold) with true
    by (symmetry; apply Rgeb_true; lra).
  reflexivity.
Qed.

Lemma connections_at_most_all_pairs_witness :
  (2 * length [{| source := 0; target := 1; strength := 1%R |}]
   <= length twin_documents * (length twin_documents - 1))%nat.
Proof.
  apply (@connections_at_most_all_pairs twin_documents (8 / 10)%R).
  apply twin_documents_connection_at. lra.
Defined.

Lemma connections_monotone_in_threshold_witness :
  [{| source := 0; target := 1; strength := 1%R |}]
  = filter (fun e => Rgeb (strength e) (8 / 10))
           [{| source := 0; target := 1; strength := 1%R |}].
Proof.
  apply (@connections_monotone_in_threshold twin_documents
           (5 / 10)%R (8 / 10)%R).
  - lra.
  - apply twin_documents_connection_at. lra.
  - apply twin_documents_connection_at. lra.
Defined.

(* ================================================================== *)
(** ** More on the cluster summaries *)

Lemma for_each_Ok_bodies (A S : Type) (l : list A)
      (body : A -> S -> result S) (s s' : S) :
  for_each l body s = Ok s' ->
  forall a, In a l -> exists s0 s1, body a s0 = Ok s1.
Proof.
  revert s. induction l as [| b l' IH]; intros s H a Hin; [contradiction |].
  cbn [for_each] in H. apply bind_Ok_inv in H. destruct H as [s1 [Hb Hl]].
  destruct Hin as [<- | Hin].
  - exists s, s1. exact Hb.
  - apply (IH s1 Hl a Hin).
Qed.

Lemma in_enumerate_from (A : Type) (l : list A) (k i : nat) (a : A) :
  nth_error l i = Some a ->
  In ((k + i)%nat, a) (combine (seq k (length l)) l).
Proof.
  revert k i. induction l as [| b l' IH]; intros k i H.
  - destruct i; discriminate H.
  - cbn [length seq combine]. destruct i as [| i'].
    + injection H as ->. left. rewrite Nat.add_0_r. reflexivity.
    + right. replace (k + S i')%nat with (S k + i')%nat by lia.
      apply IH. exact H.
Qed.

Lemma in_enumerate (A : Type) (l : list A) (i : nat) (a : A) :
  nth_error l i = Some a -> In (i, a) (enumerate l).
Proof.
  intros H. apply (in_enumerate_from l 0 i H).
Qed.

Lemma NoDup_map_eq (A B : Type) (f : A -> B) (l : list A) (a b : A) :
  NoDup (map f l) -> In a l -> In b l -> f a = f b -> a = b.
Proof.
  induction l as [| c l' IH]; intros Hnd Ha Hb Hf; [contradiction |].
  cbn [map] in Hnd. inversion Hnd as [| ? ? Hnot Hnd']; subst.
  destruct Ha as [-> | Ha]; destruct Hb as [-> | Hb].
  - reflexivity.
  - exfalso. apply Hnot. rewrite Hf. apply in_map. exact Hb.
  - exfalso. apply Hnot. rewrite <- Hf. apply in_map. exact Ha.
  - apply IH; assumption.
Qed.

Lemma cluster_info_index_bound (positions : list Position)
      (labels : list Z) (infos : list ClusterInfo) (i : nat) (label : Z) :
  _calculate_cluster_info positions labels = Ok infos ->
  positions <> [] ->
  nth_error labels i = Some label -> label <> (-1)%Z ->
  (i < length positions)%nat.
Proof.
  intros H HP Hi Hl.
  assert (HL : labels <> []) by (intros ->; destruct i; discriminate Hi).
  rewrite (cluster_info_unfold HP HL) in H.
  apply bind_Ok_inv in H. destruct H as [clusters [Hloop _]].
  destruct (for_each_Ok_bodies _ _ _ Hloop (i, label) (in_enumerate _ _ Hi))
    as [s0 [s1 Hstep]].
  unfold group_step in Hstep. cbn [fst snd] in Hstep.
  replace (Z.eqb label (-1)) with false in Hstep
    by (symmetry; apply Z.eqb_neq; exact Hl).
  cbv zeta in Hstep.
  apply bind_Ok_inv in Hstep. destruct Hstep as [p [Hp _]].
  apply getitem_positions_array in Hp. destruct Hp as [Hb _]. exact Hb.
Qed.

(** X9. Whenever [_calculate_cluster_info] returns, every index listed by
    a summary is a valid index of both inputs and carries the summary's
    label; with at least one position, every index whose label is not -1 is
    listed by exactly one summary; and when every label is -1 there is no
    summary at all. *)
Theorem cluster_summaries_partition :
  forall (positions : list Position) (labels : list Z)
         (infos : list ClusterInfo),
    _calculate_cluster_info positions labels = Ok infos ->
    (forall s i,
        In s infos -> In i (document_indices s) ->
        (i < length labels)%nat /\ (i < length positions)%nat
        /\ nth_error labels i = Some (cluster_id s))
    /\ (positions <> [] ->
        forall i label,
          nth_error labels i = Some label -> label <> (-1)%Z ->
          exists s,
            In s infos /\ In i (document_indices s)
            /\ forall s', In s' infos -> In i (document_indices s') ->
                          s' = s)
    /\ (Forall (fun l => l = (-1)%Z) labels -> infos = []).
Proof.
  intros P L infos H.
  destruct (cluster_info_spec _ _ H) as [Hnd [Hall Hcov]].
  rewrite Forall_forall in Hall.
  assert (Hmem : forall s i, In s infos -> In i (document_indices s) ->
            cluster_id s <> (-1)%Z
            /\ nth_error L i = Some (cluster_id s)).
  { intros s i Hs Hi. destruct (Hall s Hs) as [Hid [Hdocs _]].
    split; [exact Hid |]. rewrite Hdocs in Hi.
    apply (in_indices_of _ _ Hid). exact Hi. }
  assert (HP : infos <> [] -> P <> []).
  { intros Hne ->. simpl in H. injection H as <-. contradiction. }
  split; [| split].
  - intros s i Hs Hi. destruct (Hmem s i Hs Hi) as [Hid Hnth].
    split; [| split; [| exact Hnth]].
    + apply nth_error_Some. rewrite Hnth. discriminate.
    + apply (@cluster_info_index_bound P L infos i (cluster_id s) H);
        try assumption.
      apply HP. intros ->. contradiction.
  - intros HPne i label Hi Hl.
    destruct (Hcov HPne i label Hi Hl) as [s [Hs [Hid Hin]]].
    exists s. split; [exact Hs |]. split; [exact Hin |].
    intros s' Hs' Hin'. destruct (Hmem s' i Hs' Hin') as [_ Hnth].
    rewrite Hi in Hnth. injection Hnth as Heq.
    apply (@NoDup_map_eq _ _ cluster_id infos s' s Hnd Hs' Hs).
    rewrite Hid. symmetry. exact Heq.
  - intros Hnoise. destruct infos as [| s rest]; [reflexivity |].
    exfalso. destruct (Hall s (or_introl eq_refl)) as [Hid [_ [Hne _]]].
    destruct (document_indices s) as [| i rest'] eqn:Hdocs;
      [contradiction |].
    destruct (Hmem s i (or_introl eq_refl)) as [_ Hnth];
      [rewrite Hdocs; left; reflexivity |].
    apply nth_error_In in Hnth. rewrite Forall_forall in Hnoise.
    apply Hid. apply Hnoise. exact Hnth.
Qed.

Lemma cluster_summaries_partition_witness :
  exists infos : list ClusterInfo,
    _calculate_cluster_info two_projected [0%Z; (-1)%Z] = Ok infos
    /\ (forall s i,
          In s infos -> In i (document_indices s) ->
          (i < 2)%nat /\ (i < 2)%nat
          /\ nth_error [0%Z; (-1)%Z] i = Some (cluster_id s))
    /\ exists s,
         In s infos /\ In 0%nat (document_indices s)
         /\ forall s', In s' infos -> In 0%nat (document_indices s') ->
                       s' = s.
Proof.
  destruct (@cluster_info_total two_projected [0%Z; (-1)%Z]) as [infos H];
    [simpl; lia |].
  exists infos. split; [exact H |].
  destruct (@cluster_summaries_partition two_projected [0%Z; (-1)%Z]
              infos H) as [Hbound [Hunique _]].
  split; [exact Hbound |].
  apply (Hunique ltac:(discriminate) 0%nat 0%Z); [reflexivity | lia].
Defined.

(* ================================================================== *)
(** ** The layout as a whole *)

Lemma map_snd_enumerate_from (A : Type) (l : list A) (k : nat) :
  map snd (combine (seq k (length l)) l) = l.
Proof.
  revert k. induction l as [| a l' IH]; intros k; [reflexivity |].
  cbn [length seq combine map snd]. rewrite IH. reflexivity.
Qed.

Lemma organize_Ok_inv (Doc : Type) (self : SpatialOrganizer) (rt : Runtime)
      (docs : list Doc) (E : list (list R)) (layout : Layout Doc) :
  docs <> [] -> E <> [] ->
  organize_spatial_layout self rt docs E = Ok layout ->
  exists positions labels,
    calculate_3d_positions self rt E "pca" = Ok positions
    /\ cluster_documents rt E "hdbscan" None = Ok labels
    /\ _calculate_connections E (8 / 10)%R = Ok (connections layout)
    /\ _calculate_cluster_info positions labels = Ok (clusters layout)
    /\ documents layout
       = map (fun id =>
                {| doc := snd id;
                   position := nth (fst id) positions origin;
                   cluster := nth (fst id) labels (-1)%Z |})
             (enumerate docs).
Proof.
  intros Hd HE H. rewrite (organize_unfold _ _ Hd HE) in H.
  apply bind_Ok_inv in H. destruct H as [positions [Hpos H]].
  apply bind_Ok_inv in H. destruct H as [labels [Hlab H]].
  apply bind_Ok_inv in H. destruct H as [conns [Hconn H]].
  apply bind_Ok_inv in H. destruct H as [infos [Hinfo H]].
  injection H as <-. exists positions, labels.
  repeat split; assumption.
Qed.

(** X10. Whenever [organize_spatial_layout] returns on at least one
    embedding, the layout lists the documents it was given, unchanged and
    in order; every connection joins two valid, distinct document indices
    with a strength between 0.8 and 1; and every index listed by a cluster
    summary is a valid document index.  The estimators are assumed to
    return one label per sample. *)
Theorem organize_layout_consistent :
  forall (Doc : Type) (self : SpatialOrganizer) (rt : Runtime)
         (docs : list Doc) (embeddings : list (list R))
         (layout : Layout Doc),
    sklearn_contract rt ->
    embeddings <> [] ->
    organize_spatial_layout self rt docs embeddings = Ok layout ->
    map (@doc Doc) (documents layout) = docs
    /\ Forall (fun e =>
                 (source e < target e < length embeddings)%nat
                 /\ (8 / 10 <= strength e <= 1)%R)
              (connections layout)
    /\ Forall (fun s =>
                 Forall (fun i => (i < length embeddings)%nat)
                        (document_indices s))
              (clusters layout).
Proof.
  intros Doc self rt docs E layout C HE H.
  assert (Hcases : docs = [] \/ docs <> [])
    by (destruct docs; [left; reflexivity | right; discriminate]).
  destruct Hcases as [-> | Hd].
  { destruct E; [contradiction |]. injection H as <-.
    repeat split; constructor. }
  destruct (organize_Ok_inv _ _ Hd HE H)
    as [positions [labels [Hpos [Hlab [Hconn [Hinfo Hdocs]]]]]].
  split; [| split].
  - rewrite Hdocs, map_map. cbn [doc]. unfold enumerate.
    apply map_snd_enumerate_from.
  - pose proof (connections_array _ _ Hconn) as HA.
    rewrite (connections_spec (8 / 10)%R HA) in Hconn.
    injection Hconn as Hconn. rewrite <- Hconn.
    apply Forall_forall. intros e Hin.
    apply (edge_characterisation (8 / 10)%R e HA) in Hin.
    destruct Hin as [Hij [vi [vj [_ [_ [Hcos Hge]]]]]].
    split; [exact Hij |].
    destruct (cosine_Ok_inv _ _ Hcos) as [_ Hs].
    pose proof (cosine_value_bounds vi vj). lra.
  - pose proof (cluster_documents_length _ _ _ C Hlab) as Hlen.
    destruct (cluster_info_spec _ _ Hinfo) as [_ [Hall _]].
    rewrite Forall_forall in *. intros s Hs.
    destruct (Hall s Hs) as [Hid [Hidx _]].
    apply Forall_forall. intros i Hi. rewrite Hidx in Hi.
    apply (in_indices_of _ _ Hid) in Hi.
    rewrite <- Hlen. apply nth_error_Some. rewrite Hi. discriminate.
Qed.

Lemma organize_layout_consistent_witness :
  exists layout : Layout string,
    organize_spatial_layout spatial_organizer
      (toy_runtime true false false tsne_zero inertia_zero)
      ["a"; "b"]%string two_documents
    = Ok layout
    /\ map (@doc string) (documents layout) = ["a"; "b"]%string
    /\ Forall (fun e =>
                 (source e < target e < length two_documents)%nat
                 /\ (8 / 10 <= strength e <= 1)%R)
              (connections layout)
    /\ Forall (fun s =>
                 Forall (fun i => (i < length two_documents)%nat)
                        (document_indices s))
              (clusters layout).
Proof.
  destruct organize_two_documents as [layout Hlayout].
  exists layout. split; [exact Hlayout |].
  apply (@organize_layout_consistent string spatial_organizer
           (toy_runtime true false false tsne_zero inertia_zero)
           ["a"; "b"]%string two_documents layout).
  - apply toy_runtime_contract. exact tsne_zero_shape.
  - discriminate.
  - exact Hlayout.
Defined.

Lemma pca_positions_total (self : SpatialOrganizer) (rt : Runtime)
      (X : Np.ndarray) :
  (forall Y, exists Z, scaler_fit_transform rt Y = Ok Z) ->
  (forall k Y, exists Z, pca_fit_transform rt k Y = Ok Z) ->
  exists P, _pca_positions self rt X = Ok P.
Proof.
  intros Hs Hp. unfold _pca_positions.
  destruct (Nat.eqb (Np.shape0 X) 1); [eexists; reflexivity |].
  destruct (Hs X) as [S ->]. cbn [bind].
  match goal with
  | |- context [pca_fit_transform rt ?k S] =>
      destruct (Hp k S) as [Y ->]
  end.
  cbn [bind]. eexists. reflexivity.
Qed.

Lemma calculate_pca_total (self : SpatialOrganizer) (rt : Runtime)
      (E : list (list R)) :
  sklearn_contract rt -> (n_components self <= 3)%nat ->
  Np.array E = Ok E -> E <> [] ->
  (forall Y, exists Z, scaler_fit_transform rt Y = Ok Z) ->
  (forall k Y, exists Z, pca_fit_transform rt k Y = Ok Z) ->
  exists ps, calculate_3d_positions self rt E "pca" = Ok ps
             /\ length ps = length E.
Proof.
  intros C Hk HA HE Hs Hp.
  destruct (@pca_positions_total self rt E Hs Hp) as [P HP].
  assert (HP' : project_by_method self rt "pca" E = Ok P) by exact HP.
  pose proof (project_by_method_shape _ _ C Hk HE HP') as Hshape.
  destruct (rows_of_shape3 Hshape) as [ps0 [-> Hlen]].
  assert (Hne0 : ps0 <> []).
  { destruct ps0; [| discriminate].
    destruct E; [contradiction | discriminate Hlen]. }
  destruct (@max_nonempty _ distance_from_origin
              (map (psub (centroid ps0)) ps0)) as [d Hd].
  { destruct ps0; [contradiction | discriminate]. }
  pose proof (array_Ok_inv _ HA) as [_ Hrect].
  eexists. split.
  - apply (calculate_of_projection _ _ _ HE Hne0 Hrect HP' Hd).
  - destruct (Rgtb d 0); rewrite ?length_map; exact Hlen.
Qed.

(** X11. On well-formed, non-degenerate input the organizer of the module
    does not fail on its own: when every row has the same length and the
    scaler, PCA, HDBSCAN and DBSCAN return (with the documented shapes),
    [organize_spatial_layout] returns a layout. *)
Theorem organize_returns :
  forall (Doc : Type) (rt : Runtime) (docs : list Doc)
         (embeddings : list (list R)),
    sklearn_contract rt ->
    Np.array embeddings = Ok embeddings ->
    (forall Y, exists Z, scaler_fit_transform rt Y = Ok Z) ->
    (forall k Y, exists Z, pca_fit_transform rt k Y = Ok Z) ->
    (forall m Y, exists L, hdbscan_fit_predict rt m Y = Ok L) ->
    (forall e m Y, exists L, dbscan_fit_predict rt e m Y = Ok L) ->
    exists layout : Layout Doc,
      organize_spatial_layout spatial_organizer rt docs embeddings
      = Ok layout.
Proof.
  intros Doc rt docs E C HA Hs Hp Hh Hd.
  assert (Hcases : docs = [] \/ E = [] \/ (docs <> [] /\ E <> [])).
  { destruct docs; [left; reflexivity |].
    destruct E; [right; left; reflexivity |].
    right. right. split; discriminate. }
  destruct Hcases as [-> | [-> | [Hdocs HE]]].
  - eexists. reflexivity.
  - eexists. destruct docs; reflexivity.
  - rewrite (organize_unfold _ _ Hdocs HE).
    destruct (@calculate_pca_total spatial_organizer rt E C
                ltac:(simpl; lia) HA HE Hs Hp) as [ps [Hps Hlen]].
    rewrite Hps. cbn [bind].
    assert (Hlab : exists labels,
               cluster_documents rt E "hdbscan" None = Ok labels).
    { destruct (Nat.lt_ge_cases (length E) 2) as [Hlt | Hge].
      - rewrite cluster_documents_small by exact Hlt. eexists. reflexivity.
      - rewrite (cluster_documents_branches rt "hdbscan" None HA Hge).
        cbn [String.eqb Ascii.eqb Bool.eqb truthy andb].
        destruct (HAS_HDBSCAN rt); [apply Hh | apply Hd]. }
    destruct Hlab as [labels Hlab]. rewrite Hlab. cbn [bind].
    rewrite (connections_spec _ HA). cbn [bind].
    pose proof (cluster_documents_length _ _ _ C Hlab) as Hll.
    destruct (@cluster_info_total ps labels) as [infos Hinfos]; [lia |].
    rewrite Hinfos. cbn [bind]. eexists. reflexivity.
Qed.

Lemma organize_returns_witness :
  exists layout : Layout string,
    organize_spatial_layout spatial_organizer
      (toy_runtime false false false tsne_zero inertia_zero)
      ["a"; "b"; "c"]%string scenario_documents
    = Ok layout.
Proof.
  apply (@organize_returns string
           (toy_runtime false false false tsne_zero inertia_zero)
           ["a"; "b"; "c"]%string scenario_documents).
  - apply toy_runtime_contract. exact tsne_zero_shape.
  - reflexivity.
  - intros Y. eexists. reflexivity.
  - intros k Y. eexists. reflexivity.
  - intros m Y. eexists. reflexivity.
  - intros e m Y. eexists. reflexivity.
Defined.

(* ================================================================== *)
(** ** The range of the suggested cluster count *)

Lemma suggest_Ok_cases (rt : Runtime) (E : list (list R)) (k : nat) :
  suggest_optimal_clusters rt E = Ok k ->
  ((length E < 3)%nat /\ k = 1%nat)
  \/ (length E = 3%nat /\ k = 2%nat)
  \/ ((4 <= length E)%nat
      /\ exists i, k = (i + 2)%nat
                   /\ (i < Nat.min 10 (length E - 1) - 2)%nat).
Proof.
  unfold suggest_optimal_clusters.
  destruct (Nat.ltb (length E) 3) eqn:Hlt.
  { apply Nat.ltb_lt in Hlt. intros H. injection H as <-.
    left. split; [exact Hlt | reflexivity]. }
  apply Nat.ltb_ge in Hlt. intros H.
  apply bind_Ok_inv in H. destruct H as [A [HA H]].
  apply bind_Ok_inv in H. destruct H as [inertias [Hfit H]].
  pose proof (map_m_length _ _ Hfit) as Hlen.
  unfold range in Hlen. rewrite length_seq in Hlen.
  destruct (Nat.ltb (length inertias) 3) eqn:Hshort.
  - apply Nat.ltb_lt in Hshort. injection H as <-.
    right. left. split; [lia | reflexivity].
  - apply Nat.ltb_ge in Hshort.
    apply bind_Ok_inv in H. destruct H as [i [Hi H]].
    injection H as <-. right. right. split; [lia |].
    exists i. split; [reflexivity |].
    assert (Hne : second_derivative inertias <> []).
    { intros Hnil. apply (f_equal (@length R)) in Hnil.
      rewrite second_derivative_length in Hnil. simpl in Hnil. lia. }
    destruct (argmax_spec Hne) as [i' [Hi' [Hb _]]].
    rewrite Hi in Hi'. injection Hi' as <-.
    rewrite second_derivative_length in Hb. lia.
Qed.

(** X12. Whatever [suggest_optimal_clusters] returns is between 1 and 9;
    with three embeddings or more it is between 2 and N - 1; and passing it
    as [n_clusters] to [cluster_documents] with method "kmeans" on N >= 2
    embeddings runs KMeans with exactly that many clusters. *)
Theorem suggested_count_in_range :
  forall (rt : Runtime) (embeddings : list (list R)) (k : nat),
    suggest_optimal_clusters rt embeddings = Ok k ->
    (1 <= k <= 9)%nat
    /\ ((3 <= length embeddings)%nat ->
        (2 <= k <= length embeddings - 1)%nat)
    /\ ((2 <= length embeddings)%nat ->
        Np.array embeddings = Ok embeddings ->
        cluster_documents rt embeddings "kmeans" (Some (Z.of_nat k))
        = kmeans_fit_predict rt (Z.of_nat k) embeddings).
Proof.
  intros rt E k H.
  pose proof (suggest_Ok_cases _ _ H) as Hcases.
  assert (Hk : (1 <= k <= 9)%nat /\ ((2 <= length E)%nat ->
                 (k <= length E)%nat)
               /\ ((3 <= length E)%nat -> (2 <= k <= length E - 1)%nat)).
  { destruct Hcases as [[Hn ->] | [[Hn ->] | [Hn [i [-> Hi]]]]]; lia. }
  destruct Hk as [Hrange [Hle Hthree]].
  split; [exact Hrange |]. split; [exact Hthree |].
  intros Hlen HA.
  rewrite (cluster_documents_branches rt "kmeans"
             (Some (Z.of_nat k)) HA Hlen).
  assert (Ht : truthy (Some (Z.of_nat k)) = true).
  { unfold truthy. destruct (Z.eqb_spec (Z.of_nat k) 0); [lia | reflexivity]. }
  rewrite Ht. cbn [String.eqb Ascii.eqb Bool.eqb andb].
  rewrite Z.min_l by (specialize (Hle Hlen); lia).
  reflexivity.
Qed.

Lemma five_documents_suggestion :
  exists k : nat,
    suggest_optimal_clusters
      (toy_runtime true false false tsne_zero inertia_table) five_documents
    = Ok k.
Proof. eexists. reflexivity. Qed.

Lemma suggested_count_in_range_witness :
  exists k : nat,
    suggest_optimal_clusters
      (toy_runtime true false false tsne_zero inertia_table) five_documents
    = Ok k
    /\ (1 <= k <= 9)%nat
    /\ (2 <= k <= length five_documents - 1)%nat
    /\ cluster_documents
         (toy_runtime true false false tsne_zero inertia_table)
         five_documents "kmeans" (Some (Z.of_nat k))
       = kmeans_fit_predict
           (toy_runtime true false false tsne_zero inertia_table)
           (Z.of_nat k) five_documents.
Proof.
  destruct five_documents_suggestion as [k Hk].
  exists k. split; [exact Hk |].
  destruct (@suggested_count_in_range
              (toy_runtime true false false tsne_zero inertia_table)
              five_documents k Hk) as [Hrange [Hthree Hrun]].
  split; [exact Hrange |]. split.
  - apply Hthree. simpl. lia.
  - apply Hrun; [simpl; lia | reflexivity].
Defined.

(* ================================================================== *)
(** ** The labels of the simple document listing *)

Lemma simple_n_clusters_range (n : nat) :
  (1 <= n <= 200)%nat ->
  let k := if Nat.leb n 20 then Z.min 3 (Z.of_nat (n / 5) + 1)
           else if Nat.leb n 100 then 5%Z else 8%Z in
  (1 <= k <= 8)%Z /\ (k <= Z.of_nat n)%Z.
Proof.
  intros Hn. cbv zeta.
  destruct (Nat.leb n 20) eqn:H20.
  - apply Nat.leb_le in H20.
    assert (Hdiv : (n / 5 <= n)%nat) by (apply Nat.Div0.div_le_upper_bound; lia).
    assert (Hq : (5 * (n / 5) <= n)%nat) by (apply Nat.Div0.mul_div_le).
    split; [lia |].
    destruct (Nat.eq_dec (n / 5) 0) as [H0 | H0]; lia.
  - apply Nat.leb_gt in H20.
    destruct (Nat.leb n 100) eqn:H100.
    + apply Nat.leb_le in H100. lia.
    + apply Nat.leb_gt in H100. lia.
Qed.

Lemma simple_labels_unfold (rt : Runtime) (E : list (list R)) :
  (1 <= length E <= 200)%nat ->
  simple_cluster_labels rt E
  = match cluster_documents rt E "kmeans"
            (Some (if Nat.leb (length E) 20
                   then Z.min 3 (Z.of_nat (length E / 5) + 1)
                   else if Nat.leb (length E) 100 then 5%Z else 8%Z)) with
    | Ok cluster_labels => cluster_labels
    | Raise _ => map (fun i => Z.of_nat (i mod 5)) (range 0 (length E))
    end.
Proof.
  intros Hn. unfold simple_cluster_labels.
  destruct E as [| v E']; [simpl in Hn; lia |].
  replace (Nat.ltb 200 (length (v :: E'))) with false
    by (symmetry; apply Nat.ltb_ge; lia).
  reflexivity.
Qed.

Lemma hash_cluster_id_range (emb : list R) :
  (0 <= hash_cluster_id emb 10 <= 9)%Z.
Proof.
  unfold hash_cluster_id.
  pose proof (Z.mod_pos_bound
                (Int_part (Rabs
                   ((if Nat.leb 3 (length emb)
                     then py_sum (firstn 3 emb) else py_sum emb) * 100)))
                10 ltac:(lia)).
  lia.
Qed.

(** X13. The label list computed for the simple document listing has
    exactly one label per embedding, whether the hash, KMeans or the
    fallback after a failure produced it; so no document is left with the
    default cluster -1 for want of a label.  Above two hundred embeddings
    every label is between 0 and 9.  KMeans is assumed to return one label
    per sample. *)
Theorem simple_labels_one_per_document :
  forall (rt : Runtime) (embeddings : list (list R)),
    sklearn_contract rt ->
    length (simple_cluster_labels rt embeddings) = length embeddings
    /\ ((200 < length embeddings)%nat ->
        Forall (fun l => (0 <= l <= 9)%Z)
               (simple_cluster_labels rt embeddings)).
Proof.
  intros rt E C. split.
  - destruct (Nat.eq_dec (length E) 0) as [H0 | H0].
    { destruct E; [reflexivity | discriminate H0]. }
    destruct (Nat.lt_ge_cases 200 (length E)) as [Hbig | Hsmall].
    + unfold simple_cluster_labels. destruct E as [| v E']; [reflexivity |].
      replace (Nat.ltb 200 (length (v :: E'))) with true
        by (symmetry; apply Nat.ltb_lt; exact Hbig).
      cbv zeta. apply length_map.
    + rewrite simple_labels_unfold by lia.
      destruct (cluster_documents rt E "kmeans" _) as [labels | e] eqn:Hrun.
      * apply (cluster_documents_length _ _ _ C Hrun).
      * rewrite length_map. unfold range. rewrite length_seq. lia.
  - intros Hbig. unfold simple_cluster_labels.
    destruct E as [| v E']; [constructor |].
    replace (Nat.ltb 200 (length (v :: E'))) with true
      by (symmetry; apply Nat.ltb_lt; exact Hbig).
    cbv zeta. apply Forall_forall. intros l Hin.
    apply in_map_iff in Hin. destruct Hin as [emb [<- _]].
    apply hash_cluster_id_range.
Qed.

Lemma simple_labels_one_per_document_witness :
  length (simple_cluster_labels
            (toy_runtime true false false tsne_zero inertia_zero)
            two_documents)
  = length two_documents.
Proof.
  apply (@simple_labels_one_per_document
           (toy_runtime true false false tsne_zero inertia_zero)
           two_documents).
  apply toy_runtime_contract. exact tsne_zero_shape.
Defined.

(** X14. For one to two hundred well-formed embeddings (at least two) the
    simple listing asks KMeans for a count between 1 and 8 that does not
    exceed the number of embeddings: [cluster_documents] then runs KMeans
    with exactly that count, never the density fallback; and if that
    raises, document i gets the label i mod 5. *)
Theorem simple_labels_use_kmeans :
  forall (rt : Runtime) (embeddings : list (list R)),
    (2 <= length embeddings <= 200)%nat ->
    Np.array embeddings = Ok embeddings ->
    exists k : Z,
      (1 <= k <= 8)%Z /\ (k <= Z.of_nat (length embeddings))%Z
      /\ simple_cluster_labels rt embeddings
         = match kmeans_fit_predict rt k embeddings with
           | Ok cluster_labels => cluster_labels
           | Raise _ =>
               map (fun i => Z.of_nat (i mod 5))
                   (range 0 (length embeddings))
           end.
Proof.
  intros rt E Hn HA.
  destruct (@simple_n_clusters_range (length E) ltac:(lia)) as [Hk HkN].
  set (k := if Nat.leb (length E) 20
            then Z.min 3 (Z.of_nat (length E / 5) + 1)
            else if Nat.leb (length E) 100 then 5%Z else 8%Z) in *.
  exists k. split; [exact Hk |]. split; [exact HkN |].
  rewrite simple_labels_unfold by lia. fold k.
  rewrite (cluster_documents_branches rt "kmeans" (Some k) HA
             ltac:(lia)).
  assert (Ht : truthy (Some k) = true).
  { unfold truthy. destruct (Z.eqb_spec k 0); [lia | reflexivity]. }
  rewrite Ht. cbn [String.eqb Ascii.eqb Bool.eqb andb].
  rewrite Z.min_l by lia. reflexivity.
Qed.

Lemma simple_labels_use_kmeans_witness :
  exists k : Z,
    (1 <= k <= 8)%Z /\ (k <= Z.of_nat (length five_documents))%Z
    /\ simple_cluster_labels
         (toy_runtime true false false tsne_zero inertia_zero)
         five_documents
       = match kmeans_fit_predict
                 (toy_runtime true false false tsne_zero inertia_zero)
                 k five_documents with
         | Ok cluster_labels => cluster_labels
         | Raise _ =>
             map (fun i => Z.of_nat (i mod 5))
                 (range 0 (length five_documents))
         end.
Proof.
  apply (@simple_labels_use_kmeans
           (toy_runtime true false false tsne_zero inertia_zero)
           five_documents).
  - simpl. lia.
  - reflexivity.
Defined.

(* ================================================================== *)
(** ** The uniqueness score of the deep-dive analysis *)

Section Uniqueness.

Local Open Scope R_scope.

Lemma fold_left_Rplus (l : list R) (a : R) :
  fold_left Rplus l a = a + Np.sum l.
Proof.
  revert a. induction l as [| u l' IH]; intros a.
  - simpl. ring.
  - cbn [fold_left Np.sum fold_right]. fold (Np.sum l').
    rewrite IH. ring.
Qed.

Lemma py_sum_sum (l : list R) : py_sum l = Np.sum l.
Proof. unfold py_sum. rewrite fold_left_Rplus. ring. Qed.

End Uniqueness.

(** X15. [calculate_uniqueness_score] always answers between 0 and 1; it
    answers 1 when there is no similar document; and when every score lies
    between 0 and 1 the clamp is idle: the answer is exactly one minus the
    mean score. *)
Theorem uniqueness_score_range :
  forall similar_docs : list SimilarDoc,
    (0 <= calculate_uniqueness_score similar_docs <= 1)%R
    /\ (similar_docs = [] ->
        calculate_uniqueness_score similar_docs = 1%R)
    /\ (similar_docs <> [] ->
        Forall (fun d => (0 <= score d <= 1)%R) similar_docs ->
        calculate_uniqueness_score similar_docs
        = (1 - Np.mean (map score similar_docs))%R).
Proof.
  intros docs. split; [| split].
  - unfold calculate_uniqueness_score. destruct docs as [| d docs'].
    + lra.
    + cbv zeta.
      match goal with
      | |- (0 <= Rmax 0 (Rmin 1 ?u) <= 1)%R =>
          pose proof (Rmax_l 0 (Rmin 1 u));
          pose proof (Rmin_l 1 u);
          assert (Rmax 0 (Rmin 1 u) <= 1)%R
            by (apply Rmax_lub; lra)
      end.
      lra.
  - intros ->. reflexivity.
  - intros Hne Hall. unfold calculate_uniqueness_score.
    destruct docs as [| d docs']; [contradiction |].
    cbv zeta. rewrite py_sum_sum.
    assert (Hm : (0 <= Np.mean (map score (d :: docs')) <= 1)%R).
    { apply mean_bounds; [discriminate |].
      apply Forall_forall. intros v Hin. apply in_map_iff in Hin.
      destruct Hin as [q [<- Hq]].
      rewrite Forall_forall in Hall. apply Hall. exact Hq. }
    unfold Np.mean in *. rewrite length_map in *.
    set (avg := (Np.sum (map score (d :: docs'))
                 / INR (length (d :: docs')))%R) in *.
    rewrite Rmin_right by lra. rewrite Rmax_right by lra. reflexivity.
Qed.

Lemma uniqueness_score_range_witness :
  calculate_uniqueness_score [] = 1%R
  /\ calculate_uniqueness_score [{| score := 1 |}; {| score := 0 |}]%R
     = (1 - Np.mean (map score [{| score := 1 |}; {| score := 0 |}]))%R.
Proof.
  split.
  - apply (proj1 (proj2 (uniqueness_score_range []))). reflexivity.
  - apply (proj2 (proj2 (uniqueness_score_range
                           [{| score := 1 |}; {| score := 0 |}]%R))).
    + discriminate.
    + repeat constructor; simpl; lra.
Defined.

(* ================================================================== *)
(** ** Counting the connections of each document *)

Lemma find_app_first (A : Type) (f : A -> bool) (l1 l2 : list A) :
  find f (l1 ++ l2)
  = match find f l1 with
    | Some a => Some a
    | None => find f l2
    end.
Proof.
  induction l1 as [| a l1' IH]; [reflexivity |].
  cbn [app find]. destruct (f a); [reflexivity | exact IH].
Qed.

Lemma find_other_key (d : list (nat * nat)) (k v k' : nat) :
  k' <> k ->
  find (fun kv => Nat.eqb (fst kv) k')
       (map (fun kv => if Nat.eqb (fst kv) k then (k, v) else kv) d)
  = find (fun kv => Nat.eqb (fst kv) k') d.
Proof.
  intros Hne. induction d as [| [a b] d' IH]; [reflexivity |].
  cbn [map find fst]. destruct (Nat.eqb_spec a k) as [-> | Hak].
  - cbn [fst]. replace (Nat.eqb k k') with false
      by (symmetry; apply Nat.eqb_neq; intros H; apply Hne; symmetry;
          exact H).
    exact IH.
  - cbn [fst]. destruct (Nat.eqb a k'); [reflexivity | exact IH].
Qed.

Lemma find_same_key (d : list (nat * nat)) (k v : nat) :
  existsb (fun kv => Nat.eqb (fst kv) k) d = true ->
  find (fun kv => Nat.eqb (fst kv) k)
       (map (fun kv => if Nat.eqb (fst kv) k then (k, v) else kv) d)
  = Some (k, v).
Proof.
  induction d as [| [a b] d' IH]; [discriminate |].
  cbn [existsb map find fst]. destruct (Nat.eqb_spec a k) as [-> | Hak].
  - intros _. cbn [fst]. rewrite Nat.eqb_refl. reflexivity.
  - cbn [orb fst]. intros Hex.
    replace (Nat.eqb a k) with false
      by (symmetry; apply Nat.eqb_neq; exact Hak).
    apply IH. exact Hex.
Qed.

Lemma find_missing_key (d : list (nat * nat)) (k : nat) :
  existsb (fun kv => Nat.eqb (fst kv) k) d = false ->
  find (fun kv => Nat.eqb (fst kv) k) d = None.
Proof.
  induction d as [| [a b] d' IH]; [reflexivity |].
  cbn [existsb find fst]. destruct (Nat.eqb a k); [discriminate |].
  exact IH.
Qed.

(** Reading a dict after a write. *)
Lemma dict_get_set (d : list (nat * nat)) (k v k' default : nat) :
  dict_get (dict_set d k v) k' default
  = if Nat.eqb k' k then v else dict_get d k' default.
Proof.
  unfold dict_get, dict_set.
  destruct (Nat.eqb_spec k' k) as [-> | Hne];
    destruct (existsb (fun kv => Nat.eqb (fst kv) k) d) eqn:Hex.
  - rewrite (@find_same_key d k v Hex). reflexivity.
  - rewrite find_app_first, (@find_missing_key d k Hex).
    cbn [find fst]. rewrite Nat.eqb_refl. reflexivity.
  - rewrite (@find_other_key d k v k' Hne). reflexivity.
  - rewrite find_app_first.
    destruct (find (fun kv => Nat.eqb (fst kv) k') d); [reflexivity |].
    cbn [find fst].
    replace (Nat.eqb k k') with false
      by (symmetry; apply Nat.eqb_neq; intros H; apply Hne; symmetry;
          exact H).
    reflexivity.
Qed.

Lemma dict_set_keys (d : list (nat * nat)) (k v : nat) :
  map fst (dict_set d k v)
  = if existsb (fun kv => Nat.eqb (fst kv) k) d
    then map fst d else map fst d ++ [k].
Proof.
  unfold dict_set.
  destruct (existsb (fun kv => Nat.eqb (fst kv) k) d).
  - rewrite map_map. apply map_ext. intros [a b]. cbn [fst].
    destruct (Nat.eqb_spec a k) as [-> | _]; reflexivity.
  - rewrite map_app. reflexivity.
Qed.

Lemma dict_set_NoDup (d : list (nat * nat)) (k v : nat) :
  NoDup (map fst d) -> NoDup (map fst (dict_set d k v)).
Proof.
  intros Hnd. rewrite dict_set_keys.
  destruct (existsb (fun kv => Nat.eqb (fst kv) k) d) eqn:Hex;
    [exact Hnd |].
  apply NoDup_app; [exact Hnd | constructor; [intros [] | constructor] |].
  intros a Hin [Heq | []]. subst a.
  apply in_map_iff in Hin. destruct Hin as [[a' b] [Ha Hin]].
  cbn [fst] in Ha. subst a'.
  assert (Htrue : existsb (fun kv => Nat.eqb (fst kv) k) d = true).
  { apply existsb_exists. exists (k, b). split; [exact Hin |].
    apply Nat.eqb_refl. }
  rewrite Htrue in Hex. discriminate Hex.
Qed.

Lemma dict_set_keys_incl (d : list (nat * nat)) (k v k' : nat) :
  In k' (map fst (dict_set d k v)) -> k' = k \/ In k' (map fst d).
Proof.
  rewrite dict_set_keys.
  destruct (existsb (fun kv => Nat.eqb (fst kv) k) d).
  - intros H. right. exact H.
  - intros H. apply in_app_or in H. destruct H as [H | [<- | []]].
    + right. exact H.
    + left. reflexivity.
Qed.

Lemma connection_counts_from (conns : list Connection)
      (acc : list (nat * nat)) (k : nat) :
  dict_get
    (fold_left
       (fun counts conn =>
          dict_set (dict_set counts (source conn)
                             (dict_get counts (source conn) 0 + 1))
                   (target conn)
                   (dict_get (dict_set counts (source conn)
                                       (dict_get counts (source conn) 0 + 1))
                             (target conn) 0 + 1))
       conns acc) k 0
  = dict_get acc k 0 + degree conns k.
Proof.
  revert acc. induction conns as [| e conns' IH]; intros acc.
  - unfold degree. simpl. lia.
  - cbn [fold_left]. rewrite IH. rewrite !dict_get_set.
    unfold degree. cbn [filter].
    rewrite (Nat.eqb_sym k (target e)), (Nat.eqb_sym k (source e)).
    rewrite (Nat.eqb_sym (target e) (source e)).
    destruct (Nat.eqb_spec (source e) k) as [Hs | Hs];
      destruct (Nat.eqb_spec (target e) k) as [Ht | Ht];
      cbn [length].
    + replace (Nat.eqb (source e) (target e)) with true
        by (symmetry; apply Nat.eqb_eq; congruence).
      rewrite Hs. lia.
    + rewrite Hs. lia.
    + replace (Nat.eqb (source e) (target e)) with false
        by (symmetry; apply Nat.eqb_neq; congruence).
      rewrite Ht. lia.
    + lia.
Qed.

Lemma connection_counts_keys (conns : list Connection)
      (acc : list (nat * nat)) :
  NoDup (map fst acc) ->
  let counts :=
    fold_left
      (fun counts conn =>
         dict_set (dict_set counts (source conn)
                            (dict_get counts (source conn) 0 + 1))
                  (target conn)
                  (dict_get (dict_set counts (source conn)
                                      (dict_get counts (source conn) 0 + 1))
                            (target conn) 0 + 1))
      conns acc in
  NoDup (map fst counts)
  /\ forall k, In k (map fst counts) ->
               In k (map fst acc)
               \/ exists e, In e conns /\ (source e = k \/ target e = k).
Proof.
  revert acc. induction conns as [| e conns' IH]; intros acc Hnd.
  - cbn [fold_left]. split; [exact Hnd |]. intros k Hk. left. exact Hk.
  - cbn [fold_left]. cbv zeta.
    set (acc1 := dict_set (dict_set acc (source e) _) (target e) _).
    assert (Hnd1 : NoDup (map fst acc1))
      by (unfold acc1; apply dict_set_NoDup, dict_set_NoDup; exact Hnd).
    destruct (IH acc1 Hnd1) as [Hres Hkeys].
    split; [exact Hres |].
    intros k Hk. destruct (Hkeys k Hk) as [Hin | [e' [He' Hends]]].
    + unfold acc1 in Hin.
      apply dict_set_keys_incl in Hin. destruct Hin as [-> | Hin].
      { right. exists e. split; [left; reflexivity | right; reflexivity]. }
      apply dict_set_keys_incl in Hin. destruct Hin as [-> | Hin].
      { right. exists e. split; [left; reflexivity | left; reflexivity]. }
      left. exact Hin.
    + right. exists e'. split; [right; exact He' | exact Hends].
Qed.

(** X16. In the statistics, the count recorded for a document index is the
    number of connections it is an end of (0, the default, for an index
    that is not recorded); no index is recorded twice, and a recorded
    index is an end of some connection. *)
Theorem connection_counts_are_degrees :
  forall connections : list Connection,
    (forall k, dict_get (connection_counts connections) k 0
               = degree connections k)
    /\ NoDup (map fst (connection_counts connections))
    /\ (forall k,
          In k (map fst (connection_counts connections)) ->
          exists e, In e connections /\ (source e = k \/ target e = k)).
Proof.
  intros conns. split; [| split].
  - intros k. unfold connection_counts.
    rewrite (connection_counts_from conns [] k). reflexivity.
  - apply (@connection_counts_keys conns [] (NoDup_nil _)).
  - intros k Hk.
    destruct (@connection_counts_keys conns [] (NoDup_nil _))
      as [_ Hkeys].
    destruct (Hkeys k Hk) as [[] | H]. exact H.
Qed.

(** X17. For the connections returned by [_calculate_connections], the
    statistics record at most N document indices, all of them valid: the
    number of isolated documents, N minus the number of recorded indices,
    is never negative. *)
Theorem isolated_documents_nonnegative :
  forall (embeddings : list (list R)) (threshold : R)
         (edges : list Connection),
    _calculate_connections embeddings threshold = Ok edges ->
    Forall (fun k => (k < length embeddings)%nat)
           (map fst (connection_counts edges))
    /\ (length (connection_counts edges) <= length embeddings)%nat
    /\ (0 <= Z.of_nat (length embeddings)
             - Z.of_nat (length (connection_counts edges)))%Z.
Proof.
  intros E t edges H.
  destruct (@connection_counts_keys edges [] (NoDup_nil _))
    as [Hnd Hkeys].
  fold (connection_counts edges) in Hnd, Hkeys.
  pose proof (connections_array _ _ H) as HA.
  rewrite (connections_spec t HA) in H. injection H as Hedges.
  assert (Hvalid : Forall (fun k => (k < length E)%nat)
                     (map fst (connection_counts edges))).
  { apply Forall_forall. intros k Hk.
    destruct (Hkeys k Hk) as [[] | [e [He Hends]]].
    rewrite <- Hedges in He.
    apply (edge_characterisation t e HA) in He.
    destruct He as [Hij _]. destruct Hends as [<- | <-]; lia. }
  assert (Hlen : (length (connection_counts edges) <= length E)%nat).
  { assert (Hincl : incl (map fst (connection_counts edges))
                           (seq 0 (length E))).
    { intros k Hk. apply in_seq. rewrite Forall_forall in Hvalid.
      specialize (Hvalid k Hk). lia. }
    pose proof (NoDup_incl_length Hnd Hincl) as Hle.
    rewrite length_map, length_seq in Hle. exact Hle. }
  split; [exact Hvalid |]. split; [exact Hlen | lia].
Qed.

Lemma isolated_documents_nonnegative_witness :
  Forall (fun k => (k < length twin_documents)%nat)
         (map fst (connection_counts
                     [{| source := 0; target := 1; strength := 1%R |}]))
  /\ (length (connection_counts
                [{| source := 0; target := 1; strength := 1%R |}])
      <= length twin_documents)%nat
  /\ (0 <= Z.of_nat (length twin_documents)
           - Z.of_nat (length (connection_counts
                [{| source := 0; target := 1; strength := 1%R |}])))%Z.
Proof.
  apply (@isolated_documents_nonnegative twin_documents (5 / 10)%R).
  apply twin_documents_connection_at. lra.
Defined.

Lemma connection_counts_are_degrees_witness :
  dict_get (connection_counts
              [{| source := 0; target := 1; strength := 1%R |};
               {| source := 0; target := 2; strength := 1%R |}]) 0 0
  = 2%nat
  /\ exists e,
       In e [{| source := 0; target := 1; strength := 1%R |};
             {| source := 0; target := 2; strength := 1%R |}]
       /\ (source e = 2%nat \/ target e = 2%nat).
Proof.
  destruct (connection_counts_are_degrees
              [{| source := 0; target := 1; strength := 1%R |};
               {| source := 0; target := 2; strength := 1%R |}])
    as [Hdeg [_ Hkeys]].
  split.
  - rewrite Hdeg. reflexivity.
  - apply Hkeys. right. right. left. reflexivity.
Defined.

(* ================================================================== *)
(** ** Chunking a text into overlapping windows of tokens *)

Lemma firstn_skipn_concat (A : Type) (s : nat) (m : nat) (l : list A) :
  (0 < s)%nat -> (length l <= m * s)%nat ->
  concat (map (fun k => firstn s (skipn (k * s) l)) (seq 0 m)) = l.
Proof.
  intros Hs. revert l. induction m as [| m IH]; intros l Hlen.
  - destruct l; [reflexivity | simpl in Hlen; lia].
  - cbn [seq map concat]. cbn [Nat.mul skipn].
    rewrite <- seq_shift, map_map.
    transitivity (firstn s l ++ skipn s l); [| apply firstn_skipn].
    f_equal.
    assert (Hlen' : (length (skipn s l) <= m * s)%nat)
      by (rewrite length_skipn; simpl in Hlen; lia).
    etransitivity; [| exact (IH (skipn s l) Hlen')].
    f_equal. apply map_ext. intros k.
    rewrite skipn_skipn. f_equal. f_equal. lia.
Qed.

Lemma py_range_from_zero (n step : Z) :
  (0 < step)%Z -> (0 <= n)%Z ->
  py_range 0 n step
  = Ok (map (fun k => (Z.of_nat k * step)%Z)
            (seq 0 (Z.to_nat ((n + step - 1) / step)))).
Proof.
  intros Hs Hn. unfold py_range.
  replace (Z.eqb step 0) with false by (symmetry; apply Z.eqb_neq; lia).
  replace (Z.ltb 0 step) with true by (symmetry; apply Z.ltb_lt; lia).
  replace (n - 0 + step - 1)%Z with (n + step - 1)%Z by lia.
  f_equal.
Qed.

Lemma ceil_div_bounds (n step : Z) :
  (0 < step)%Z -> (0 <= n)%Z ->
  let q := ((n + step - 1) / step)%Z in
  (0 <= q)%Z /\ (n <= q * step)%Z /\ ((q - 1) * step < n \/ q = 0)%Z.
Proof.
  intros Hs Hn q.
  pose proof (Z.div_mod (n + step - 1) step ltac:(lia)) as Hdm.
  pose proof (Z.mod_pos_bound (n + step - 1) step Hs) as Hmod.
  fold q in Hdm.
  assert (Hq : (0 <= q)%Z) by (apply Z.div_pos; lia).
  split; [exact Hq |]. split; [nia |].
  destruct (Z.eq_dec q 0) as [-> | Hne]; [right; reflexivity |].
  left. nia.
Qed.

Lemma py_slice_window (A : Type) (l : list A) (k s c : nat) :
  (k * s < length l)%nat -> (0 < c)%nat ->
  py_slice l (Z.of_nat k * Z.of_nat s)
           (Z.of_nat k * Z.of_nat s + Z.of_nat c)
  = firstn (Nat.min c (length l - k * s)) (skipn (k * s) l).
Proof.
  intros Hk Hc. unfold py_slice, slice_index. cbv zeta.
  replace (Z.ltb (Z.of_nat k * Z.of_nat s) 0) with false
    by (symmetry; apply Z.ltb_ge; lia).
  replace (Z.ltb (Z.of_nat k * Z.of_nat s + Z.of_nat c) 0) with false
    by (symmetry; apply Z.ltb_ge; lia).
  rewrite (Z.min_l (Z.of_nat k * Z.of_nat s)) by lia.
  replace (Z.to_nat (Z.of_nat k * Z.of_nat s)) with (k * s)%nat by lia.
  f_equal. lia.
Qed.

Lemma firstn_min_length (A : Type) (a : nat) (l : list A) :
  firstn (Nat.min a (length l)) l = firstn a l.
Proof.
  destruct (Nat.le_gt_cases a (length l)) as [Hle | Hgt].
  - rewrite Nat.min_l by exact Hle. reflexivity.
  - rewrite Nat.min_r by lia.
    rewrite firstn_all, firstn_all2 by lia. reflexivity.
Qed.

Lemma window_overlap (A : Type) (l : list A) (k s c : nat) :
  (s <= c)%nat ->
  skipn s (firstn c (skipn (k * s) l))
  = firstn (c - s) (firstn c (skipn (S k * s) l)).
Proof.
  intros Hsc. rewrite skipn_firstn_comm, skipn_skipn, firstn_firstn.
  rewrite Nat.min_l by lia. reflexivity.
Qed.

(** X18. With 0 <= overlap < chunk_size, the chunks returned by
    [chunk_text] are the decoded windows [tokens[i : i + chunk_size]] for
    i = 0, step, 2 * step, ... below the number of tokens, with
    step = chunk_size - overlap: there are ceil(len / step) of them.  Every
    window is non-empty and at most chunk_size tokens long; what is left
    of a window after its first step tokens opens the window after it; and
    the first step tokens of the windows, put end to end, are the whole
    token sequence: no token is lost. *)
Theorem chunk_text_covers :
  forall (encoding : Encoding) (text : string) (chunk_size overlap : Z),
    (0 <= overlap < chunk_size)%Z ->
    let tokens := encode encoding text in
    let step := Z.to_nat (chunk_size - overlap) in
    let count :=
      Z.to_nat ((Z.of_nat (length tokens) + (chunk_size - overlap) - 1)
                / (chunk_size - overlap)) in
    let window :=
      fun k => firstn (Z.to_nat chunk_size) (skipn (k * step) tokens) in
    chunk_text encoding text chunk_size overlap
    = Ok (map (fun k => decode encoding (window k)) (seq 0 count))
    /\ (forall k, (k < count)%nat ->
          window k <> []
          /\ (Z.of_nat (length (window k)) <= chunk_size)%Z)
    /\ (forall k, (S k < count)%nat ->
          skipn step (window k)
          = firstn (Z.to_nat overlap) (window (S k)))
    /\ concat (map (fun k => firstn step (window k)) (seq 0 count))
       = tokens.
Proof.
  intros enc text cs ov Hov tokens s m window.
  set (c := Z.to_nat cs).
  assert (Hs : (0 < s)%nat) by (unfold s; lia).
  assert (Hsc : (s <= c)%nat) by (unfold s, c; lia).
  assert (Hstep : (cs - ov)%Z = Z.of_nat s) by (unfold s; lia).
  assert (Hcs : cs = Z.of_nat c) by (unfold c; lia).
  assert (Hov' : Z.to_nat ov = (c - s)%nat) by (unfold s, c; lia).
  destruct (@ceil_div_bounds (Z.of_nat (length tokens)) (cs - ov)
              ltac:(lia) ltac:(lia)) as [Hq0 [Hcover Hlast]].
  set (q := ((Z.of_nat (length tokens) + (cs - ov) - 1) / (cs - ov))%Z) in *.
  assert (Hm : Z.of_nat m = q) by (unfold m; lia).
  assert (Hstart : forall k, (k < m)%nat -> (k * s < length tokens)%nat).
  { intros k Hk. destruct Hlast as [Hlast | Hzero]; [| lia].
    rewrite Hstep in Hlast. nia. }
  assert (Hwindow : forall k,
             window k = firstn (Nat.min c (length tokens - k * s))
                               (skipn (k * s) tokens)).
  { intros k. unfold window. fold c.
    rewrite <- (length_skipn (k * s) tokens).
    symmetry. apply firstn_min_length. }
  split; [| split; [| split]].
  - unfold chunk_text. fold tokens.
    rewrite py_range_from_zero by lia. fold q. fold m. cbn [bind].
    f_equal. rewrite !map_map. apply map_ext_in. intros k Hk.
    apply in_seq in Hk. cbv zeta. f_equal.
    rewrite Hwindow, Hstep, Hcs.
    apply py_slice_window; [apply Hstart; lia | lia].
  - intros k Hk. pose proof (Hstart k Hk) as Hks.
    assert (Hlen : length (window k) = Nat.min c (length tokens - k * s)).
    { rewrite Hwindow, length_firstn, length_skipn. lia. }
    split.
    + intros Hnil. rewrite Hnil in Hlen. simpl in Hlen. lia.
    + rewrite Hlen. lia.
  - intros k _. unfold window. fold c. rewrite Hov'.
    apply window_overlap. exact Hsc.
  - assert (Hall : (length tokens <= m * s)%nat) by nia.
    etransitivity; [| exact (@firstn_skipn_concat _ s m tokens Hs Hall)].
    f_equal. apply map_ext. intros k.
    unfold window. fold c. rewrite firstn_firstn.
    rewrite Nat.min_l by exact Hsc. reflexivity.
Qed.

Lemma chunk_text_covers_witness :
  chunk_text char_encoding "abcdefg" 3 1
  = Ok (map (fun k =>
               string_of_list_ascii
                 (firstn 3 (skipn (k * 2) (list_ascii_of_string "abcdefg"))))
            (seq 0 4))
  /\ concat (map (fun k =>
                    firstn 2
                      (firstn 3
                         (skipn (k * 2) (list_ascii_of_string "abcdefg"))))
                 (seq 0 4))
     = list_ascii_of_string "abcdefg".
Proof.
  destruct (@chunk_text_covers char_encoding "abcdefg" 3 1 ltac:(lia))
    as [Hchunks [_ [_ Hcover]]].
  split; [exact Hchunks | exact Hcover].
Defined.

(** X19. When overlap equals chunk_size, [chunk_text] raises [ValueError]
    (the step of the range is zero); when overlap exceeds chunk_size it
    returns no chunk at all, whatever the text. *)
Theorem chunk_text_bad_overlap :
  forall (encoding : Encoding) (text : string) (chunk_size overlap : Z),
    (overlap = chunk_size ->
     chunk_text encoding text chunk_size overlap = Raise ValueError)
    /\ ((chunk_size < overlap)%Z ->
        chunk_text encoding text chunk_size overlap = Ok []).
Proof.
  intros enc text cs ov. split.
  - intros ->. unfold chunk_text, py_range.
    rewrite Z.sub_diag. reflexivity.
  - intros Hlt. unfold chunk_text, py_range.
    replace (Z.eqb (cs - ov) 0) with false
      by (symmetry; apply Z.eqb_neq; lia).
    replace (Z.ltb 0 (cs - ov)) with false
      by (symmetry; apply Z.ltb_ge; lia).
    set (n := Z.of_nat (length (encode enc text))).
    assert (Hcount : ((0 - n - (cs - ov) - 1) / - (cs - ov) <= 0)%Z).
    { assert (Hn : (0 <= n)%Z) by (unfold n; lia).
      destruct (Z.le_gt_cases 0 (0 - n - (cs - ov) - 1)) as [Hpos | Hneg].
      - rewrite Z.div_small by lia. lia.
      - apply Z.lt_le_incl. apply Z.div_lt_upper_bound; lia. }
    replace (Z.to_nat ((0 - n - (cs - ov) - 1) / - (cs - ov))) with 0%nat
      by lia.
    reflexivity.
Qed.

Lemma chunk_text_bad_overlap_witness :
  chunk_text char_encoding "abcdefg" 3 3 = Raise ValueError
  /\ chunk_text char_encoding "abcdefg" 3 5 = Ok [].
Proof.
  split.
  - apply (proj1 (chunk_text_bad_overlap char_encoding "abcdefg" 3 3)).
    reflexivity.
  - apply (proj2 (chunk_text_bad_overlap char_encoding "abcdefg" 3 5)).
    lia.
Defined.

(** The run behind the two witnesses, evaluated. *)
Lemma chunk_text_example :
  chunk_text char_encoding "abcdefg" 3 1
  = Ok ["abc"; "cde"; "efg"; "g"]%string.
Proof. reflexivity. Qed.

(* ================================================================== *)
(** ** The texts most similar to a query *)

Lemma calculate_similarity_same_length (a b : list R) :
  length a = length b -> calculate_similarity a b = Ok (cosine_value a b).
Proof.
  intros H. unfold calculate_similarity, cosine_value.
  rewrite (dot_same_length _ _ H). cbn [bind]. cbv zeta.
  destruct (Reqb (Np.norm a) 0 || Reqb (Np.norm b) 0); reflexivity.
Qed.

Lemma calculate_similarity_mismatch (a b : list R) :
  length a <> length b -> calculate_similarity a b = Raise ValueError.
Proof.
  intros H. unfold calculate_similarity, Np.dot.
  apply Nat.eqb_neq in H. rewrite H. reflexivity.
Qed.

Section SimilarTexts.

Variable Meta : Type.

Lemma insert_by_similarity_perm (a : SimilarText Meta) l :
  Permutation (insert_by_similarity a l) (a :: l).
Proof.
  induction l as [| b l' IH]; [apply Permutation_refl |].
  cbn [insert_by_similarity].
  destruct (Rlt_dec (similarity a) (similarity b)).
  - apply perm_trans with (b :: a :: l').
    + apply perm_skip. exact IH.
    + apply perm_swap.
  - apply Permutation_refl.
Qed.

Lemma sort_by_similarity_perm (l : list (SimilarText Meta)) :
  Permutation (sort_by_similarity l) l.
Proof.
  induction l as [| a l' IH]; [apply Permutation_refl |].
  unfold sort_by_similarity. cbn [fold_right].
  apply perm_trans with (a :: sort_by_similarity l').
  - apply insert_by_similarity_perm.
  - apply perm_skip. exact IH.
Qed.

Lemma insert_by_similarity_sorted (a : SimilarText Meta) l :
  StronglySorted (@more_similar Meta) l ->
  StronglySorted (@more_similar Meta) (insert_by_similarity a l).
Proof.
  induction l as [| b l' IH]; intros Hs.
  - cbn. constructor; [constructor | constructor].
  - cbn [insert_by_similarity].
    inversion Hs as [| b' l'' Hs' Hall]; subst.
    destruct (Rlt_dec (similarity a) (similarity b)) as [Hlt | Hge].
    + constructor; [apply IH; exact Hs' |].
      apply (Permutation_Forall
               (Permutation_sym (insert_by_similarity_perm a l'))).
      constructor; [unfold more_similar; lra | exact Hall].
    + constructor; [exact Hs |].
      constructor; [unfold more_similar; lra |].
      apply Forall_forall. intros c Hc.
      rewrite Forall_forall in Hall. specialize (Hall c Hc).
      unfold more_similar in *. lra.
Qed.

Lemma sort_by_similarity_sorted (l : list (SimilarText Meta)) :
  StronglySorted (@more_similar Meta) (sort_by_similarity l).
Proof.
  induction l as [| a l' IH]; [constructor |].
  unfold sort_by_similarity. cbn [fold_right].
  apply insert_by_similarity_sorted. exact IH.
Qed.

Lemma StronglySorted_app_inv (A : Type) (rel : A -> A -> Prop)
      (l1 l2 : list A) :
  StronglySorted rel (l1 ++ l2) ->
  StronglySorted rel l1
  /\ forall a b, In a l1 -> In b l2 -> rel a b.
Proof.
  induction l1 as [| x l1' IH]; intros H.
  - split; [constructor | intros a b []].
  - cbn [app] in H. inversion H as [| x' l' Hs Hall]; subst.
    destruct (IH Hs) as [Hs1 Hcross].
    rewrite Forall_app in Hall. destruct Hall as [Ha1 Ha2].
    split; [constructor; assumption |].
    intros a b [<- | Ha] Hb.
    + rewrite Forall_forall in Ha2. apply Ha2. exact Hb.
    + apply Hcross; assumption.
Qed.

Lemma py_slice_head (A : Type) (l : list A) (k : Z) :
  (0 <= k)%Z -> py_slice l 0 k = firstn (Z.to_nat k) l.
Proof.
  intros Hk. unfold py_slice, slice_index. cbv zeta.
  change (Z.ltb 0 0) with false. cbv iota.
  rewrite (Z.min_l 0 (Z.of_nat (length l))) by lia.
  destruct (Z.ltb k 0) eqn:Hlt; [apply Z.ltb_lt in Hlt; lia |].
  change (Z.to_nat 0) with 0%nat. cbn [skipn].
  rewrite Z.sub_0_r.
  destruct (Z.le_ge_cases k (Z.of_nat (length l))) as [Hle | Hge].
  - rewrite Z.min_l by exact Hle. reflexivity.
  - rewrite Z.min_r by exact Hge. rewrite Nat2Z.id.
    rewrite firstn_all. symmetry. apply firstn_all2. lia.
Qed.

Variable empty : Meta.

Lemma qualifying_threshold (q : list R) (items : list (TextItem Meta))
      (threshold : R) :
  Forall (fun r => (similarity r >= threshold)%R)
         (qualifying empty q items threshold).
Proof.
  apply Forall_forall. intros r Hr. unfold qualifying in Hr.
  apply in_flat_map in Hr. destruct Hr as [item [_ Hr]]. cbv zeta in Hr.
  unfold Rgeb in Hr.
  destruct (Rge_dec (cosine_value q (item_embedding item)) threshold)
    as [Hge | Hlt]; [| contradiction].
  destruct Hr as [<- | []]. cbn. exact Hge.
Qed.

Lemma find_similar_texts_sorted (q : list R) (items : list (TextItem Meta))
      (threshold : R) (top_k : Z) :
  Forall (fun item => length (item_embedding item) = length q) items ->
  find_similar_texts empty q items threshold top_k
  = Ok (py_slice (sort_by_similarity (qualifying empty q items threshold))
                 0 top_k).
Proof.
  intros Hlen. unfold find_similar_texts.
  rewrite (@for_each_appends _ _ items _
             (fun item =>
                let s := cosine_value q (item_embedding item) in
                if Rgeb s threshold
                then [{| similar_text :=
                           match item_text item with
                           | Some t => t
                           | None => ""%string
                           end;
                         similar_metadata :=
                           match item_metadata item with
                           | Some m => m
                           | None => empty
                           end;
                         similarity := s |}]
                else [])).
  - cbn [bind app]. reflexivity.
  - intros item Hin s. rewrite Forall_forall in Hlen.
    rewrite calculate_similarity_same_length
      by (symmetry; apply Hlen; exact Hin).
    cbn [bind]. cbv zeta.
    destruct (Rgeb (cosine_value q (item_embedding item)) threshold).
    + reflexivity.
    + rewrite app_nil_r. reflexivity.
Qed.

(** X20. When every stored embedding has the length of the query and
    [top_k] is not negative, [find_similar_texts] returns, and what it
    returns is a selection of the entries that reach the threshold: at most
    [top_k] of them (all of them when there are fewer), each with a
    similarity of at least the threshold, larger similarities first, and no
    entry left out is more similar than an entry returned. *)
Theorem find_similar_texts_best (q : list R) (items : list (TextItem Meta))
        (threshold : R) (top_k : Z) :
  (0 <= top_k)%Z ->
  Forall (fun item => length (item_embedding item) = length q) items ->
  exists result rest,
    find_similar_texts empty q items threshold top_k = Ok result
    /\ Permutation (result ++ rest) (qualifying empty q items threshold)
    /\ length result
       = Nat.min (Z.to_nat top_k)
                 (length (qualifying empty q items threshold))
    /\ Forall (fun r => (similarity r >= threshold)%R) result
    /\ StronglySorted (@more_similar Meta) result
    /\ (forall a b, In a result -> In b rest ->
                    (similarity a >= similarity b)%R).
Proof.
  intros Hk Hlen.
  set (all := sort_by_similarity (qualifying empty q items threshold)).
  exists (firstn (Z.to_nat top_k) all), (skipn (Z.to_nat top_k) all).
  assert (Hperm : Permutation all (qualifying empty q items threshold))
    by apply sort_by_similarity_perm.
  assert (Hsorted : StronglySorted (@more_similar Meta) all)
    by apply sort_by_similarity_sorted.
  rewrite <- (firstn_skipn (Z.to_nat top_k) all) in Hsorted.
  apply StronglySorted_app_inv in Hsorted.
  destruct Hsorted as [Hs Hcross].
  split; [| split; [| split; [| split; [| split]]]].
  - rewrite (@find_similar_texts_sorted q items threshold top_k Hlen).
    rewrite (@py_slice_head _ _ top_k Hk). reflexivity.
  - rewrite firstn_skipn. exact Hperm.
  - rewrite length_firstn. rewrite (Permutation_length Hperm). reflexivity.
  - apply Forall_forall. intros r Hr.
    assert (Hin : In r all).
    { rewrite <- (firstn_skipn (Z.to_nat top_k) all).
      apply in_or_app. left. exact Hr. }
    apply (Permutation_in _ Hperm) in Hin.
    pose proof (qualifying_threshold q items threshold) as Hq.
    rewrite Forall_forall in Hq. apply Hq. exact Hin.
  - exact Hs.
  - intros a b Ha Hb. apply (Hcross a b Ha Hb).
Qed.

(** X21. One stored embedding whose length differs from the query's makes
    [find_similar_texts] raise [ValueError], whatever the threshold and
    whatever the other entries are worth: nothing is returned for the
    entries before it. *)
Theorem find_similar_texts_length_mismatch (q : list R)
        (items : list (TextItem Meta)) (threshold : R) (top_k : Z) :
  Exists (fun item => length (item_embedding item) <> length q) items ->
  find_similar_texts empty q items threshold top_k = Raise ValueError.
Proof.
  intros Hex. unfold find_similar_texts.
  assert (Hloop : forall s,
             for_each items
               (fun item similarities =>
                  similarity <-
                    calculate_similarity q (item_embedding item) ;;
                  Ok (if Rgeb similarity threshold
                      then similarities ++
                           [{| similar_text :=
                                 match item_text item with
                                 | Some t => t
                                 | None => ""%string
                                 end;
                               similar_metadata :=
                                 match item_metadata item with
                                 | Some m => m
                                 | None => empty
                                 end;
                               similarity := similarity |}]
                      else similarities)) s
             = Raise ValueError).
  { induction Hex as [item l Hne | item l Hex IH]; intros s.
    - cbn [for_each].
      rewrite calculate_similarity_mismatch by (intros E; apply Hne; auto).
      reflexivity.
    - cbn [for_each].
      destruct (Nat.eq_dec (length q) (length (item_embedding item)))
        as [Heq | Hne].
      + rewrite (calculate_similarity_same_length _ _ Heq). cbn [bind].
        apply IH.
      + rewrite (calculate_similarity_mismatch _ _ Hne). reflexivity. }
  rewrite Hloop. reflexivity.
Qed.

End SimilarTexts.

Lemma find_similar_texts_best_witness :
  exists result rest,
    find_similar_texts tt [1; 0]%R
      [ {| item_text := Some "east"%string; item_metadata := Some tt;
           item_embedding := [2; 0]%R |};
        {| item_text := None; item_metadata := None;
           item_embedding := [0; 1]%R |};
        {| item_text := Some "north-east"%string; item_metadata := None;
           item_embedding := [4; 3]%R |} ]
      (7 / 10)%R 1
    = Ok result
    /\ Permutation (result ++ rest)
         (qualifying tt [1; 0]%R
            [ {| item_text := Some "east"%string; item_metadata := Some tt;
                 item_embedding := [2; 0]%R |};
              {| item_text := None; item_metadata := None;
                 item_embedding := [0; 1]%R |};
              {| item_text := Some "north-east"%string;
                 item_metadata := None;
                 item_embedding := [4; 3]%R |} ]
            (7 / 10)%R)
    /\ length result
       = Nat.min (Z.to_nat 1)
           (length
              (qualifying tt [1; 0]%R
                 [ {| item_text := Some "east"%string;
                      item_metadata := Some tt;
                      item_embedding := [2; 0]%R |};
                   {| item_text := None; item_metadata := None;
                      item_embedding := [0; 1]%R |};
                   {| item_text := Some "north-east"%string;
                      item_metadata := None;
                      item_embedding := [4; 3]%R |} ]
                 (7 / 10)%R))
    /\ Forall (fun r => (similarity r >= 7 / 10)%R) result
    /\ StronglySorted (@more_similar unit) result
    /\ (forall a b, In a result -> In b rest ->
                    (similarity a >= similarity b)%R).
Proof.
  apply (@find_similar_texts_best unit tt [1; 0]%R _ (7 / 10)%R 1%Z).
  - lia.
  - repeat constructor.
Defined.

Lemma find_similar_texts_length_mismatch_witness :
  find_similar_texts tt [1; 0]%R
    [ {| item_text := Some "east"%string; item_metadata := Some tt;
         item_embedding := [2; 0]%R |};
      {| item_text := Some "short"%string; item_metadata := None;
         item_embedding := [1]%R |} ]
    (7 / 10)%R 5
  = Raise ValueError.
Proof.
  apply (@find_similar_texts_length_mismatch unit tt [1; 0]%R _
           (7 / 10)%R 5%Z).
  apply Exists_cons_tl. apply Exists_cons_hd. cbn. discriminate.
Defined.
